(** * cloud-gate proxy: the CQL filter (package [filter])

    A shallow embedding of the proxy data plane: the frame demarshaller of
    [forward], the mirror classifier [mirrorData] with its query handlers,
    the mirror executor [execute] / [consumeQueue], the origin connection
    counter and the table-reference parser [extractTableInfo].

    Conventions.
    - Go [int] is 64 bits wide on the platforms the proxy is built for; every
      integer that occurs below stays far inside that range, so integers are
      [Z] without wrap-around.
    - A [[]byte] is a [list byte]; a Go [string] is a [string] (a sequence of
      8-bit characters, as in Go).
    - Maps are [gmap]s; reading a missing key yields Go's zero value, which is
      written out at every read. *)

From Stdlib Require Import ZArith Lia Bool.
From Stdlib.Strings Require Import Byte Ascii.
From stdpp Require Import base option list gmap strings.

Local Open Scope Z_scope.

(** ** Bytes *)

Definition byte_val (b : byte) : Z := Z.of_N (Byte.to_N b).

(** [binary.BigEndian.Uint32(b)]:
    [uint32(b[3]) | uint32(b[2])<<8 | uint32(b[1])<<16 | uint32(b[0])<<24].
    The only caller passes the four-byte slice [data[5:9]]. *)
Definition Uint32 (b : list byte) : Z :=
  Z.lor (Z.lor (Z.lor (byte_val (nth 3 b Byte.x00))
                      (Z.shiftl (byte_val (nth 2 b Byte.x00)) 8))
               (Z.shiftl (byte_val (nth 1 b Byte.x00)) 16))
        (Z.shiftl (byte_val (nth 0 b Byte.x00)) 24).

(** Go's [len]. *)
Definition len {A} (l : list A) : Z := Z.of_nat (length l).

(** The slice expression [data[lo:hi]]. *)
Definition slice {A} (lo hi : Z) (l : list A) : list A :=
  take (Z.to_nat (hi - lo)) (drop (Z.to_nat lo) l).

Definition cassHdrLen : Z := 9.
Definition cassMaxLen : Z := 268435456.
Definition queueSize : Z := 1000.

(** ** The frame demarshaller of [forward] *)

Module Demarshal.

(** One pass of the guards at the head of the inner loop of [forward]:
    [None] is [break], [Some (query, rest)] is the frame [data[:fullLength]]
    together with [data[fullLength:]]. *)
Definition peel (data : list byte) : option (list byte * list byte) :=
  if len data <? cassHdrLen then None
  else
    let bodyLength := Uint32 (slice 5 9 data) in
    let fullLength := cassHdrLen + bodyLength in
    if (len data <? fullLength) || (len data >? cassMaxLen) then None
    else Some (take (Z.to_nat fullLength) data, drop (Z.to_nat fullLength) data).

(** What [src.Read] hands back: some bytes, or an error (EOF included). *)
Inductive ReadResult :=
  | RdData (chunk : list byte)
  | RdErr.

(** How far a forwarder got. *)
Inductive Status :=
  | AwaitRead   (* in [src.Read]: the script of reads is used up *)
  | Returned    (* [forward] has returned (a read failed); both sockets closed *)
  | Parked      (* the work that follows a write did not come back *)
  | Spinning.   (* still inside the inner loop when the fuel ran out *)

Record Fwd := mkFwd {
  data : list byte;             (* the reassembly buffer *)
  out : list (list byte);       (* the frames [dst.Write] accepted, oldest first *)
  nwrites : nat;                (* calls of [dst.Write] so far *)
}.

Section Forward.

(** The surroundings of one forwarder.  [dstWrite n] tells whether the
    [n]-th call of [dst.Write] on this connection succeeds; a failed write
    is taken to have delivered nothing.  [afterWrite] is what follows an
    accepted write before the buffer is advanced (mirroring and counting, on
    a state of type [P]), with a flag telling whether it came back;
    [atReturn] is the deferred work of a forwarder that returns. *)
Context {P : Type}.
Variable dstWrite : nat -> bool.
Variable afterWrite : list byte -> P -> P * bool.
Variable atReturn : P -> P.

(** The inner [for true] loop.  A failed write takes the [continue] branch:
    the buffer is left as it is and the same frame is tried again. *)
Fixpoint drain (fuel : nat) (s : Fwd) (p : P) : Status * Fwd * P :=
  match fuel with
  | O => (Spinning, s, p)
  | S fuel' =>
      match peel (data s) with
      | None => (AwaitRead, s, p)
      | Some (query, rest) =>
          if dstWrite (nwrites s) then
            let s1 := mkFwd (data s) (out s ++ [query]) (S (nwrites s)) in
            let '(p1, back) := afterWrite query p in
            if back then drain fuel' (mkFwd rest (out s1) (nwrites s1)) p1
            else (Parked, s1, p1)
          else drain fuel' (mkFwd (data s) (out s) (S (nwrites s))) p
      end
  end.

(** The outer loop: one turn per result of [src.Read].  [fuel] bounds each
    run of the inner loop. *)
Fixpoint pump (fuel : nat) (reads : list ReadResult) (s : Fwd) (p : P)
  : Status * Fwd * P :=
  match reads with
  | [] => (AwaitRead, s, p)
  | RdErr :: _ => (Returned, s, atReturn p)
  | RdData chunk :: reads' =>
      match drain fuel (mkFwd (data s ++ chunk) (out s) (nwrites s)) p with
      | (AwaitRead, s', p') => pump fuel reads' s' p'
      | stuck => stuck
      end
  end.

End Forward.

(** The bytes a script of reads delivers before its first error. *)
Fixpoint delivered (reads : list ReadResult) : list byte :=
  match reads with
  | RdData chunk :: reads' => chunk ++ delivered reads'
  | _ => []
  end.

Definition start : Fwd := mkFwd [] [] 0.

(** The frame a forwarder has written but not counted: the one whose
    mirroring did not come back. *)
Definition short (st : Status) : Z := match st with Parked => 1 | _ => 0 end.

(** A frame is well delimited when its length is the header's claim. *)
Definition framed (f : list byte) : Prop :=
  len f = 9 + Uint32 (slice 5 9 f).

(** A buffer that does not yet hold a whole frame: it is shorter than a
    header, or shorter than the frame its header announces. *)
Definition partial (d : list byte) : Prop :=
  len d < 9 \/ len d < 9 + Uint32 (slice 5 9 d).

End Demarshal.

(** ** Strings *)

Definition quote : ascii := "034"%char.

(** [strings.IndexRune(s, r)] for a rune below 0x80: the index of the first
    byte equal to [r], or [-1]. *)
Fixpoint IndexRune (s : string) (r : ascii) : Z :=
  match s with
  | EmptyString => -1
  | String c s' =>
      if Ascii.eqb c r then 0
      else let i := IndexRune s' r in if i =? -1 then -1 else i + 1
  end.

Fixpoint str_take (n : nat) (s : string) : string :=
  match n, s with
  | S n', String c s' => String c (str_take n' s')
  | _, _ => EmptyString
  end.

Fixpoint str_drop (n : nat) (s : string) : string :=
  match n, s with
  | S n', String _ s' => str_drop n' s'
  | _, _ => s
  end.

(** The slice expressions [s[:i]] and [s[i:]].  Every index used below comes
    from [IndexRune] on the same string, so it is in range. *)
Definition upto (i : Z) (s : string) : string := str_take (Z.to_nat i) s.
Definition from (i : Z) (s : string) : string := str_drop (Z.to_nat i) s.

Definition slen (s : string) : Z := Z.of_nat (String.length s).

(** [strings.HasPrefix] and [strings.HasSuffix]. *)
Definition HasPrefix (s pre : string) : bool := String.prefix pre s.
Definition HasSuffix (s suf : string) : bool :=
  String.prefix (String.rev suf) (String.rev s).

(** [strings.Split(s, sep)] for a one-byte separator. *)
Fixpoint Split (s : string) (sep : ascii) : list string :=
  match s with
  | EmptyString => [EmptyString]
  | String c s' =>
      if Ascii.eqb c sep then EmptyString :: Split s' sep
      else match Split s' sep with
           | f :: fs => String c f :: fs
           | [] => [String c EmptyString]
           end
  end.

(** [strings.Join(elems, sep)] for a one-byte separator. *)
Fixpoint Join (elems : list string) (sep : ascii) : string :=
  match elems with
  | [] => EmptyString
  | [e] => e
  | e :: rest => e +:+ String sep (Join rest sep)
  end.

(** ** [extractTableInfo] *)

(** Given a FROM argument, extract the table name. *)
Definition extractTableInfo (fromClause : string) : string * string :=
  let keyspace :=
    let i := IndexRune fromClause "." in
    if negb (i =? -1) then upto i fromClause else EmptyString in
  let tableName := fromClause in
  let tableName :=
    let i := IndexRune tableName ";" in
    if negb (i =? -1) then upto i tableName else tableName in
  let tableName :=
    let i := IndexRune tableName "." in
    if negb (i =? -1) then from (i + 1) tableName else tableName in
  let tableName :=
    let i := IndexRune tableName "(" in
    if negb (i =? -1) then upto i tableName else tableName in
  (keyspace, tableName).

(** *** Table references as the specification describes them *)

(** The part of [s] before the first [c] (all of [s] when there is none), and
    the part after it. *)
Definition cut (c : ascii) (s : string) : string :=
  let i := IndexRune s c in if negb (i =? -1) then upto i s else s.

Definition after (c : ascii) (s : string) : string :=
  let i := IndexRune s c in if negb (i =? -1) then from (i + 1) s else s.

(** [strings.ToLower] on ASCII text. *)
Definition lowerAscii (c : ascii) : ascii :=
  let n := Ascii.N_of_ascii c in
  if ((65 <=? n) && (n <=? 90))%N then Ascii.ascii_of_N (n + 32) else c.

Fixpoint asciiLower (s : string) : string :=
  match s with
  | EmptyString => EmptyString
  | String c s' => String (lowerAscii c) (asciiLower s')
  end.

(** The table-reference rules in the words of the specification: strip a
    trailing [;]; if [.] appears, split on the first one; strip anything at or
    after [(]; a keyspace wrapped in double quotes keeps its case and loses
    the quotes, any other keyspace is lowercased. *)
Definition stripTrailing (c : ascii) (s : string) : string :=
  if HasSuffix s (String c EmptyString) then upto (slen s - 1) s else s.

Definition specKeyspace (lower : string -> string) (raw : string) : string :=
  if HasPrefix raw (String quote EmptyString)
     && HasSuffix raw (String quote EmptyString) && (2 <=? slen raw)
  then upto (slen raw - 2) (from 1 raw)
  else lower raw.

Definition tableInfo_spec (lower : string -> string) (token : string) : string * string :=
  let token := stripTrailing ";" token in
  let i := IndexRune token "." in
  let '(keyspace, table) :=
    if negb (i =? -1) then (upto i token, from (i + 1) token)
    else (EmptyString, token) in
  (specKeyspace lower keyspace, cut "(" table).

(** ** The proxy state *)

Inductive QueryType := USE | INSERT | UPDATE | DELETE | TRUNCATE | PREPARE | MISC.

(** A Go [error]: [None] is [nil]. *)
Definition error := option string.

Module migration.

(** Modelled from the spec: [migration.Step] and [migration.Table] are
    declared in a file of package [migration] that is not among the sources
    at hand.  A step is a value of an integer enumeration; a table carries
    its keyspace, its name and its step.  The table's own mutex is taken
    only by [tableStatus], for the time of one read, and is left out. *)
Definition Step := Z.

Record Table := mkTable {
  Keyspace : string;
  Name : string;
  TStep : Step;
}.

(** [Status.Tables]; the status mutex guards [handleUpdate] only. *)
Abbreviation Tables := (gmap string (gmap string Table)).

End migration.

Record Query := mkQuery {
  QTable : option migration.Table;   (* [*migration.Table], [None] is [nil] *)
  QType : QueryType;
  QQuery : list byte;
}.

Record Metrics := mkMetrics {
  PacketCount : Z;
  Reads : Z;
  Writes : Z;
  WriteFails : Z;
  ReadFails : Z;
}.

(** What the proxy does to the world outside its own fields, oldest first. *)
Inductive Effect :=
  | TargetWrite (b : list byte) (ok : bool)   (* [p.astraSession.Write], and whether it succeeded *)
  | Sleep (ms : Z)                            (* [time.Sleep] *)
  | ParseReply (b : list byte)                (* [cqlparser.CassandraParseReply] *)
  | ParseRequest (b : list byte)              (* [cqlparser.CassandraParseRequest] *)
  | Redirect (taken : bool)                   (* a send on [ReadyForRedirect], and whether a receiver took it *)
  | Pause (ks tn : string)                    (* [tablePaused[ks][tn] = true] *)
  | Latch (ks tn : string)                    (* [queueLocks[ks][tn].Lock()] came back *)
  | Enqueue (ks tn : string) (q : Query).     (* a send on [queues[ks][tn]] went through *)

Definition is_write (e : Effect) : bool :=
  match e with TargetWrite _ _ => true | _ => false end.

Definition is_parse (e : Effect) : bool :=
  match e with ParseReply _ | ParseRequest _ => true | _ => false end.

Definition is_redirect (e : Effect) : bool :=
  match e with Redirect _ => true | _ => false end.

Definition is_enqueue (e : Effect) : Prop :=
  match e with Enqueue _ _ _ => True | _ => False end.

Definition is_failed_write (e : Effect) : bool :=
  match e with TargetWrite _ false => true | _ => false end.

Definition sleep_ms (e : Effect) : Z :=
  match e with Sleep ms => ms | _ => 0 end.

(** Calls of [p.astraSession.Write] (all, and the failed ones), sends on
    [ReadyForRedirect] and milliseconds slept that a log records. *)
Definition writes_in (l : list Effect) : nat := length (List.filter is_write l).
Definition failed_in (l : list Effect) : nat := length (List.filter is_failed_write l).
Definition redirects_in (l : list Effect) : nat := length (List.filter is_redirect l).
Definition slept_in (l : list Effect) : Z := foldr (fun e acc => sleep_ms e + acc) 0 l.

Section Proxy.

(** The parser package [cqlparser] is outside the sources at hand; the
    proxy only calls it.  [CassandraParseReply] updates the registry of
    prepared statements in place; [CassandraParseRequest] may do so too and
    returns the operation paths and an error. *)
Context {PreparedQueries : Type}.
Variable CassandraParseReply : PreparedQueries -> list byte -> PreparedQueries.
Variable CassandraParseRequest :
  PreparedQueries -> list byte -> PreparedQueries * list string * error.
Variable UnknownPreparedQueryPath : string.

(** [strings.ToLower]. *)
Variable ToLower : string -> string.

(** [migration.LoadingDataComplete]. *)
Variable LoadingDataComplete : migration.Step.

(** The world outside: whether the [n]-th call of [p.astraSession.Write]
    succeeds, and whether the [n]-th send on the unbuffered channel
    [ReadyForRedirect] finds a receiver. *)
Variable astraWrite : nat -> bool.
Variable redirectTaken : nat -> bool.

Record CQLProxy := mkProxy {
  sourceHostString : string;
  astraHostString : string;
  queues : gmap string (gmap string (list Query));   (* contents of the channels *)
  queueLocks : gmap string (gmap string bool);       (* is the mutex held? *)
  queueSizes : gmap string (gmap string Z);
  tablePaused : gmap string (gmap string bool);
  lock : bool;                                       (* is [p.lock] held? *)
  migrationComplete : bool;
  migrationStatus : option migration.Tables;         (* [None] is the nil pointer *)
  connectionsToSource : Z;
  Keyspace : string;
  metrics : Metrics;
  preparedQueries : PreparedQueries;
  log : list Effect;
}.

(** Field updates. *)
Definition set_queues v p :=
  mkProxy (sourceHostString p) (astraHostString p) v (queueLocks p) (queueSizes p)
    (tablePaused p) (lock p) (migrationComplete p) (migrationStatus p)
    (connectionsToSource p) (Keyspace p) (metrics p) (preparedQueries p) (log p).
Definition set_queueLocks v p :=
  mkProxy (sourceHostString p) (astraHostString p) (queues p) v (queueSizes p)
    (tablePaused p) (lock p) (migrationComplete p) (migrationStatus p)
    (connectionsToSource p) (Keyspace p) (metrics p) (preparedQueries p) (log p).
Definition set_queueSizes v p :=
  mkProxy (sourceHostString p) (astraHostString p) (queues p) (queueLocks p) v
    (tablePaused p) (lock p) (migrationComplete p) (migrationStatus p)
    (connectionsToSource p) (Keyspace p) (metrics p) (preparedQueries p) (log p).
Definition set_tablePaused v p :=
  mkProxy (sourceHostString p) (astraHostString p) (queues p) (queueLocks p) (queueSizes p)
    v (lock p) (migrationComplete p) (migrationStatus p)
    (connectionsToSource p) (Keyspace p) (metrics p) (preparedQueries p) (log p).
Definition set_lock v p :=
  mkProxy (sourceHostString p) (astraHostString p) (queues p) (queueLocks p) (queueSizes p)
    (tablePaused p) v (migrationComplete p) (migrationStatus p)
    (connectionsToSource p) (Keyspace p) (metrics p) (preparedQueries p) (log p).
Definition set_migrationComplete v p :=
  mkProxy (sourceHostString p) (astraHostString p) (queues p) (queueLocks p) (queueSizes p)
    (tablePaused p) (lock p) v (migrationStatus p)
    (connectionsToSource p) (Keyspace p) (metrics p) (preparedQueries p) (log p).
Definition set_migrationStatus v p :=
  mkProxy (sourceHostString p) (astraHostString p) (queues p) (queueLocks p) (queueSizes p)
    (tablePaused p) (lock p) (migrationComplete p) v
    (connectionsToSource p) (Keyspace p) (metrics p) (preparedQueries p) (log p).
Definition set_connectionsToSource v p :=
  mkProxy (sourceHostString p) (astraHostString p) (queues p) (queueLocks p) (queueSizes p)
    (tablePaused p) (lock p) (migrationComplete p) (migrationStatus p)
    v (Keyspace p) (metrics p) (preparedQueries p) (log p).
Definition set_Keyspace v p :=
  mkProxy (sourceHostString p) (astraHostString p) (queues p) (queueLocks p) (queueSizes p)
    (tablePaused p) (lock p) (migrationComplete p) (migrationStatus p)
    (connectionsToSource p) v (metrics p) (preparedQueries p) (log p).
Definition set_metrics v p :=
  mkProxy (sourceHostString p) (astraHostString p) (queues p) (queueLocks p) (queueSizes p)
    (tablePaused p) (lock p) (migrationComplete p) (migrationStatus p)
    (connectionsToSource p) (Keyspace p) v (preparedQueries p) (log p).
Definition set_preparedQueries v p :=
  mkProxy (sourceHostString p) (astraHostString p) (queues p) (queueLocks p) (queueSizes p)
    (tablePaused p) (lock p) (migrationComplete p) (migrationStatus p)
    (connectionsToSource p) (Keyspace p) (metrics p) v (log p).
Definition emit (e : Effect) p :=
  mkProxy (sourceHostString p) (astraHostString p) (queues p) (queueLocks p) (queueSizes p)
    (tablePaused p) (lock p) (migrationComplete p) (migrationStatus p)
    (connectionsToSource p) (Keyspace p) (metrics p) (preparedQueries p) (log p ++ [e]).

(** *** Running one goroutine *)

(** A call either comes back with a value, or leaves its goroutine blocked
    on a mutex or a channel, or panics (which takes the process down).  The
    state is the one reached at that point. *)
Inductive Outcome (A : Type) :=
  | Ret (a : A) (p : CQLProxy)
  | Park (p : CQLProxy)
  | Panic (p : CQLProxy).
Arguments Ret {A}.
Arguments Park {A}.
Arguments Panic {A}.

Definition M (A : Type) := CQLProxy -> Outcome A.

Definition ret {A} (a : A) : M A := fun p => Ret a p.

Definition bind {A B} (m : M A) (k : A -> M B) : M B :=
  fun p => match m p with
           | Ret a p' => k a p'
           | Park p' => Park p'
           | Panic p' => Panic p'
           end.

Definition state_of {A} (o : Outcome A) : CQLProxy :=
  match o with Ret _ p | Park p | Panic p => p end.

Definition get : M CQLProxy := fun p => Ret p p.
Definition modify (f : CQLProxy -> CQLProxy) : M unit := fun p => Ret tt (f p).
Definition park {A} : M A := fun p => Park p.
Definition panic {A} : M A := fun p => Panic p.

#[local] Instance M_ret : MRet M := fun A a => ret a.
#[local] Instance M_bind : MBind M := fun A B k m => bind m k.

(** Reading [m[ks][tn]]: [None] when the key is missing at either level
    (Go then reads the zero value). *)
Definition at2 {V} (m : gmap string (gmap string V)) (ks tn : string) : option V :=
  match m !! ks with
  | Some inner => inner !! tn
  | None => None
  end.

(** Writing [m[ks][tn] = v]: [None] when [m[ks]] is the nil map (Go panics). *)
Definition put2 {V} (m : gmap string (gmap string V)) (ks tn : string) (v : V)
  : option (gmap string (gmap string V)) :=
  match m !! ks with
  | Some inner => Some (<[ks := <[tn := v]> inner]> m)
  | None => None
  end.

(** [p.lock.Lock()] with the deferred or explicit [Unlock] around [body]. *)
Definition locked {A} (body : M A) : M A := fun p =>
  if lock p then Park p else body p.

(** *** Metrics *)

(** The mutex of the metrics is held for one increment at a time and never
    across a call that can block; it is left out. *)

Definition incrementPackets : M unit := modify (fun p =>
  let m := metrics p in
  set_metrics (mkMetrics (PacketCount m + 1) (Reads m) (Writes m) (WriteFails m) (ReadFails m)) p).

Definition incrementReads : M unit := modify (fun p =>
  let m := metrics p in
  set_metrics (mkMetrics (PacketCount m) (Reads m + 1) (Writes m) (WriteFails m) (ReadFails m)) p).

Definition incrementWrites : M unit := modify (fun p =>
  let m := metrics p in
  set_metrics (mkMetrics (PacketCount m) (Reads m) (Writes m + 1) (WriteFails m) (ReadFails m)) p).

Definition incrementWriteFails : M unit := modify (fun p =>
  let m := metrics p in
  set_metrics (mkMetrics (PacketCount m) (Reads m) (Writes m) (WriteFails m + 1) (ReadFails m)) p).

(** *** The mirror executor *)

(** The loop of [execute], [n] turns before [i] exceeds 5.  The result of
    the write lives in a variable of the loop body. *)
Fixpoint attempts (n : nat) (b : list byte) (p : CQLProxy) : CQLProxy :=
  match n with
  | O => p
  | S n' =>
      let ok := astraWrite (writes_in (log p)) in
      let p1 := emit (TargetWrite b ok) p in
      if ok then p1                              (* [err == nil]: [break] *)
      else attempts n' b (emit (Sleep 500) p1)
  end.

(** [execute]: the [err] that is returned is the one declared before the
    loop; the loop declares its own with [:=] and never assigns the outer
    one. *)
Definition execute (query : Query) : M error := fun p =>
  let err : error := None in
  let p' := attempts 5 (QQuery query) p in
  Ret err p'.

Definition lockLatch (ks tn : string) : M unit := fun p =>
  match queueLocks p !! ks with
  | Some inner =>
      match inner !! tn with
      | Some false =>
          Ret tt (emit (Latch ks tn) (set_queueLocks (<[ks := <[tn := true]> inner]> (queueLocks p)) p))
      | Some true => Park p
      | None => Panic p          (* a nil [*sync.Mutex] *)
      end
  | None => Panic p
  end.

Definition unlockLatch (ks tn : string) : M unit := fun p =>
  match queueLocks p !! ks with
  | Some inner =>
      match inner !! tn with
      | Some true =>
          Ret tt (set_queueLocks (<[ks := <[tn := false]> inner]> (queueLocks p)) p)
      | Some false => Panic p    (* unlock of an unlocked mutex *)
      | None => Panic p
      end
  | None => Panic p
  end.

(** [p.queueSizes[ks][tn]] changed by [d], under [p.lock]. *)
Definition addQueueSize (ks tn : string) (d : Z) : M unit := locked (fun p =>
  match put2 (queueSizes p) ks tn (default 0 (at2 (queueSizes p) ks tn) + d) with
  | Some m => Ret tt (set_queueSizes m p)
  | None => Panic p
  end).

(** One turn of the loop of [consumeQueue]. *)
Definition consumeQueue (ks tn : string) : M unit := fun p =>
  match queues p !! ks with
  | Some inner =>
      match inner !! tn with
      | Some (query :: rest) =>
          (modify (set_queues (<[ks := <[tn := rest]> inner]> (queues p)));;
           lockLatch ks tn;;
           err ← execute query;
           match err with
           | Some _ => incrementWriteFails
           | None => incrementWrites
           end;;
           addQueueSize ks tn (-1);;
           unlockLatch ks tn) p
      | Some [] => Park p        (* nothing to receive *)
      | None => Park p           (* a nil channel *)
      end
  | None => Park p
  end.

(** *** Pausing and queueing *)

Definition tableStatus (ks tn : string) : M migration.Step := fun p =>
  match migrationStatus p with
  | Some tables =>
      match at2 tables ks tn with
      | Some table => Ret (migration.TStep table) p
      | None => Panic p
      end
  | None => Panic p
  end.

Definition stopTable (ks tn : string) : M unit := fun p =>
  match put2 (tablePaused p) ks tn true with
  | Some m => lockLatch ks tn (emit (Pause ks tn) (set_tablePaused m p))
  | None => Panic p
  end.

Definition startTable (ks tn : string) : M unit := fun p =>
  match put2 (tablePaused p) ks tn false with
  | Some m => unlockLatch ks tn (set_tablePaused m p)
  | None => Panic p
  end.

Definition queueQuery (query : Query) : M unit := fun p =>
  match QTable query with
  | Some table =>
      let ks := migration.Keyspace table in
      let tn := migration.Name table in
      match queues p !! ks with
      | Some inner =>
          match inner !! tn with
          | Some q =>
              if len q <? queueSize then
                addQueueSize ks tn 1
                  (emit (Enqueue ks tn query)
                     (set_queues (<[ks := <[tn := q ++ [query]]> inner]> (queues p)) p))
              else Park p        (* the channel is full *)
          | None => Park p       (* a nil channel *)
          end
      | None => Park p
      end
  | None => Panic p
  end.

Definition no_table (ks tn : string) : error :=
  Some ("table " +:+ ks +:+ "." +:+ tn +:+ " does not exist").

Definition paused (ks tn : string) (p : CQLProxy) : bool :=
  default false (at2 (tablePaused p) ks tn).

Definition handleInsertQuery (query : list byte) (ks tn : string) : M error := fun p =>
  match migrationStatus p with
  | Some tables =>
      match at2 tables ks tn with
      | Some table =>
          (queueQuery (mkQuery (Some table) INSERT query);; ret None) p
      | None => Ret (no_table ks tn) p
      end
  | None => Panic p
  end.

Definition handleUpdateQuery (query : list byte) (ks tn : string) : M error := fun p =>
  match migrationStatus p with
  | Some tables =>
      match at2 tables ks tn with
      | Some table =>
          ((if negb (paused ks tn p) then
              step ← tableStatus ks tn;
              if negb (step =? LoadingDataComplete) then stopTable ks tn else ret tt
            else ret tt);;
           queueQuery (mkQuery (Some table) UPDATE query);;
           ret None) p
      | None => Ret (no_table ks tn) p
      end
  | None => Panic p
  end.

Definition handleDeleteQuery (query : list byte) (ks tn : string) : M error := fun p =>
  match migrationStatus p with
  | Some tables =>
      match at2 tables ks tn with
      | Some table =>
          ((if negb (paused ks tn p) then
              step ← tableStatus ks tn;
              if negb (step =? LoadingDataComplete) then stopTable ks tn else ret tt
            else ret tt);;
           queueQuery (mkQuery (Some table) DELETE query);;
           ret None) p
      | None => Ret (no_table ks tn) p
      end
  | None => Panic p
  end.

Definition handleTruncateQuery (query : list byte) (ks tn : string) : M error := fun p =>
  match migrationStatus p with
  | Some tables =>
      match at2 tables ks tn with
      | Some table =>
          ((if negb (paused ks tn p) then
              step ← tableStatus ks tn;
              if negb (step =? LoadingDataComplete) then stopTable ks tn else ret tt
            else ret tt);;
           queueQuery (mkQuery (Some table) TRUNCATE query);;
           ret None) p
      | None => Ret (no_table ks tn) p
      end
  | None => Panic p
  end.

(** *** USE *)

(** The keyspace [handleUseQuery] looks up: a token wrapped in double
    quotes loses them and keeps its case, any other token is lowercased.
    [None]: the slice [keyspace[1 : len(keyspace)-1]] is out of bounds (the
    token is a lone double quote) and Go panics. *)
Definition useKeyspace (keyspace : string) : option string :=
  if HasPrefix keyspace (String quote EmptyString)
     && HasSuffix keyspace (String quote EmptyString) then
    if slen keyspace - 1 <? 1 then None
    else Some (upto (slen keyspace - 1 - 1) (from 1 keyspace))
  else Some (ToLower keyspace).

Definition handleUseQuery (query : list byte) (keyspace : string) : M error := fun p =>
  match useKeyspace keyspace with
  | Some keyspace =>
      match migrationStatus p with
      | Some tables =>
          match tables !! keyspace with
          | None => Ret (Some "invalid keyspace") p
          | Some _ =>
              (modify (set_Keyspace keyspace);;
               execute (mkQuery None USE query)) p
          end
      | None => Panic p
      end
  | None => Panic p
  end.

(** *** The mirror classifier *)

Definition compression_error : error :=
  Some "compression flag set, unable to parse reply beyond header".

(** What [mirrorData] does with the single path of a request. *)
Definition mirrorPath (data : list byte) (path : string) : M error :=
  if String.eqb path UnknownPreparedQueryPath then ret None
  else
    let fields := Split path "/" in
    if len fields >? 2 then
      match fields with
      | _ :: opcode :: action :: rest =>
          if String.eqb opcode "prepare" then execute (mkQuery None PREPARE data)
          else if String.eqb opcode "query" || String.eqb opcode "execute" then
            match rest with
            | ref :: _ =>
                let '(keyspace, table) := extractTableInfo ref in
                p ← get;
                let keyspace := if String.eqb keyspace "" then Keyspace p else keyspace in
                if String.eqb action "use" then handleUseQuery data ref
                else if String.eqb action "insert" then handleInsertQuery data keyspace table
                else if String.eqb action "update" then handleUpdateQuery data keyspace table
                else if String.eqb action "delete" then handleDeleteQuery data keyspace table
                else if String.eqb action "truncate" then handleTruncateQuery data keyspace table
                else if String.eqb action "select" then (incrementReads;; ret None)
                else ret None
            | [] => panic          (* [fields[3]] is out of range *)
            end
          else ret None
      | _ => ret None              (* not reached: there are three fields or more *)
      end
    else execute (mkQuery None MISC data).

(** [mirrorData]. *)
Definition mirrorData (data : list byte) : M error :=
  match data with
  | b0 :: b1 :: _ =>
      let compressionFlag := Z.land (byte_val b1) 1 in
      if compressionFlag =? 1 then ret compression_error
      else if byte_val b0 >? 128 then
        (* if reply, we parse replies but only look for prepared-query-id responses *)
        modify (fun p => emit (ParseReply data)
                  (set_preparedQueries (CassandraParseReply (preparedQueries p) data) p));;
        ret None
      else
        p ← get;
        let '(pq, paths, err) := CassandraParseRequest (preparedQueries p) data in
        modify (fun p => emit (ParseRequest data) (set_preparedQueries pq p));;
        match err with
        | Some e => ret (Some e)
        | None =>
            match paths with
            | [] => ret (Some "length 0 request")
            | [path] => mirrorPath data path
            | _ => ret None      (* batch statements are not handled *)
            end
        end
  | _ => panic                   (* [data[1]] is out of range *)
  end.

(** What [forward] does with a frame once [dst.Write] has accepted it;
    [remote] is [dst.RemoteAddr().String()]. *)
Definition forwarded (remote : string) (query : list byte) : M unit :=
  p ← get;
  (if String.eqb remote (sourceHostString p)
   then (_ ← mirrorData query; ret tt)     (* the error is logged only *)
   else ret tt);;
  incrementPackets.

(** *** Counting connections to the origin *)

Definition incrementSources : M unit := locked (fun p =>
  Ret tt (set_connectionsToSource (connectionsToSource p + 1) p)).

(** The send on [ReadyForRedirect] is made with [p.lock] held; when nobody
    receives, the goroutine stays blocked and the lock stays taken. *)
Definition decrementSources : M unit := locked (fun p =>
  let p1 := set_connectionsToSource (connectionsToSource p - 1) p in
  if migrationComplete p1 && (connectionsToSource p1 =? 0) then
    if redirectTaken (redirects_in (log p1)) then Ret tt (emit (Redirect true) p1)
    else Park (emit (Redirect false) (set_lock true p1))
  else Ret tt p1).

(** [handleDatabaseConnection], up to [net.Dial]: the upstream host. *)
Definition pickHost (p : CQLProxy) : string :=
  if migrationComplete p then astraHostString p else sourceHostString p.

(** [handleDatabaseConnection], once [net.Dial] has succeeded. *)
Definition dialed (hostname : string) : M unit :=
  p ← get;
  if String.eqb hostname (sourceHostString p) then incrementSources else ret tt.

(** The deferred call of a [forward] that returns; [remote] is
    [dst.RemoteAddr().String()]. *)
Definition forwardReturns (remote : string) : M unit :=
  p ← get;
  if String.eqb remote (sourceHostString p) then decrementSources else ret tt.

(** *** [forward] *)

(** What follows an accepted write in [forward], and whether it came back. *)
Definition afterWrite (remote : string) (query : list byte) (p : CQLProxy)
  : CQLProxy * bool :=
  match forwarded remote query p with
  | Ret _ p' => (p', true)
  | Park p' => (p', false)
  | Panic p' => (p', false)
  end.

(** [forward(src, dst)] on a script of reads of [src]; [remote] is
    [dst.RemoteAddr().String()] and [dstWrite] the fate of the writes to
    [dst].  The host strings do not change after [reset], so the test that
    guards the deferred [decrementSources] is made at the return. *)
Definition forward (remote : string) (dstWrite : nat -> bool)
    (fuel : nat) (reads : list Demarshal.ReadResult) (s : Demarshal.Fwd) (p : CQLProxy)
  : Demarshal.Status * Demarshal.Fwd * CQLProxy :=
  Demarshal.pump dstWrite (afterWrite remote)
    (fun p => state_of (forwardReturns remote p)) fuel reads s p.

(** *** The life of the process, as far as the counter is concerned *)

(** What can happen next, one goroutine at a time. *)
Inductive Event :=
  | Accepted                    (* a client connects; its handler picks the host and dials *)
  | Dialed (i : nat) (ok : bool) (* the [i]-th dial under way ends, well or not *)
  | Closed (remote : string)    (* a forwarder towards [remote] returns *)
  | Completed.                  (* [migrationLoop] receives on [MigrationCompleteChan] *)

Record Sys := mkSys {
  proxy : CQLProxy;
  dialling : list string;      (* hosts picked by handlers still inside [net.Dial] *)
}.

Definition step (s : Sys) (e : Event) : Sys :=
  match e with
  | Accepted => mkSys (proxy s) (dialling s ++ [pickHost (proxy s)])
  | Dialed i ok =>
      match dialling s !! i with
      | Some hostname =>
          if ok then mkSys (state_of (dialed hostname (proxy s))) (delete i (dialling s))
          else mkSys (proxy s) (delete i (dialling s))
      | None => s
      end
  | Closed remote => mkSys (state_of (forwardReturns remote (proxy s))) (dialling s)
  | Completed => mkSys (set_migrationComplete true (proxy s)) (dialling s)
  end.

Definition steps (s : Sys) (tr : list Event) : Sys := foldl step s tr.

(** Does [e], taken in [s], count a connection to the origin although the
    migration is already complete? *)
Definition counts_late (s : Sys) (e : Event) : bool :=
  match e with
  | Dialed i true =>
      match dialling s !! i with
      | Some hostname =>
          String.eqb hostname (sourceHostString (proxy s))
          && migrationComplete (proxy s) && negb (lock (proxy s))
      | None => false
      end
  | _ => false
  end.

Fixpoint late (s : Sys) (tr : list Event) : nat :=
  match tr with
  | [] => 0
  | e :: tr' => ((if counts_late s e then 1 else 0) + late (step s e) tr')%nat
  end.

(** [reset], on a proxy whose other fields have their zero values;
    [complete] is the flag [migrationLoop] then reads from the environment. *)
Definition reset (source astra : string) (complete : bool) (pq : PreparedQueries) : CQLProxy :=
  mkProxy source astra ∅ ∅ ∅ ∅ false complete None 0 "" (mkMetrics 0 0 0 0 0) pq [].

(** [loadMigrationInfo], without its send on [ReadyChan] and the [ready]
    flag: every keyspace of the status gets fresh inner maps, every table a
    channel and a mutex. *)
Definition loadMigrationInfo (status : migration.Tables) (p : CQLProxy) : CQLProxy :=
  set_migrationStatus (Some status)
    (set_tablePaused (((fun _ => (∅ : gmap string bool)) <$> status) ∪ tablePaused p)
       (set_queueSizes (((fun _ => (∅ : gmap string Z)) <$> status) ∪ queueSizes p)
          (set_queueLocks
             (((fun tables : gmap string migration.Table => (fun _ => false) <$> tables)
                 <$> status) ∪ queueLocks p)
             (set_queues
                (((fun tables : gmap string migration.Table =>
                     (fun _ => @nil Query) <$> tables) <$> status) ∪ queues p) p)))).

(** The handlers of the write-class statements, with the query type each
    gives its [Query]. *)
Definition writeClassHandlers
  : list (QueryType * (list byte -> string -> string -> M error)) :=
  [(UPDATE, handleUpdateQuery); (DELETE, handleDeleteQuery);
   (TRUNCATE, handleTruncateQuery)].

End Proxy.

(** Whether connections to the origin are still counted, and a bound on the
    sends on [ReadyForRedirect] a state can end up with when no connection to
    the origin is counted late. *)
Definition busy {PQ} (p : CQLProxy (PreparedQueries := PQ)) : nat :=
  if 0 <? connectionsToSource p then 1%nat else 0%nat.

Definition allowance {PQ} (p : CQLProxy (PreparedQueries := PQ)) : nat :=
  if migrationComplete p then (redirects_in (log p) + busy p)%nat
  else S (redirects_in (log p)).

(** [m] only adds effects that satisfy [P] to the log. *)
Definition adds {PQ A} (P : Effect -> Prop) (m : M (PreparedQueries := PQ) A) : Prop :=
  forall p, exists l, log (state_of (m p)) = log p ++ l /\ Forall P l.

(** An effect that is not a call of the parser. *)
Definition quiet (e : Effect) : Prop := is_parse e = false.

(** ** More of the proxy *)

(** Two readings of [m[ks][tn]] that Go could tell apart only by the second
    result of the lookup agree up to [R] on their values. *)
Definition both2 {V} (R : V -> V -> Prop) (m m' : gmap string (gmap string V)) : Prop :=
  forall ks tn,
    match m !! ks, m' !! ks with
    | Some inner, Some inner' =>
        match inner !! tn, inner' !! tn with
        | Some v, Some v' => R v v'
        | None, None => True
        | _, _ => False
        end
    | None, None => True
    | _, _ => False
    end.

(** How the mirror path may change a proxy: it leaves the host strings,
    [p.lock], the completion flag, the migration status, the count of origin
    connections and every metric but [Reads] alone; queues keep their keys and
    only grow at the tail, never past [queueSize] if they were within it;
    latches keep their keys and a held latch stays held; a pause flag that is
    set stays set; a keyspace that has its map of queue sizes keeps one; the
    log only grows. *)
Definition mirror_only {PQ} (p p' : CQLProxy (PreparedQueries := PQ)) : Prop :=
  sourceHostString p' = sourceHostString p /\
  astraHostString p' = astraHostString p /\
  lock p' = lock p /\
  migrationComplete p' = migrationComplete p /\
  migrationStatus p' = migrationStatus p /\
  connectionsToSource p' = connectionsToSource p /\
  (PacketCount (metrics p') = PacketCount (metrics p) /\
   Writes (metrics p') = Writes (metrics p) /\
   WriteFails (metrics p') = WriteFails (metrics p) /\
   ReadFails (metrics p') = ReadFails (metrics p) /\
   Reads (metrics p) <= Reads (metrics p')) /\
  both2 (fun q q' => q `prefix_of` q' /\ (len q <= queueSize -> len q' <= queueSize))
    (queues p) (queues p') /\
  both2 (fun held held' => held = true -> held' = true) (queueLocks p) (queueLocks p') /\
  (forall ks tn, paused ks tn p = true -> paused ks tn p' = true) /\
  (forall ks, is_Some (queueSizes p !! ks) -> is_Some (queueSizes p' !! ks)) /\
  log p `prefix_of` log p'.

(** How a forwarder may change a proxy from its start to its return: like
    [mirror_only] for the host strings, the completion flag, the migration
    status, the queues, the latches and the pause flags, and for the metrics
    [Writes], [WriteFails] and [ReadFails]. *)
Definition forward_only {PQ} (p p' : CQLProxy (PreparedQueries := PQ)) : Prop :=
  sourceHostString p' = sourceHostString p /\
  astraHostString p' = astraHostString p /\
  migrationComplete p' = migrationComplete p /\
  migrationStatus p' = migrationStatus p /\
  (Writes (metrics p') = Writes (metrics p) /\
   WriteFails (metrics p') = WriteFails (metrics p) /\
   ReadFails (metrics p') = ReadFails (metrics p)) /\
  both2 (fun q q' => q `prefix_of` q' /\ (len q <= queueSize -> len q' <= queueSize))
    (queues p) (queues p') /\
  both2 (fun held held' => held = true -> held' = true) (queueLocks p) (queueLocks p') /\
  (forall ks tn, paused ks tn p = true -> paused ks tn p' = true).

(** Every call of [m] changes the proxy within [R]. *)
Definition evolves {PQ A} (R : CQLProxy (PreparedQueries := PQ) -> CQLProxy (PreparedQueries := PQ) -> Prop)
    (m : M (PreparedQueries := PQ) A) : Prop :=
  forall p, R p (state_of (m p)).

Arguments CQLProxy : clear implicits.
Arguments Sys : clear implicits.
Arguments Outcome : clear implicits.
Arguments M : clear implicits.
Arguments Ret {PreparedQueries A}.
Arguments Park {PreparedQueries A}.
Arguments Panic {PreparedQueries A}.

(** ** Updates from the migration service *)

(** The [TableUpdate] case of [handleUpdate], on the table its request
    decodes to: [p.migrationStatus.Tables[table.Keyspace][table.Name] = &table].
    [p.migrationStatus] is the nil pointer until [loadMigrationInfo] has
    run, and the inner map of a keyspace the status does not have is the nil
    map; Go panics on both.  The lock of the status is held for the
    assignment only. *)
Definition handleUpdate_TableUpdate {PQ} (table : migration.Table) : M PQ error := fun p =>
  match migrationStatus p with
  | Some tables =>
      match put2 tables (migration.Keyspace table) (migration.Name table) table with
      | Some tables' => Ret None (set_migrationStatus (Some tables') p)
      | None => Panic p
      end
  | None => Panic p
  end.

(** ** The statements [mirrorData] files under a table *)

(** The cases of the switch on the action in [mirrorData] that take a
    keyspace and a table, with their handlers. *)
Definition actionHandlers {PQ} (LoadingDataComplete : migration.Step)
  : list (string * (list byte -> string -> string -> M PQ error)) :=
  [("insert"%string, handleInsertQuery);
   ("update"%string, handleUpdateQuery LoadingDataComplete);
   ("delete"%string, handleDeleteQuery LoadingDataComplete);
   ("truncate"%string, handleTruncateQuery LoadingDataComplete)].

(** ** The consumer of a table *)

(** [n] turns of the loop of [consumeQueue]. *)
Fixpoint consumeTurns {PQ} (astraWrite : nat -> bool) (n : nat) (ks tn : string) : M PQ unit :=
  match n with
  | O => ret tt
  | S n' => bind (consumeQueue astraWrite ks tn) (fun _ => consumeTurns astraWrite n' ks tn)
  end.

(** The payloads handed to [p.astraSession.Write], every attempt counted. *)
Fixpoint payloads (l : list Effect) : list (list byte) :=
  match l with
  | [] => []
  | TargetWrite b _ :: l' => b :: payloads l'
  | _ :: l' => payloads l'
  end.

(** ** The environment *)

(** [strconv.ParseBool]: the value and whether the string was accepted
    ([err == nil]). *)
Definition ParseBool (str : string) : bool * bool :=
  if String.eqb str "1" || String.eqb str "t" || String.eqb str "T"
     || String.eqb str "TRUE" || String.eqb str "true" || String.eqb str "True"
  then (true, true)
  else if String.eqb str "0" || String.eqb str "f" || String.eqb str "F"
     || String.eqb str "FALSE" || String.eqb str "false" || String.eqb str "False"
  then (false, true)
  else (false, false).

(** The spellings [strconv.ParseBool] accepts for [b]. *)
Definition literals (b : bool) : list string :=
  if b then ["1"; "t"; "T"; "TRUE"; "true"; "True"]
  else ["0"; "f"; "F"; "FALSE"; "false"; "False"].

Module env.

(** The process environment; [os.LookupEnv] is the lookup and [os.Getenv]
    reads an unset variable as the empty string. *)
Definition Environ := gmap string string.

Definition LookupEnv (e : Environ) (key : string) : option string := e !! key.
Definition Getenv (e : Environ) (key : string) : string := default EmptyString (e !! key).

Definition getEnvironmentVariableOrDefault (e : Environ) (key defaultValue : string) : string :=
  match LookupEnv e key with
  | Some value => value
  | None => defaultValue
  end.

Definition getEnvironmentVariableBoolOrDefault (e : Environ) (key : string) (defaultValue : bool)
  : bool :=
  match LookupEnv e key with
  | Some value =>
      let '(result, ok) := ParseBool value in
      if negb ok then defaultValue else result
  | None => defaultValue
  end.

End env.

(** The head of [migrationLoop]: the completion flag is read from the
    variable [migration_complete]. *)
Definition migrationLoop_init {PQ} (e : env.Environ) : M PQ unit :=
  let envVar := env.Getenv e "migration_complete" in
  let '(status, ok) := ParseBool envVar in
  modify (set_migrationComplete (status && ok)).

(** ** Sample inputs and states *)

(** A frame header that claims a body of 268435457 bytes. *)
Definition oversize_header : list byte :=
  [x04; x00; x00; x01; x07; x10; x00; x00; x01].

(** Two frames and the first byte of a third, cut across three reads. *)
Definition sample_reads : list Demarshal.ReadResult :=
  [Demarshal.RdData [x04; x00; x00; x01; x07; x00; x00];
   Demarshal.RdData [x00; x02; x61; x62; x04; x00];
   Demarshal.RdData [x00; x02; x05; x00; x00; x00; x00; x04]].

(** The keyspace token [Ks] in double quotes. *)
Definition quoted_Ks : string := String quote ("Ks" +:+ String quote "").

Definition sample_table (step : migration.Step) : migration.Table :=
  migration.mkTable "ks1" "t1" step.

Definition sample_status (step : migration.Step) : migration.Tables :=
  {["ks1" := {["t1" := sample_table step]}]}.

(** A proxy after [reset] and the Start update for the one table [ks1.t1]. *)
Definition sample_proxy (step : migration.Step) : CQLProxy unit :=
  loadMigrationInfo (sample_status step) (reset "origin:9042" "astra:9042" false tt).

Definition sample_query : Query :=
  mkQuery (Some (sample_table 0)) INSERT [x04; x00; x00; x01; x07; x00; x00; x00; x00].

(** The same proxy with [sample_query] waiting in the queue of [ks1.t1]. *)
Definition sample_backlog : CQLProxy unit :=
  set_queueSizes {["ks1" := {["t1" := 1]}]}
    (set_queues {["ks1" := {["t1" := [sample_query]]}]} (sample_proxy 0)).

(** An UPDATE for the same table, and the proxy with an INSERT and the
    UPDATE waiting in this order. *)
Definition sample_update : Query :=
  mkQuery (Some (sample_table 0)) UPDATE [x04; x00; x00; x02; x07; x00; x00; x00; x01; x2a].

Definition sample_backlog2 : CQLProxy unit :=
  set_queueSizes {["ks1" := {["t1" := 2]}]}
    (set_queues {["ks1" := {["t1" := [sample_query; sample_update]]}]} (sample_proxy 0)).

(** The target refuses the first three writes it is offered. *)
Definition flaky (n : nat) : bool := (3 <=? n)%nat.


(** Two clients connect while the migration runs; the second is still inside
    [net.Dial] when the migration completes and the first disconnects. *)
Definition late_dial_trace : list Event :=
  [Accepted; Dialed 0 true; Accepted; Completed; Closed "origin:9042";
   Dialed 0 true; Closed "origin:9042"].

Definition sample_sys : Sys unit :=
  mkSys (reset "origin:9042" "astra:9042" false tt) [].


(** A request frame whose first byte is 0x80, and a parser that knows no
    statement. *)
Definition frame_0x80 : list byte :=
  [x80; x00; x00; x01; x07; x00; x00; x00; x00].

Definition deaf_request (pq : unit) (data : list byte) : unit * list string * error :=
  (pq, [], Some "not a request"%string).

Definition deaf_reply (pq : unit) (data : list byte) : unit := pq.

(** * Part II: theorems *)

Import Demarshal.

Lemma byte_val_nonneg b : 0 <= byte_val b.
Proof. unfold byte_val. lia. Qed.

Lemma Uint32_nonneg b : 0 <= Uint32 b.
Proof.
  unfold Uint32.
  repeat (apply Z.lor_nonneg; split);
    try (apply Z.shiftl_nonneg); apply byte_val_nonneg.
Qed.

(** The header of a buffer is not changed by what follows its ninth byte. *)
Lemma slice_header_app (d e : list byte) :
  9 <= len d -> slice 5 9 (d ++ e) = slice 5 9 d.
Proof.
  unfold slice, len. intros H.
  change (Z.to_nat (9 - 5)) with 4%nat. change (Z.to_nat 5) with 5%nat.
  rewrite !take_drop_commute.
  f_equal. rewrite take_app_le by lia. reflexivity.
Qed.

Lemma slice_header_take (d : list byte) n :
  (9 <= n)%nat -> slice 5 9 (take n d) = slice 5 9 d.
Proof.
  unfold slice. intros H.
  change (Z.to_nat (9 - 5)) with 4%nat. change (Z.to_nat 5) with 5%nat.
  rewrite !take_drop_commute, take_take.
  do 2 f_equal. lia.
Qed.

Lemma peel_Some d q r :
  peel d = Some (q, r) ->
  d = q ++ r /\ framed q /\ 9 <= len q.
Proof.
  unfold peel, cassHdrLen, cassMaxLen, framed, len.
  pose proof (Uint32_nonneg (slice 5 9 d)) as Hnn.
  destruct (Z.ltb_spec (Z.of_nat (length d)) 9) as [|Hhdr]; [discriminate|].
  destruct (Z.ltb_spec (Z.of_nat (length d)) (9 + Uint32 (slice 5 9 d))) as [|Hfull];
    [discriminate|].
  destruct (Z.of_nat (length d) >? 268435456); simpl; [discriminate|].
  intros [= <- <-].
  split; [symmetry; apply take_drop|].
  rewrite length_take, slice_header_take by lia.
  lia.
Qed.

Lemma peel_shrinks d q r : peel d = Some (q, r) -> (length r < length d)%nat.
Proof.
  intros H. apply peel_Some in H as (-> & _ & Hq).
  unfold len in Hq. rewrite length_app. lia.
Qed.

Lemma peel_oversize d :
  9 <= len d -> cassMaxLen < Uint32 (slice 5 9 d) -> peel d = None.
Proof.
  unfold peel, cassHdrLen. intros Hhdr Hbig.
  destruct (Z.ltb_spec (len d) 9); [done|].
  destruct (Z.ltb_spec (len d) (9 + Uint32 (slice 5 9 d))); [done|].
  destruct (Z.gtb_spec (len d) cassMaxLen); [done|lia].
Qed.

Section ForwardFacts.

Context {P : Type}.
Variable dstWrite : nat -> bool.
Variable afterWrite : list byte -> P -> P * bool.
Variable atReturn : P -> P.

Let drain := drain dstWrite afterWrite.
Let pump := pump dstWrite afterWrite atReturn.

Lemma drain_status fuel : forall s p, (drain fuel s p).1.1 <> Returned.
Proof.
  induction fuel as [|fuel IH]; intros s p; simpl; [discriminate|].
  destruct (peel (data s)) as [[q r]|]; [|discriminate].
  destruct (dstWrite (nwrites s)); [|apply IH].
  destruct (afterWrite q p) as [p1 [|]]; [apply IH|discriminate].
Qed.

(** The inner loop: the frames written stay well delimited and in step with
    the buffer. *)
Lemma drain_safe fuel : forall s p st s' p',
  drain fuel s p = (st, s', p') ->
  Forall framed (out s) ->
  Forall framed (out s') /\
  concat (out s') `prefix_of` concat (out s) ++ data s /\
  (st <> Parked -> concat (out s') ++ data s' = concat (out s) ++ data s).
Proof.
  induction fuel as [|fuel IH]; intros s p st s' p' Hrun Hfr; simpl in Hrun.
  - injection Hrun as <- <- <-. split; [done|]. split; [by apply prefix_app_r|done].
  - destruct (peel (data s)) as [[q r]|] eqn:Hpeel.
    2:{ injection Hrun as <- <- <-. split; [done|]. split; [by apply prefix_app_r|done]. }
    apply peel_Some in Hpeel as (Hd & Hq & _).
    assert (Hcat : concat (out s ++ [q]) ++ r = concat (out s) ++ data s).
    { rewrite concat_app, Hd. simpl. rewrite app_nil_r, <- app_assoc. reflexivity. }
    assert (Hfr' : Forall framed (out s ++ [q])).
    { apply Forall_app. split; [done|]. by constructor. }
    destruct (dstWrite (nwrites s)).
    + destruct (afterWrite q p) as [p1 [|]].
      * apply IH in Hrun; [|done]. simpl in Hrun. by rewrite Hcat in Hrun.
      * injection Hrun as <- <- <-. simpl. split; [done|]. split; [|done].
        rewrite <- Hcat. by apply prefix_app_r.
    + apply IH in Hrun; done.
Qed.

Lemma pump_safe fuel reads : forall s p st s' p',
  pump fuel reads s p = (st, s', p') ->
  Forall framed (out s) ->
  Forall framed (out s') /\
  concat (out s') `prefix_of` concat (out s) ++ data s ++ delivered reads /\
  (st = AwaitRead \/ st = Returned ->
   concat (out s') ++ data s' = concat (out s) ++ data s ++ delivered reads).
Proof.
  induction reads as [|[chunk|] reads IH]; intros s p st s' p' Hrun Hfr; simpl in Hrun.
  - injection Hrun as <- <- <-. simpl. rewrite app_nil_r.
    split; [done|]. split; [by apply prefix_app_r|done].
  - destruct (Demarshal.drain _ _ fuel _ p) as [[st1 s1] p1] eqn:Hdr.
    pose proof (drain_status fuel (mkFwd (data s ++ chunk) (out s) (nwrites s)) p) as Hst.
    pose proof (drain_safe _ _ _ _ _ _ Hdr Hfr) as (Hfr1 & Hpre1 & Heq1).
    unfold drain in Hst. rewrite Hdr in Hst. simpl in *.
    assert (Hstuck : st1 <> AwaitRead -> (st1, s1, p1) = (st, s', p') ->
              Forall framed (out s') /\
              concat (out s') `prefix_of` concat (out s) ++ data s ++ chunk ++ delivered reads /\
              (st = AwaitRead \/ st = Returned ->
               concat (out s') ++ data s' =
               concat (out s) ++ data s ++ chunk ++ delivered reads)).
    { intros Hne [= <- <- <-]. split; [done|]. split; [|intros [|]; congruence].
      replace (concat (out s) ++ data s ++ chunk ++ delivered reads)
        with ((concat (out s) ++ data s ++ chunk) ++ delivered reads)
        by (by rewrite <- !app_assoc).
      by apply prefix_app_r. }
    destruct st1; try (apply Hstuck; [discriminate|done]).
    apply IH in Hrun as (A & B & C); [|done].
    specialize (Heq1 ltac:(discriminate)).
    rewrite (app_assoc (concat (out s1)) (data s1)), Heq1, <- !app_assoc in B, C.
    done.
  - injection Hrun as <- <- <-. simpl. rewrite app_nil_r.
    split; [done|]. split; [by apply prefix_app_r|done].
Qed.

Lemma drain_buffer fuel : forall s p,
  (length (data (drain fuel s p).1.2) <= length (data s))%nat.
Proof.
  induction fuel as [|fuel IH]; intros s p; simpl; [lia|].
  destruct (peel (data s)) as [[q r]|] eqn:Hpeel; [|simpl; lia].
  apply peel_shrinks in Hpeel.
  destruct (dstWrite (nwrites s)); [|etransitivity; [apply IH|done]].
  destruct (afterWrite q p) as [p1 [|]]; [|simpl; lia].
  etransitivity; [apply IH|]. simpl. lia.
Qed.

(** A buffered header that claims more than 256 MiB stops the forwarder for
    good: later reads are only appended. *)
Lemma pump_oversize fuel chunks : forall s p,
  9 <= len (data s) ->
  cassMaxLen < Uint32 (slice 5 9 (data s)) ->
  (0 < fuel)%nat ->
  pump fuel (map RdData chunks) s p
  = (AwaitRead, mkFwd (data s ++ concat chunks) (out s) (nwrites s), p).
Proof.
  induction chunks as [|c chunks IH]; intros [d o n] p Hhdr Hbig Hfuel; simpl in *.
  - by rewrite app_nil_r.
  - assert (Hhdr' : 9 <= len (d ++ c)) by (unfold len in *; rewrite length_app; lia).
    destruct fuel as [|fuel]; [lia|]. simpl.
    rewrite peel_oversize by (by rewrite ?slice_header_app).
    rewrite IH; simpl; rewrite ?slice_header_app; try done.
    by rewrite <- app_assoc.
Qed.

(** When every write is accepted and the work after a write comes back (in
    every state that satisfies an invariant [I] it preserves), the inner loop
    leaves through [break] after at most one turn per buffered byte. *)
Variable I : P -> Prop.
Hypothesis writes_ok : forall n, dstWrite n = true.
Hypothesis comes_back : forall q p, I p -> (afterWrite q p).2 = true /\ I (afterWrite q p).1.

Lemma drain_breaks fuel : forall s p,
  I p -> (length (data s) < fuel)%nat ->
  (drain fuel s p).1.1 = AwaitRead /\ I (drain fuel s p).2.
Proof.
  induction fuel as [|fuel IH]; intros s p Hp Hlt; [lia|]. simpl.
  destruct (peel (data s)) as [[q r]|] eqn:Hpeel; [|done].
  rewrite writes_ok. destruct (comes_back q p Hp) as [Hb Hi].
  destruct (afterWrite q p) as [p1 back]. simpl in Hb, Hi. subst back.
  apply IH; [done|]. simpl. apply peel_shrinks in Hpeel. lia.
Qed.

Lemma pump_runs fuel reads : forall s p,
  I p -> (length (data s) + length (delivered reads) < fuel)%nat ->
  (pump fuel reads s p).1.1 = AwaitRead \/ (pump fuel reads s p).1.1 = Returned.
Proof.
  induction reads as [|[chunk|] reads IH]; intros s p Hp Hlt; simpl;
    [by left| |by right].
  simpl in Hlt. rewrite length_app in Hlt.
  pose proof (drain_breaks fuel (mkFwd (data s ++ chunk) (out s) (nwrites s)) p Hp) as Hbr.
  pose proof (drain_buffer fuel (mkFwd (data s ++ chunk) (out s) (nwrites s)) p) as Hle.
  unfold drain in Hbr, Hle.
  destruct (Demarshal.drain _ _ fuel _ p) as [[st1 s1] p1] eqn:Hdr.
  simpl in Hbr, Hle. rewrite length_app in Hbr, Hle.
  destruct Hbr as [-> Hp1]; [lia|].
  apply IH; [done|lia].
Qed.

End ForwardFacts.

Section ForwardClaims.

Context {PQ : Type}.
Variable CassandraParseReply : PQ -> list byte -> PQ.
Variable CassandraParseRequest : PQ -> list byte -> PQ * list string * error.
Variable UnknownPreparedQueryPath : string.
Variable ToLower : string -> string.
Variable LoadingDataComplete : migration.Step.
Variable astraWrite : nat -> bool.
Variable redirectTaken : nat -> bool.

Let forward :=
  forward CassandraParseReply CassandraParseRequest UnknownPreparedQueryPath
    ToLower LoadingDataComplete astraWrite redirectTaken.

(** Towards a destination that is not the origin nothing is mirrored: the
    work after a write is the packet count and always comes back. *)
Lemma afterWrite_unmirrored remote query (p : CQLProxy PQ) :
  String.eqb remote (sourceHostString p) = false ->
  let r := afterWrite CassandraParseReply CassandraParseRequest
             UnknownPreparedQueryPath ToLower LoadingDataComplete astraWrite
             remote query p in
  r.2 = true /\ sourceHostString r.1 = sourceHostString p.
Proof.
  intros Hne. unfold afterWrite, forwarded, mbind, M_bind, bind, get.
  rewrite Hne. done.
Qed.

Lemma forward_safe remote dstWrite fuel reads s (p : CQLProxy PQ) :
  let r := forward remote dstWrite fuel reads s p in
  Forall framed (out s) ->
  Forall framed (out r.1.2) /\
  concat (out r.1.2) `prefix_of` concat (out s) ++ data s ++ delivered reads /\
  (r.1.1 = AwaitRead \/ r.1.1 = Returned ->
   concat (out r.1.2) ++ data r.1.2 = concat (out s) ++ data s ++ delivered reads).
Proof.
  intros r Hfr. subst r.
  destruct (forward remote dstWrite fuel reads s p) as [[st s'] p'] eqn:Hrun.
  simpl. eapply pump_safe; [exact Hrun|exact Hfr].
Qed.

Lemma forward_runs remote dstWrite fuel reads s (p : CQLProxy PQ) :
  (forall n, dstWrite n = true) ->
  String.eqb remote (sourceHostString p) = false ->
  (length (data s) + length (delivered reads) < fuel)%nat ->
  (forward remote dstWrite fuel reads s p).1.1 = AwaitRead \/
  (forward remote dstWrite fuel reads s p).1.1 = Returned.
Proof.
  intros Hw Hne Hlt.
  apply (pump_runs _ _ _ (fun p' => sourceHostString p' = sourceHostString p));
    [done| |done|done].
  intros q p' Hp'.
  destruct (afterWrite_unmirrored remote q p') as [H1 H2]; [by rewrite Hp'|].
  split; [done|congruence].
Qed.

Lemma forward_oversize remote dstWrite fuel chunks s (p : CQLProxy PQ) :
  9 <= len (data s) ->
  cassMaxLen < Uint32 (slice 5 9 (data s)) ->
  (0 < fuel)%nat ->
  forward remote dstWrite fuel (map RdData chunks) s p
  = (AwaitRead, mkFwd (data s ++ concat chunks) (out s) (nwrites s), p).
Proof. apply pump_oversize. Qed.

End ForwardClaims.

(** ** Nothing is withheld *)

(** When the guards of the inner loop say [break], the buffer holds no whole
    frame, or it holds more than 256 MiB. *)
Lemma peel_None d : peel d = None -> partial d \/ cassMaxLen < len d.
Proof.
  unfold peel, partial, cassHdrLen.
  destruct (Z.ltb_spec (len d) 9); [by left; left|].
  destruct (Z.ltb_spec (len d) (9 + Uint32 (slice 5 9 d))); [by left; right|].
  destruct (Z.gtb_spec (len d) cassMaxLen); [by right|done].
Qed.

Lemma framed_header f : framed f -> 9 <= len f.
Proof. unfold framed. pose proof (Uint32_nonneg (slice 5 9 f)). lia. Qed.

(** A buffer that starts with a whole frame is not partial. *)
Lemma framed_not_partial f rest : framed f -> ~ partial (f ++ rest).
Proof.
  intros Hf. pose proof (framed_header f Hf) as H9. unfold partial, framed in *.
  rewrite slice_header_app by done.
  unfold len in *. rewrite length_app. lia.
Qed.

(** Two streams that start with a whole frame each and agree start with the
    same frame. *)
Lemma framed_app_inj f g x y :
  framed f -> framed g -> f ++ x = g ++ y -> f = g /\ x = y.
Proof.
  intros Hf Hg Heq.
  pose proof (framed_header f Hf) as Hf9. pose proof (framed_header g Hg) as Hg9.
  assert (Hh : slice 5 9 f = slice 5 9 g).
  { rewrite <- (slice_header_app f x), <- (slice_header_app g y) by done.
    by rewrite Heq. }
  apply app_inj_1; [|done]. unfold framed, len in *. rewrite Hh in Hf. lia.
Qed.

(** A byte stream is cut into whole frames and a partial rest in one way
    only. *)
Lemma framing_unique out : forall buf frames tail,
  Forall framed out -> Forall framed frames -> partial buf -> partial tail ->
  concat out ++ buf = concat frames ++ tail ->
  out = frames /\ buf = tail.
Proof.
  induction out as [|o out IH]; intros buf [|f frames] tail Ho Hf Hb Ht Heq; simpl in *.
  - done.
  - inversion Hf as [|? ? Hf1 _]; subst. rewrite <- app_assoc in Hb.
    by apply framed_not_partial in Hb.
  - inversion Ho as [|? ? Ho1 _]; subst. rewrite <- app_assoc in Ht.
    by apply framed_not_partial in Ht.
  - inversion Ho as [|? ? Ho1 Ho2]; inversion Hf as [|? ? Hf1 Hf2]; subst.
    rewrite <- !app_assoc in Heq.
    apply framed_app_inj in Heq as [-> Heq]; [|done..].
    destruct (IH buf frames tail Ho2 Hf2 Hb Ht Heq) as [-> ->]. done.
Qed.

Section ForwardExact.

Context {P : Type}.
Variable dstWrite : nat -> bool.
Variable afterWrite : list byte -> P -> P * bool.
Variable atReturn : P -> P.

Let drain := drain dstWrite afterWrite.
Let pump := pump dstWrite afterWrite atReturn.

(** The inner loop goes back to [src.Read] through [break] only. *)
Lemma drain_await fuel : forall s p s' p',
  drain fuel s p = (AwaitRead, s', p') -> peel (data s') = None.
Proof.
  induction fuel as [|fuel IH]; intros s p s' p' H; simpl in H; [discriminate|].
  destruct (peel (data s)) as [[q r]|] eqn:Hp.
  - destruct (dstWrite _); [|by eapply IH].
    destruct (afterWrite q p) as [p1 [|]]; [by eapply IH|discriminate].
  - by injection H as <- <-.
Qed.

Lemma pump_await fuel reads : forall s p st s' p',
  pump fuel reads s p = (st, s', p') -> st = AwaitRead \/ st = Returned ->
  partial (data s) \/ cassMaxLen < len (data s) ->
  partial (data s') \/ cassMaxLen < len (data s').
Proof.
  induction reads as [|[chunk|] reads IH]; intros s p st s' p' H Hst Hs; simpl in H.
  - by injection H as <- <- <-.
  - pose proof (drain_status dstWrite afterWrite fuel
                  (mkFwd (data s ++ chunk) (out s) (nwrites s)) p) as Hne.
    destruct (Demarshal.drain _ _ fuel _ p) as [[st1 s1] p1] eqn:Hd. simpl in Hne.
    destruct st1; try done;
      try (injection H as <- <- <-; destruct Hst; discriminate).
    eapply IH; [exact H|done|]. apply peel_None. by eapply drain_await.
  - by injection H as <- <- <-.
Qed.

(** With every write accepted the inner loop does not spin: it leaves
    through [break], unless the work after a write did not come back. *)
Hypothesis writes_ok : forall n, dstWrite n = true.

Lemma drain_progress fuel : forall s p,
  (length (data s) < fuel)%nat ->
  let r := drain fuel s p in
  r.1.1 = AwaitRead \/
  (r.1.1 = Parked /\
   exists q p0, last (out r.1.2) = Some q /\ afterWrite q p0 = (r.2, false)).
Proof.
  induction fuel as [|fuel IH]; intros s p Hlt; [lia|]. simpl.
  destruct (peel (data s)) as [[q r]|] eqn:Hp; [|by left].
  rewrite writes_ok. destruct (afterWrite q p) as [p1 [|]] eqn:Ha.
  - apply IH. simpl. apply peel_shrinks in Hp. lia.
  - right. split; [done|]. exists q, p. simpl. split; [apply last_snoc|done].
Qed.

Lemma pump_progress fuel reads : forall s p,
  (length (data s) + length (delivered reads) < fuel)%nat ->
  let r := pump fuel reads s p in
  r.1.1 = AwaitRead \/ r.1.1 = Returned \/
  (r.1.1 = Parked /\
   exists q p0, last (out r.1.2) = Some q /\ afterWrite q p0 = (r.2, false)).
Proof.
  induction reads as [|[chunk|] reads IH]; intros s p Hlt; simpl;
    [by left| |by right; left].
  simpl in Hlt. rewrite length_app in Hlt.
  pose proof (drain_progress fuel (mkFwd (data s ++ chunk) (out s) (nwrites s)) p) as Hpr.
  pose proof (drain_buffer dstWrite afterWrite fuel
                (mkFwd (data s ++ chunk) (out s) (nwrites s)) p) as Hle.
  unfold drain in Hpr.
  destruct (Demarshal.drain _ _ fuel _ p) as [[st1 s1] p1] eqn:Hd.
  simpl in Hpr, Hle. rewrite length_app in Hpr, Hle.
  destruct Hpr as [->|[-> Hpk]]; [lia| |].
  - apply IH. lia.
  - right; right. by split.
Qed.

End ForwardExact.

(** The work after a write fails to come back only towards the origin, when
    the mirror of the frame blocks or panics. *)
Lemma afterWrite_stuck {PQ : Type}
    (CassandraParseReply : PQ -> list byte -> PQ)
    (CassandraParseRequest : PQ -> list byte -> PQ * list string * error)
    (UnknownPreparedQueryPath : string) (ToLower : string -> string)
    (LoadingDataComplete : migration.Step) (astraWrite : nat -> bool)
    remote q (p0 p' : CQLProxy PQ) :
  afterWrite CassandraParseReply CassandraParseRequest UnknownPreparedQueryPath
    ToLower LoadingDataComplete astraWrite remote q p0 = (p', false) ->
  String.eqb remote (sourceHostString p0) = true /\
  (forall e p1, mirrorData CassandraParseReply CassandraParseRequest
                  UnknownPreparedQueryPath ToLower LoadingDataComplete astraWrite q p0
                <> Ret e p1) /\
  state_of (mirrorData CassandraParseReply CassandraParseRequest
              UnknownPreparedQueryPath ToLower LoadingDataComplete astraWrite q p0) = p'.
Proof.
  unfold afterWrite, forwarded, mbind, M_bind, bind, get.
  destruct (String.eqb remote (sourceHostString p0)); [|discriminate].
  destruct (mirrorData _ _ _ _ _ _ q p0) as [e p1|p1|p1]; cbn; [discriminate| |];
    intros [= <-]; done.
Qed.

(** C1 (frame alignment and transparency).  Whatever the reads deliver, and
    whatever the destination, the parser and the mirror path do, the frames
    [forward] has written to its destination are each exactly
    [9 + Uint32 (f[5:9])] bytes long and, concatenated in order, form a prefix
    of the delivered bytes: nothing is reordered, changed or written twice.
    Whenever the forwarder is back at [src.Read] or has returned, the written
    frames followed by the buffer are the delivered bytes, and nothing that
    could have been written is held back: the buffer holds no whole frame
    (or more than 256 MiB).  So when the delivered bytes, at most 256 MiB of
    them, are whole frames followed by a partial one, the frames written are
    exactly those frames and the buffer is exactly the partial one, however
    the reads cut the stream.  The forwarder does get there: with every
    write accepted, one unit of fuel per delivered byte is more than enough
    for it to be back at [src.Read] or to have returned, in either
    direction, unless the destination is the origin and the mirror of the
    last frame written did not come back. *)
Theorem forward_frames_aligned {PQ : Type}
    (CassandraParseReply : PQ -> list byte -> PQ)
    (CassandraParseRequest : PQ -> list byte -> PQ * list string * error)
    (UnknownPreparedQueryPath : string) (ToLower : string -> string)
    (LoadingDataComplete : migration.Step) (astraWrite redirectTaken : nat -> bool)
    (remote : string) (dstWrite : nat -> bool) (fuel : nat)
    (reads : list ReadResult) (p : CQLProxy PQ) :
  let mirror := mirrorData CassandraParseReply CassandraParseRequest
                  UnknownPreparedQueryPath ToLower LoadingDataComplete astraWrite in
  let r := forward CassandraParseReply CassandraParseRequest UnknownPreparedQueryPath
             ToLower LoadingDataComplete astraWrite redirectTaken
             remote dstWrite fuel reads start p in
  Forall framed (out r.1.2) /\
  concat (out r.1.2) `prefix_of` delivered reads /\
  (r.1.1 = AwaitRead \/ r.1.1 = Returned ->
   concat (out r.1.2) ++ data r.1.2 = delivered reads) /\
  ((forall n, dstWrite n = true) ->
   String.eqb remote (sourceHostString p) = false ->
   (length (delivered reads) < fuel)%nat ->
   r.1.1 = AwaitRead \/ r.1.1 = Returned) /\
  (r.1.1 = AwaitRead \/ r.1.1 = Returned ->
   partial (data r.1.2) \/ cassMaxLen < len (data r.1.2)) /\
  (forall frames tail,
     Forall framed frames -> partial tail ->
     delivered reads = concat frames ++ tail ->
     len (delivered reads) <= cassMaxLen ->
     r.1.1 = AwaitRead \/ r.1.1 = Returned ->
     out r.1.2 = frames /\ data r.1.2 = tail) /\
  ((forall n, dstWrite n = true) ->
   (length (delivered reads) < fuel)%nat ->
   r.1.1 = AwaitRead \/ r.1.1 = Returned \/
   (r.1.1 = Parked /\
    exists q p0, last (out r.1.2) = Some q /\
      String.eqb remote (sourceHostString p0) = true /\
      (forall e p1, mirror q p0 <> Ret e p1) /\
      state_of (mirror q p0) = r.2)).
Proof.
  intros mirror r.
  destruct (forward_safe CassandraParseReply CassandraParseRequest
              UnknownPreparedQueryPath ToLower LoadingDataComplete astraWrite
              redirectTaken remote dstWrite fuel reads start p)
    as (Hfr & Hpre & Heq); [constructor|].
  fold r in Hfr, Hpre, Heq. simpl in Hpre, Heq.
  assert (Hpart : r.1.1 = AwaitRead \/ r.1.1 = Returned ->
                  partial (data r.1.2) \/ cassMaxLen < len (data r.1.2)).
  { intros Hst. subst r. unfold forward in *.
    destruct (Demarshal.pump _ _ _ fuel reads start p) as [[st s'] p'] eqn:Hrun.
    eapply pump_await; [exact Hrun|exact Hst|]. left. left. reflexivity. }
  split; [exact Hfr|]. split; [exact Hpre|]. split; [exact Heq|].
  split; [intros Hw Hne Hlt; by apply forward_runs|].
  split; [exact Hpart|]. split.
  - intros frames tail Hframes Htail Hdel Hmax Hst.
    specialize (Heq Hst). destruct (Hpart Hst) as [Hp|Hbig].
    + apply framing_unique; try done. by rewrite Heq.
    + exfalso. assert (Hlen : len (data r.1.2) <= len (delivered reads)).
      { rewrite <- Heq. unfold len. rewrite length_app. lia. }
      lia.
  - intros Hw Hlt. subst r. unfold forward.
    destruct (pump_progress dstWrite
                (afterWrite CassandraParseReply CassandraParseRequest
                   UnknownPreparedQueryPath ToLower LoadingDataComplete astraWrite remote)
                (fun p0 => state_of (forwardReturns redirectTaken remote p0))
                Hw fuel reads start p) as [H|[H|[H (q & p0 & Hlast & Hafter)]]];
      [simpl; lia|by left|by right; left|].
    right; right. split; [exact H|]. exists q, p0. split; [exact Hlast|].
    by apply afterWrite_stuck in Hafter.
Qed.

(** Two frames (one with a two-byte body, one with an empty body) cut across
    three reads, followed by a lone byte of a third frame, on their way from
    the origin to a client, and on their way from a client to the origin
    with a parser that knows no statement: either way the two frames are
    written and the lone byte is kept. *)
Lemma forward_frames_aligned_witness :
  let ok := fun _ : nat => true in
  let frames := [[x04; x00; x00; x01; x07; x00; x00; x00; x02; x61; x62];
                 [x04; x00; x00; x02; x05; x00; x00; x00; x00]] in
  let run := fun remote : string =>
    forward deaf_reply deaf_request "unknown" asciiLower 5 ok ok
      remote ok 22 sample_reads start (sample_proxy 0) in
  (forall n, ok n = true) /\
  String.eqb "10.0.0.7:51234" (sourceHostString (sample_proxy 0)) = false /\
  (length (delivered sample_reads) < 22)%nat /\
  Forall framed frames /\
  partial [x04] /\
  delivered sample_reads = concat frames ++ [x04] /\
  len (delivered sample_reads) <= cassMaxLen /\
  (run "10.0.0.7:51234").1.1 = AwaitRead /\
  out (run "10.0.0.7:51234").1.2 = frames /\
  data (run "10.0.0.7:51234").1.2 = [x04] /\
  (run "origin:9042").1.1 = AwaitRead /\
  out (run "origin:9042").1.2 = frames /\
  data (run "origin:9042").1.2 = [x04].
Proof.
  intros ok frames run.
  assert (Hok : forall n, ok n = true) by reflexivity.
  assert (Hne : String.eqb "10.0.0.7:51234" (sourceHostString (sample_proxy 0)) = false)
    by reflexivity.
  assert (Hlt : (length (delivered sample_reads) < 22)%nat) by (vm_compute; lia).
  assert (Hfr : Forall framed frames) by (repeat constructor; vm_compute; reflexivity).
  assert (Hpt : partial [x04]) by (left; reflexivity).
  assert (Hdel : delivered sample_reads = concat frames ++ [x04]) by reflexivity.
  assert (Hmax : len (delivered sample_reads) <= cassMaxLen) by (vm_compute; discriminate).
  assert (Hst1 : (run "10.0.0.7:51234").1.1 = AwaitRead) by (vm_compute; reflexivity).
  assert (Hst2 : (run "origin:9042").1.1 = AwaitRead) by (vm_compute; reflexivity).
  pose proof (forward_frames_aligned deaf_reply deaf_request "unknown" asciiLower 5 ok ok
                "10.0.0.7:51234" ok 22 sample_reads (sample_proxy 0))
    as (_ & _ & _ & _ & _ & Hex1 & _).
  pose proof (forward_frames_aligned deaf_reply deaf_request "unknown" asciiLower 5 ok ok
                "origin:9042" ok 22 sample_reads (sample_proxy 0))
    as (_ & _ & _ & _ & _ & Hex2 & _).
  destruct (Hex1 frames [x04] Hfr Hpt Hdel Hmax (or_introl Hst1)) as [Ho1 Hd1].
  destruct (Hex2 frames [x04] Hfr Hpt Hdel Hmax (or_introl Hst2)) as [Ho2 Hd2].
  split; [exact Hok|]. split; [exact Hne|]. split; [exact Hlt|]. split; [exact Hfr|].
  split; [exact Hpt|]. split; [exact Hdel|]. split; [exact Hmax|].
  split; [exact Hst1|]. split; [exact Ho1|]. split; [exact Hd1|].
  split; [exact Hst2|]. split; [exact Ho2|exact Hd2].
Defined.

(** C2, on the code.  [forward] has the limit ([cassMaxLen], 256 MiB) but
    its guard, [len(data) > cassMaxLen], looks at the length of the buffer
    and not at the length the header claims, and its only effect is
    [break].  A buffered header that claims a body of more than 256 MiB is
    therefore never emitted, but no error is raised either and the forwarder
    is not ended: the inner loop leaves through [break], the forwarder goes
    back to [src.Read] with the proxy untouched, and every later read is
    appended to the buffer, which no later frame ever leaves. *)
Theorem oversize_header_stalls {PQ : Type}
    (CassandraParseReply : PQ -> list byte -> PQ)
    (CassandraParseRequest : PQ -> list byte -> PQ * list string * error)
    (UnknownPreparedQueryPath : string) (ToLower : string -> string)
    (LoadingDataComplete : migration.Step) (astraWrite redirectTaken : nat -> bool)
    (remote : string) (dstWrite : nat -> bool) (fuel : nat)
    (chunks : list (list byte)) (s : Fwd) (p : CQLProxy PQ) :
  9 <= len (data s) ->
  cassMaxLen < Uint32 (slice 5 9 (data s)) ->
  (0 < fuel)%nat ->
  forward CassandraParseReply CassandraParseRequest UnknownPreparedQueryPath
    ToLower LoadingDataComplete astraWrite redirectTaken
    remote dstWrite fuel (map RdData chunks) s p
  = (AwaitRead, mkFwd (data s ++ concat chunks) (out s) (nwrites s), p).
Proof. apply forward_oversize. Qed.

Lemma oversize_header_stalls_witness :
  let ok := fun _ : nat => true in
  9 <= len oversize_header /\
  cassMaxLen < Uint32 (slice 5 9 oversize_header) /\
  (0 < 1)%nat /\
  forward deaf_reply deaf_request "unknown" asciiLower 5 ok ok "origin:9042" ok 1
    (map RdData [[x00; x00]; [x00]]) (mkFwd oversize_header [] 0) (sample_proxy 0)
  = (AwaitRead, mkFwd (oversize_header ++ [x00; x00; x00]) [] 0, sample_proxy 0).
Proof.
  intros ok.
  assert (H1 : 9 <= len oversize_header) by (vm_compute; discriminate).
  assert (H2 : cassMaxLen < Uint32 (slice 5 9 oversize_header)) by (vm_compute; reflexivity).
  assert (H3 : (0 < 1)%nat) by lia.
  split; [exact H1|]. split; [exact H2|]. split; [exact H3|].
  exact (oversize_header_stalls deaf_reply deaf_request "unknown" asciiLower 5 ok ok
           "origin:9042" ok 1 [[x00; x00]; [x00]] (mkFwd oversize_header [] 0)
           (sample_proxy 0) H1 H2 H3).
Defined.

(** After reading a header that claims a body of 268435457 bytes the
    forwarder has not returned; it has emitted nothing and sits in
    [src.Read] with the header still buffered. *)
Lemma oversize_header_not_rejected :
  let ok := fun _ : nat => true in
  let r := forward deaf_reply deaf_request "unknown" asciiLower 5 ok ok "origin:9042" ok 1
             [RdData oversize_header] start (sample_proxy 0) in
  Uint32 (slice 5 9 oversize_header) = 268435457 /\
  r = (AwaitRead, mkFwd oversize_header [] 0, sample_proxy 0) /\
  r.1.1 <> Returned.
Proof. split; [reflexivity|]. split; [reflexivity|]. discriminate. Qed.

(** ** Table references *)

Local Open Scope string_scope.

Lemma IndexRune_range s c : -1 <= IndexRune s c < slen s \/ (IndexRune s c = -1 /\ s = "").
Proof.
  unfold slen. induction s as [|a s IH]; simpl; [by right|left].
  destruct (Ascii.eqb a c); [lia|].
  destruct (Z.eqb_spec (IndexRune s c) (-1)); [lia|].
  destruct IH as [IH|[IH _]]; lia.
Qed.

Lemma IndexRune_ge s c : -1 <= IndexRune s c.
Proof. destruct (IndexRune_range s c) as [?|[? _]]; lia. Qed.

Lemma cut_nil c : cut c "" = "".
Proof. reflexivity. Qed.

Lemma cut_hit c s : cut c (String c s) = "".
Proof. unfold cut. simpl. by rewrite Ascii.eqb_refl. Qed.

Lemma cut_cons c a s : a <> c -> cut c (String a s) = String a (cut c s).
Proof.
  intros Hne. unfold cut, upto. simpl.
  apply Ascii.eqb_neq in Hne. rewrite Hne.
  pose proof (IndexRune_ge s c).
  destruct (Z.eqb_spec (IndexRune s c) (-1)) as [->|Hi]; simpl; [done|].
  destruct (Z.eqb_spec (IndexRune s c + 1) (-1)); [lia|]. simpl.
  replace (Z.to_nat (IndexRune s c + 1)) with (S (Z.to_nat (IndexRune s c))) by lia.
  reflexivity.
Qed.

Lemma IndexRune_cons_miss c x a :
  IndexRune (String x a) c = -1 -> x <> c /\ IndexRune a c = -1.
Proof.
  simpl. destruct (Ascii.eqb_spec x c) as [|Hne]; [discriminate|].
  pose proof (IndexRune_ge a c).
  destruct (Z.eqb_spec (IndexRune a c) (-1)); [done|lia].
Qed.

Lemma cut_app c a b : IndexRune a c = -1 -> cut c (a +:+ b) = a +:+ cut c b.
Proof.
  induction a as [|x a IH]; intros Ha; [done|].
  apply IndexRune_cons_miss in Ha as [Hne Ha].
  change (String x a +:+ b) with (String x (a +:+ b)).
  rewrite cut_cons by done. by rewrite IH.
Qed.

Lemma cut_id c s : IndexRune s c = -1 -> cut c s = s.
Proof. unfold cut. by intros ->. Qed.

Lemma after_hit c s : after c (String c s) = s.
Proof. unfold after, from. simpl. by rewrite Ascii.eqb_refl. Qed.

Lemma after_cons c a s :
  a <> c -> IndexRune s c <> -1 -> after c (String a s) = after c s.
Proof.
  intros Hne Hin. unfold after, from. simpl.
  apply Ascii.eqb_neq in Hne. rewrite Hne.
  pose proof (IndexRune_ge s c).
  destruct (Z.eqb_spec (IndexRune s c) (-1)); [done|].
  destruct (Z.eqb_spec (IndexRune s c + 1) (-1)); [lia|]. simpl.
  replace (Z.to_nat (IndexRune s c + 1 + 1)) with (S (Z.to_nat (IndexRune s c + 1))) by lia.
  reflexivity.
Qed.

Lemma IndexRune_app_hit c a b : IndexRune (a +:+ String c b) c <> -1.
Proof.
  induction a as [|x a IH]; simpl.
  - by rewrite Ascii.eqb_refl.
  - destruct (Ascii.eqb x c); [done|].
    destruct (Z.eqb_spec (IndexRune (a +:+ String c b) c) (-1)); [done|].
    pose proof (IndexRune_ge (a +:+ String c b) c). lia.
Qed.

Lemma after_app c a b : IndexRune a c = -1 -> after c (a +:+ String c b) = b.
Proof.
  induction a as [|x a IH]; intros Ha; [apply after_hit|].
  apply IndexRune_cons_miss in Ha as [Hne Ha].
  change (String x a +:+ String c b) with (String x (a +:+ String c b)).
  rewrite after_cons; [by apply IH|done|apply IndexRune_app_hit].
Qed.

Lemma after_id c s : IndexRune s c = -1 -> after c s = s.
Proof. unfold after. by intros ->. Qed.

Lemma IndexRune_app_miss c a b :
  IndexRune a c = -1 -> IndexRune b c = -1 -> IndexRune (a +:+ b) c = -1.
Proof.
  induction a as [|x a IH]; intros Ha Hb; [done|].
  apply IndexRune_cons_miss in Ha as [Hne Ha].
  simpl. apply Ascii.eqb_neq in Hne. rewrite Hne, IH by done. reflexivity.
Qed.

(** The keyspace half and the table half of [extractTableInfo]. *)
Lemma extractTableInfo_unfold s :
  extractTableInfo s
  = (if negb (IndexRune s "." =? -1)%Z then cut "." s else "",
     cut "(" (after "." (cut ";" s))).
Proof. unfold extractTableInfo, cut, after. by destruct (IndexRune s "." =? -1)%Z. Qed.

Lemma append_cons x (a b : string) : String x a +:+ b = String x (a +:+ b).
Proof. reflexivity. Qed.

Lemma append_assoc (a b c : string) : (a +:+ b) +:+ c = a +:+ (b +:+ c).
Proof. induction a as [|x a IH]; [done|]. by rewrite !append_cons, IH. Qed.

Lemma append_nil_r (a : string) : a +:+ "" = a.
Proof. induction a as [|x a IH]; [done|]. by rewrite append_cons, IH. Qed.

Lemma IndexRune_snoc c d s :
  c <> d -> IndexRune (s +:+ String d "") c = IndexRune s c.
Proof.
  intros Hne. induction s as [|x s IH]; simpl.
  - apply not_eq_sym, Ascii.eqb_neq in Hne. by rewrite Hne.
  - by rewrite IH.
Qed.

Lemma cut_snoc c d s :
  c <> d -> IndexRune s c <> -1 -> cut c (s +:+ String d "") = cut c s.
Proof.
  intros Hne. induction s as [|x s IH]; intros Hin; [done|].
  rewrite append_cons.
  destruct (Ascii.eqb_spec x c) as [->|Hxc]; [by rewrite !cut_hit|].
  rewrite !cut_cons by done. rewrite IH; [done|].
  intros Hs. apply Hin. simpl.
  apply Ascii.eqb_neq in Hxc. by rewrite Hxc, Hs.
Qed.

Lemma cut_snoc_hit c s : cut c (s +:+ String c "") = cut c s.
Proof.
  induction s as [|x s IH]; [apply cut_hit|].
  rewrite append_cons.
  destruct (Ascii.eqb_spec x c) as [->|Hxc]; [by rewrite !cut_hit|].
  rewrite !cut_cons by done. by rewrite IH.
Qed.

(** A trailing [;] changes nothing, whatever the token. *)
Lemma extractTableInfo_trailing s :
  extractTableInfo (s +:+ ";") = extractTableInfo s.
Proof.
  rewrite !extractTableInfo_unfold, cut_snoc_hit, IndexRune_snoc by done.
  destruct (Z.eqb_spec (IndexRune s ".") (-1)); simpl; [done|].
  by rewrite cut_snoc.
Qed.

Lemma IndexRune_cut_miss c d s : IndexRune s c = -1 -> IndexRune (cut d s) c = -1.
Proof.
  induction s as [|x s IH]; intros Hs; [done|].
  apply IndexRune_cons_miss in Hs as [Hne Hs].
  destruct (Ascii.eqb_spec x d) as [->|Hxd]; [by rewrite cut_hit|].
  rewrite cut_cons by done. simpl.
  apply Ascii.eqb_neq in Hne. by rewrite Hne, IH.
Qed.

(** What is left of the tail of a token once it is cut at [;] and at [(]. *)
Lemma tail_cut rest :
  (rest = "" \/ exists r, rest = String ";" r \/ rest = String "(" r) ->
  cut "(" (cut ";" rest) = "".
Proof.
  intros [->|[r [->| ->]]]; [done|by rewrite cut_hit|].
  rewrite cut_cons by done. apply cut_hit.
Qed.

Lemma extractTableInfo_qualified ks tb rest :
  IndexRune ks "." = -1 -> IndexRune ks ";" = -1 ->
  IndexRune tb ";" = -1 -> IndexRune tb "(" = -1 ->
  (rest = "" \/ exists r, rest = String ";" r \/ rest = String "(" r) ->
  extractTableInfo (ks +:+ "." +:+ tb +:+ rest) = (ks, tb).
Proof.
  intros Hk1 Hk2 Ht1 Ht2 Hrest.
  change ("." +:+ tb +:+ rest) with (String "." (tb +:+ rest)).
  rewrite extractTableInfo_unfold.
  destruct (Z.eqb_spec (IndexRune (ks +:+ String "." (tb +:+ rest)) ".") (-1)) as [E|_];
    [by apply IndexRune_app_hit in E|]. simpl.
  f_equal.
  - by rewrite cut_app, cut_hit, append_nil_r.
  - rewrite (cut_app ";") by done. rewrite cut_cons by done.
    rewrite after_app by done. rewrite !cut_app by done.
    by rewrite tail_cut, append_nil_r.
Qed.

Lemma extractTableInfo_bare tb rest :
  IndexRune tb "." = -1 -> IndexRune tb ";" = -1 -> IndexRune tb "(" = -1 ->
  IndexRune rest "." = -1 ->
  (rest = "" \/ exists r, rest = String ";" r \/ rest = String "(" r) ->
  extractTableInfo (tb +:+ rest) = ("", tb).
Proof.
  intros Ht0 Ht1 Ht2 Hr Hrest.
  rewrite extractTableInfo_unfold.
  rewrite IndexRune_app_miss by done. simpl. f_equal.
  rewrite (cut_app ";") by done.
  rewrite after_id by (apply IndexRune_app_miss; [done|by apply IndexRune_cut_miss]).
  rewrite (cut_app "(") by done.
  by rewrite tail_cut, append_nil_r.
Qed.

(** The rules of C8 that the code follows.  For a token [ks.tb],
    [ks.tb;...] or [ks.tb(...] the result is [(ks, tb)], and for [tb],
    [tb;...] or [tb(...] it is [("", tb)]: the token is cut at its first [;],
    the keyspace is what stands before the first [.], the table what follows
    it, cut at its first [(].  The keyspace comes back as it was written. *)
Lemma extractTableInfo_rules ks tb rest :
  IndexRune tb ";" = -1 -> IndexRune tb "(" = -1 ->
  (rest = "" \/ exists r, rest = String ";" r \/ rest = String "(" r) ->
  (IndexRune ks "." = -1 -> IndexRune ks ";" = -1 ->
   extractTableInfo (ks +:+ "." +:+ tb +:+ rest) = (ks, tb)) /\
  (IndexRune tb "." = -1 -> IndexRune rest "." = -1 ->
   extractTableInfo (tb +:+ rest) = ("", tb)).
Proof.
  intros Ht1 Ht2 Hrest. split.
  - intros Hk1 Hk2. by apply extractTableInfo_qualified.
  - intros Ht0 Hr. by apply extractTableInfo_bare.
Qed.

(** C8, on the code.  [extractTableInfo] returns the keyspace of [KS1.t1]
    as [KS1], not lowercased, and that of the quoted ["Ks".t] with its
    quotes, where the rules of the claim give [ks1] and [Ks].  The keyspace
    of a USE statement does get that treatment, in [handleUseQuery]; the
    tables are looked up under the keyspace as written, so the mirror of
    [INSERT INTO KS1.t1] is dropped for want of a table [KS1.t1], while that
    of [INSERT INTO ks1.t1] is queued. *)
Theorem extractTableInfo_keeps_keyspace :
  extractTableInfo "KS1.t1" = ("KS1", "t1") /\
  tableInfo_spec asciiLower "KS1.t1" = ("ks1", "t1") /\
  extractTableInfo (quoted_Ks +:+ ".t") = (quoted_Ks, "t") /\
  tableInfo_spec asciiLower (quoted_Ks +:+ ".t") = ("Ks", "t") /\
  useKeyspace asciiLower "KS1" = Some "ks1" /\
  useKeyspace asciiLower quoted_Ks = Some "Ks" /\
  mirrorPath "unknown" asciiLower 5 (fun _ => true) (QQuery sample_query)
    "/query/insert/KS1.t1" (sample_proxy 0)
  = Ret (no_table "KS1" "t1") (sample_proxy 0) /\
  log (state_of (mirrorPath "unknown" asciiLower 5 (fun _ => true) (QQuery sample_query)
                   "/query/insert/ks1.t1" (sample_proxy 0)))
  = [Enqueue "ks1" "t1" sample_query].
Proof.
  split; [reflexivity|]. split; [reflexivity|]. split; [reflexivity|].
  split; [reflexivity|]. split; [reflexivity|]. split; [reflexivity|].
  split; vm_compute; reflexivity.
Qed.

(** C9.  A token [keyspace.table] and the same token followed by [;] give
    the same pair, whatever the two names are; and when the names are free of
    the characters the parser cuts at, that pair is [(keyspace, table)]. *)
Theorem extractTableInfo_idempotent ks tb :
  extractTableInfo (ks +:+ "." +:+ tb +:+ ";") = extractTableInfo (ks +:+ "." +:+ tb) /\
  (IndexRune ks "." = -1 -> IndexRune ks ";" = -1 ->
   IndexRune tb ";" = -1 -> IndexRune tb "(" = -1 ->
   extractTableInfo (ks +:+ "." +:+ tb) = (ks, tb) /\
   extractTableInfo (ks +:+ "." +:+ tb +:+ ";") = (ks, tb)).
Proof.
  split.
  - rewrite <- (extractTableInfo_trailing (ks +:+ "." +:+ tb)).
    by rewrite !append_assoc.
  - intros Hk1 Hk2 Ht1 Ht2. split.
    + rewrite <- (append_nil_r tb) at 1. apply extractTableInfo_qualified; auto.
    + apply extractTableInfo_qualified; eauto.
Qed.

Lemma extractTableInfo_idempotent_witness :
  IndexRune "keyspace" "." = -1 /\ IndexRune "keyspace" ";" = -1 /\
  IndexRune "table" ";" = -1 /\ IndexRune "table" "(" = -1 /\
  extractTableInfo "keyspace.table" = ("keyspace", "table") /\
  extractTableInfo "keyspace.table;" = ("keyspace", "table").
Proof.
  assert (H1 : IndexRune "keyspace" "." = -1) by reflexivity.
  assert (H2 : IndexRune "keyspace" ";" = -1) by reflexivity.
  assert (H3 : IndexRune "table" ";" = -1) by reflexivity.
  assert (H4 : IndexRune "table" "(" = -1) by reflexivity.
  split; [exact H1|]. split; [exact H2|]. split; [exact H3|]. split; [exact H4|].
  exact (proj2 (extractTableInfo_idempotent "keyspace" "table") H1 H2 H3 H4).
Defined.

Local Close Scope string_scope.

(** ** The mirror executor *)

Lemma writes_in_app l1 l2 : writes_in (l1 ++ l2) = (writes_in l1 + writes_in l2)%nat.
Proof. unfold writes_in. by rewrite List.filter_app, length_app. Qed.

Lemma slept_in_app l1 l2 : slept_in (l1 ++ l2) = slept_in l1 + slept_in l2.
Proof. unfold slept_in. induction l1 as [|e l1 IH]; simpl; [done|]. rewrite IH. lia. Qed.

Lemma redirects_in_app l1 l2 :
  redirects_in (l1 ++ l2) = (redirects_in l1 + redirects_in l2)%nat.
Proof. unfold redirects_in. by rewrite List.filter_app, length_app. Qed.

Section ExecutorFacts.

Context {PQ : Type}.
Variable astraWrite : nat -> bool.

(** The retry loop touches nothing but the log, to which it adds its
    writes and sleeps: at most [n] writes, a sleep of 500 ms after each
    failed one, and no write after a successful one. *)
Lemma attempts_spec n b : forall p : CQLProxy PQ,
  exists l,
    attempts astraWrite n b p = 
      mkProxy (sourceHostString p) (astraHostString p) (queues p) (queueLocks p)
        (queueSizes p) (tablePaused p) (lock p) (migrationComplete p)
        (migrationStatus p) (connectionsToSource p) (Keyspace p) (metrics p)
        (preparedQueries p) (log p ++ l) /\
    (writes_in l <= n)%nat /\
    slept_in l = 500 * Z.of_nat (failed_in l) /\
    (failed_in l <= writes_in l)%nat /\
    ((forall k, (k < n)%nat -> astraWrite (writes_in (log p) + k) = false) ->
     writes_in l = n /\ failed_in l = n) /\
    (forall k, (k < n)%nat -> astraWrite (writes_in (log p) + k) = true ->
     (failed_in l < writes_in l)%nat).
Proof.
  induction n as [|n IH]; intros p; simpl.
  - exists []. rewrite app_nil_r.
    split; [by destruct p|]. split; [done|]. split; [done|]. split; [done|].
    split; [done|]. intros k Hk. lia.
  - destruct (astraWrite (writes_in (log p))) eqn:Hw.
    + exists [TargetWrite b true].
      split; [by destruct p|]. split; [cbn; lia|]. split; [done|].
      split; [cbn; lia|]. split.
      * intros Hall. specialize (Hall 0%nat ltac:(lia)).
        rewrite Nat.add_0_r in Hall. congruence.
      * intros k Hk Hok. cbn. lia.
    + destruct (IH (emit (Sleep 500) (emit (TargetWrite b false) p)))
        as (l & -> & Hn & Hs & Hf & Hall & Hsome).
      exists (TargetWrite b false :: Sleep 500 :: l).
      cbn [log emit] in *. rewrite <- !app_assoc in *.
      rewrite !writes_in_app in Hall, Hsome.
      change (writes_in [TargetWrite b false]) with 1%nat in Hall, Hsome.
      change (writes_in [Sleep 500]) with 0%nat in Hall, Hsome.
      change (writes_in (TargetWrite b false :: Sleep 500 :: l)) with (S (writes_in l)).
      change (failed_in (TargetWrite b false :: Sleep 500 :: l)) with (S (failed_in l)).
      change (slept_in (TargetWrite b false :: Sleep 500 :: l))
        with (0 + (500 + slept_in l)).
      split; [done|]. split; [lia|]. split; [lia|]. split; [lia|]. split.
      * intros H. destruct Hall as [H1 H2]; [|lia].
        intros k Hk. rewrite <- (H (S k)) by lia. f_equal. lia.
      * intros k Hk Hok. destruct k as [|k].
        { rewrite Nat.add_0_r in Hok. congruence. }
        assert (failed_in l < writes_in l)%nat; [|lia].
        apply (Hsome k); [lia|]. rewrite <- Hok. f_equal. lia.
Qed.

End ExecutorFacts.

Section ExecutorClaims.

Context {PQ : Type}.
Variable astraWrite : nat -> bool.

Lemma execute_spec (q : Query) (p : CQLProxy PQ) :
  execute astraWrite q p = Ret None (attempts astraWrite 5 (QQuery q) p).
Proof. reflexivity. Qed.

Lemma consumeQueue_metrics ks tn (p p' : CQLProxy PQ) :
  consumeQueue astraWrite ks tn p = Ret tt p' ->
  metrics p' = mkMetrics (PacketCount (metrics p)) (Reads (metrics p))
                 (Writes (metrics p) + 1) (WriteFails (metrics p))
                 (ReadFails (metrics p)).
Proof.
  unfold consumeQueue.
  destruct (queues p !! ks) as [inner|]; [|discriminate].
  destruct (inner !! tn) as [[|query rest]|]; [discriminate| |discriminate].
  unfold mbind, M_bind, bind, modify, lockLatch. cbn [queueLocks set_queues].
  destruct (queueLocks p !! ks) as [latches|]; [|discriminate].
  destruct (latches !! tn) as [[|]|]; [discriminate| |discriminate].
  rewrite execute_spec.
  destruct (attempts_spec astraWrite 5 (QQuery query)
              (emit (Latch ks tn)
                 (set_queueLocks (<[ks:=<[tn:=true]> latches]> (queueLocks p))
                    (set_queues (<[ks:=<[tn:=rest]> inner]> (queues p)) p))))
    as (l & -> & _).
  unfold incrementWrites, modify, addQueueSize, locked, unlockLatch.
  cbn [lock set_metrics metrics queueSizes set_queueSizes queueLocks
       set_queueLocks emit log set_queues].
  destruct (lock p); [discriminate|].
  destruct (put2 _ _ _ _); [|discriminate].
  cbn [lock set_metrics metrics queueSizes set_queueSizes queueLocks
       set_queueLocks emit log set_queues].
  destruct (_ !! ks) as [latches'|]; [|discriminate].
  destruct (latches' !! tn) as [[|]|]; [|discriminate|discriminate].
  intros [= <-]. reflexivity.
Qed.

End ExecutorClaims.
(** C5, on the code.  [execute] hands back the [err] declared before its
    loop, which nothing assigns, so it reports success whatever the writes
    did; a turn of [consumeQueue] that comes back has therefore counted one
    more [Writes] and has left [WriteFails] alone, also when all five writes
    failed. *)
Theorem consumeQueue_counts_every_query_as_written
    {PQ : Type} (astraWrite : nat -> bool) ks tn (p p' : CQLProxy PQ) :
  consumeQueue astraWrite ks tn p = Ret tt p' ->
  (forall q p0, exists p1 : CQLProxy PQ, execute astraWrite q p0 = Ret None p1) /\
  Writes (metrics p') = Writes (metrics p) + 1 /\
  WriteFails (metrics p') = WriteFails (metrics p).
Proof.
  intros Hrun. split; [intros q p0; eexists; apply execute_spec|].
  apply consumeQueue_metrics in Hrun. by rewrite Hrun.
Qed.

(** One query waits for [ks1.t1] and the target refuses every write: five
    writes are tried and fail, and the query is counted as written. *)
Lemma consumeQueue_counts_every_query_as_written_witness :
  let r := consumeQueue (fun _ => false) "ks1" "t1" sample_backlog in
  r = Ret tt (state_of r) /\
  writes_in (log (state_of r)) = 5%nat /\
  failed_in (log (state_of r)) = 5%nat /\
  Writes (metrics (state_of r)) = 1 /\
  WriteFails (metrics (state_of r)) = 0.
Proof.
  intros r.
  assert (Hr : r = Ret tt (state_of r)) by (vm_compute; reflexivity).
  destruct (consumeQueue_counts_every_query_as_written
              (fun _ => false) "ks1" "t1" sample_backlog (state_of r) Hr)
    as (_ & Hw & Hf).
  split; [exact Hr|]. split; [vm_compute; reflexivity|].
  split; [vm_compute; reflexivity|]. split; [exact Hw|exact Hf].
Defined.

(** C6, as the code has it.  [execute] always comes back, after at most five
    writes to the target.  It sleeps 500 ms after every failed write, the
    fifth included: 2.5 s in all when every write fails, and at most 2 s when
    one of them succeeds. *)
Theorem execute_retry_bound {PQ : Type} (astraWrite : nat -> bool) q (p : CQLProxy PQ) :
  exists p' l,
    execute astraWrite q p = Ret None p' /\
    log p' = log p ++ l /\
    (writes_in l <= 5)%nat /\
    slept_in l = 500 * Z.of_nat (failed_in l) /\
    slept_in l <= 2500 /\
    ((forall k, (k < 5)%nat -> astraWrite (writes_in (log p) + k)%nat = false) ->
     writes_in l = 5%nat /\ slept_in l = 2500) /\
    (forall k, (k < 5)%nat -> astraWrite (writes_in (log p) + k)%nat = true ->
     slept_in l <= 2000).
Proof.
  destruct (attempts_spec astraWrite 5 (QQuery q) p)
    as (l & Heq & Hn & Hs & Hf & Hall & Hsome).
  exists (attempts astraWrite 5 (QQuery q) p), l.
  split; [apply execute_spec|]. split; [by rewrite Heq|].
  split; [done|]. split; [done|]. split; [lia|]. split.
  - intros H. destruct (Hall H) as [H1 H2]. split; [done|lia].
  - intros k Hk Hok. specialize (Hsome k Hk Hok). lia.
Qed.

Lemma execute_retry_bound_witness :
  let p := sample_proxy 0 in
  (forall k, (k < 5)%nat -> (fun _ : nat => false) (writes_in (log p) + k)%nat = false) /\
  exists p' l,
    execute (fun _ => false) sample_query p = Ret None p' /\
    log p' = log p ++ l /\ writes_in l = 5%nat /\ slept_in l = 2500.
Proof.
  intros p.
  assert (Hall : forall k, (k < 5)%nat ->
            (fun _ : nat => false) (writes_in (log p) + k)%nat = false) by reflexivity.
  split; [exact Hall|].
  destruct (execute_retry_bound (fun _ => false) sample_query p)
    as (p' & l & Hrun & Hlog & _ & _ & _ & Hfail & _).
  exists p', l. destruct (Hfail Hall) as [H1 H2].
  split; [exact Hrun|]. split; [exact Hlog|]. split; [exact H1|exact H2].
Defined.

(** C6, as the claim words it, fails: when the target refuses all five
    writes, [execute] has slept 2500 ms, which is more than two seconds. *)
Lemma execute_sleeps_longer_than_two_seconds :
  let p' := state_of (execute (fun _ => false) sample_query (sample_proxy 0)) in
  writes_in (log p') = 5%nat /\ slept_in (log p') = 2500 /\ ~ slept_in (log p') <= 2000.
Proof. vm_compute. repeat split. intros H. apply H. reflexivity. Qed.

(** ** Pausing *)

Section PauseFacts.

Context {PQ : Type}.
Variable LoadingDataComplete : migration.Step.

Lemma at2_insert {V} (m : gmap string (gmap string V)) ks tn inner v :
  at2 (<[ks := <[tn := v]> inner]> m) ks tn = Some v.
Proof. unfold at2. by rewrite !lookup_insert_eq. Qed.

(** After the Start update every keyspace of the status has its maps, and
    every table of the status a free latch and an empty queue. *)
Lemma loadMigrationInfo_loaded (status : migration.Tables) (p : CQLProxy PQ) ks tables :
  status !! ks = Some tables ->
  let p' := loadMigrationInfo status p in
  migrationStatus p' = Some status /\
  tablePaused p' !! ks = Some ∅ /\
  queueSizes p' !! ks = Some ∅ /\
  (forall tn, is_Some (tables !! tn) ->
     paused ks tn p' = false /\
     at2 (queueLocks p') ks tn = Some false /\
     at2 (queues p') ks tn = Some []).
Proof.
  intros Hks p'. subst p'. unfold loadMigrationInfo, paused, at2. cbn.
  rewrite !lookup_union, !lookup_fmap, Hks. cbn.
  split; [done|]. split; [by destruct (tablePaused p !! ks)|].
  split; [by destruct (queueSizes p !! ks)|].
  intros tn [t Ht].
  destruct (tablePaused p !! ks), (queueLocks p !! ks), (queues p !! ks); cbn;
    rewrite ?lookup_fmap, ?Ht, ?lookup_empty; done.
Qed.

(** [stopTable] sets the flag, then takes the latch or stops there. *)
Lemma stopTable_spec ks tn (p : CQLProxy PQ) inner :
  tablePaused p !! ks = Some inner ->
  let p1 := emit (Pause ks tn)
              (set_tablePaused (<[ks := <[tn := true]> inner]> (tablePaused p)) p) in
  (exists latches, queueLocks p !! ks = Some latches /\ latches !! tn = Some false /\
     stopTable ks tn p
     = Ret tt (emit (Latch ks tn)
                 (set_queueLocks (<[ks := <[tn := true]> latches]> (queueLocks p)) p1))) \/
  (at2 (queueLocks p) ks tn <> Some false /\
   (stopTable ks tn p = Park p1 \/ stopTable ks tn p = Panic p1)).
Proof.
  intros Hin p1. unfold stopTable, put2, lockLatch, at2. rewrite Hin.
  cbn [queueLocks set_tablePaused emit]. fold p1.
  destruct (queueLocks p !! ks) as [latches|] eqn:Hks;
    [|right; split; [done|by right]].
  destruct (latches !! tn) as [[|]|] eqn:Htn;
    [right; split; [done|by left]| |right; split; [done|by right]].
  left. by exists latches.
Qed.

(** [queueQuery] touches neither the pause flags nor the latches; what it
    adds to the log is the send, if the send goes through. *)
Lemma queueQuery_spec q table (p : CQLProxy PQ) :
  QTable q = Some table ->
  let ks := migration.Keyspace table in
  let tn := migration.Name table in
  let r := queueQuery q p in
  tablePaused (state_of r) = tablePaused p /\
  queueLocks (state_of r) = queueLocks p /\
  (exists l, log (state_of r) = log p ++ l /\ l `prefix_of` [Enqueue ks tn q]) /\
  (forall qs, at2 (queues p) ks tn = Some qs -> len qs < queueSize ->
     lock p = false -> is_Some (queueSizes p !! ks) ->
     exists p', r = Ret tt p' /\
       log p' = log p ++ [Enqueue ks tn q] /\
       at2 (queues p') ks tn = Some (qs ++ [q]) /\
       at2 (queueSizes p') ks tn = Some (default 0 (at2 (queueSizes p) ks tn) + 1)).
Proof.
  intros Hq ks tn r. subst r. unfold queueQuery. rewrite Hq. fold ks tn.
  unfold at2.
  assert (Hnil : exists l : list Effect, log p = log p ++ l /\ l `prefix_of` [Enqueue ks tn q]).
  { exists []. split; [by rewrite app_nil_r|apply prefix_nil]. }
  destruct (queues p !! ks) as [chans|] eqn:Hks.
  2:{ cbn. split; [done|]. split; [done|]. split; [done|]. intros qs [=]. }
  destruct (chans !! tn) as [qs0|] eqn:Htn.
  2:{ cbn. split; [done|]. split; [done|]. split; [done|]. intros qs [=]. }
  destruct (Z.ltb_spec (len qs0) queueSize) as [Hroom|Hfull].
  2:{ cbn. split; [done|]. split; [done|]. split; [done|]. intros qs [= <-]. lia. }
  unfold addQueueSize, locked, put2. cbn [lock set_queues emit queueSizes].
  assert (Hone : exists l : list Effect,
            log p ++ [Enqueue ks tn q] = log p ++ l /\ l `prefix_of` [Enqueue ks tn q]).
  { by exists [Enqueue ks tn q]. }
  destruct (lock p) eqn:Hlock.
  { cbn. split; [done|]. split; [done|]. split; [done|]. intros qs _ _ [=]. }
  destruct (queueSizes p !! ks) as [sizes|] eqn:Hsz.
  2:{ cbn. split; [done|]. split; [done|]. split; [done|].
      intros qs _ _ _ [? [=]]. }
  cbn. split; [done|]. split; [done|]. split; [done|].
  intros qs [= <-] _ _ _. eexists. split; [reflexivity|]. cbn.
  unfold at2. rewrite Hsz, !lookup_insert_eq. done.
Qed.

Lemma write_class_pauses qt h query ks tn (p : CQLProxy PQ) tables table inner :
  In (qt, h) (writeClassHandlers LoadingDataComplete) ->
  migrationStatus p = Some tables ->
  at2 tables ks tn = Some table ->
  migration.TStep table <> LoadingDataComplete ->
  paused ks tn p = false ->
  tablePaused p !! ks = Some inner ->
  let r := h query ks tn p in
  let q := mkQuery (Some table) qt query in
  let ks' := migration.Keyspace table in
  let tn' := migration.Name table in
  paused ks tn (state_of r) = true /\
  (exists l, log (state_of r) = log p ++ Pause ks tn :: l /\
     l `prefix_of` [Latch ks tn; Enqueue ks' tn' q] /\
     (In (Latch ks tn) l -> at2 (queueLocks (state_of r)) ks tn = Some true)) /\
  (forall qs, at2 (queueLocks p) ks tn = Some false ->
     at2 (queues p) ks' tn' = Some qs -> len qs < queueSize ->
     lock p = false -> is_Some (queueSizes p !! ks') ->
     exists p', r = Ret None p' /\
       log p' = log p ++ [Pause ks tn; Latch ks tn; Enqueue ks' tn' q] /\
       at2 (queues p') ks' tn' = Some (qs ++ [q])).
Proof.
  intros Hin Hst Htb Hstep Hpa Hin'.
  assert (Hh : h = handleUpdateQuery LoadingDataComplete /\ qt = UPDATE \/
               h = handleDeleteQuery LoadingDataComplete /\ qt = DELETE \/
               h = handleTruncateQuery LoadingDataComplete /\ qt = TRUNCATE).
  { destruct Hin as [[= <- <-]|[[= <- <-]|[[= <- <-]|[]]]]; auto. }
  clear Hin. intros r q ks' tn'.
  assert (Hgoal : forall o : Outcome PQ unit,
    (exists latches, queueLocks p !! ks = Some latches /\ latches !! tn = Some false /\
       o = Ret tt (emit (Latch ks tn)
             (set_queueLocks (<[ks := <[tn := true]> latches]> (queueLocks p))
                (emit (Pause ks tn)
                   (set_tablePaused (<[ks := <[tn := true]> inner]> (tablePaused p)) p))))) \/
    (at2 (queueLocks p) ks tn <> Some false /\
     exists stuck, (o = Park stuck \/ o = Panic stuck) /\
       stuck = emit (Pause ks tn)
                 (set_tablePaused (<[ks := <[tn := true]> inner]> (tablePaused p)) p)) ->
    let r := match o with
             | Ret _ p' =>
                 match queueQuery q p' with
                 | Ret _ p'' => ret (None : error) p''
                 | Park p'' => Park p''
                 | Panic p'' => Panic p''
                 end
             | Park p' => Park p'
             | Panic p' => Panic p'
             end in
    paused ks tn (state_of r) = true /\
    (exists l, log (state_of r) = log p ++ Pause ks tn :: l /\
       l `prefix_of` [Latch ks tn; Enqueue ks' tn' q] /\
       (In (Latch ks tn) l -> at2 (queueLocks (state_of r)) ks tn = Some true)) /\
    (forall qs, at2 (queueLocks p) ks tn = Some false ->
       at2 (queues p) ks' tn' = Some qs -> len qs < queueSize ->
       lock p = false -> is_Some (queueSizes p !! ks') ->
       exists p', r = Ret None p' /\
         log p' = log p ++ [Pause ks tn; Latch ks tn; Enqueue ks' tn' q] /\
         at2 (queues p') ks' tn' = Some (qs ++ [q]))).
  { intros o [(latches & Hl1 & Hl2 & ->)|(Hne & stuck & Ho & ->)].
    - set (p2 := emit (Latch ks tn) _).
      destruct (queueQuery_spec q table p2 eq_refl) as (Hp & Hlk & (l & Hlog & Hpre) & Hlive).
      fold ks' tn' in Hpre, Hlive.
      assert (Hst' : state_of
                (match queueQuery q p2 with
                 | Ret _ p'' => ret (None : error) p''
                 | Park p'' => Park p''
                 | Panic p'' => Panic p''
                 end : Outcome PQ error) = state_of (queueQuery q p2))
        by (by destruct (queueQuery q p2)).
      cbn zeta. rewrite Hst'. split; [|split].
      + unfold paused. rewrite Hp. subst p2. cbn. by rewrite at2_insert.
      + exists (Latch ks tn :: l). split; [|split].
        * rewrite Hlog. subst p2. cbn. by rewrite <- !app_assoc.
        * by apply prefix_cons.
        * intros _. rewrite Hlk. subst p2. cbn. by rewrite at2_insert.
      + intros qs _ Hqs Hroom Hlock Hsz.
        destruct (Hlive qs) as (p' & Hrun & Hlog' & Hq' & _); try done.
        exists p'. rewrite Hrun. split; [done|]. split; [|done].
        rewrite Hlog'. subst p2. cbn. by rewrite <- !app_assoc.
    - assert (Hst' : state_of
                (match o with
                 | Ret _ p' =>
                     match queueQuery q p' with
                     | Ret _ p'' => ret (None : error) p''
                     | Park p'' => Park p''
                     | Panic p'' => Panic p''
                     end
                 | Park p' => Park p'
                 | Panic p' => Panic p'
                 end : Outcome PQ error)
              = emit (Pause ks tn)
                  (set_tablePaused (<[ks := <[tn := true]> inner]> (tablePaused p)) p))
        by (by destruct Ho as [-> | ->]).
      cbn zeta. rewrite Hst'. split; [|split].
      + unfold paused. cbn. by rewrite at2_insert.
      + exists []. split; [done|]. split; [apply prefix_nil|]. intros [].
      + intros qs Hfree. done. }
  subst r.
  destruct Hh as [[-> ->]|[[-> ->]|[-> ->]]];
    [unfold handleUpdateQuery|unfold handleDeleteQuery|unfold handleTruncateQuery];
    rewrite Hst, Htb;
    unfold mbind, M_bind, bind; rewrite Hpa; cbn [negb];
    unfold tableStatus; rewrite Hst, Htb;
    (destruct (Z.eqb_spec (migration.TStep table) LoadingDataComplete); [done|]);
    cbn [negb];
    apply Hgoal;
    (destruct (stopTable_spec ks tn p inner Hin')
       as [(latches & Hl1 & Hl2 & Hrun)|[Hne [Hrun|Hrun]]]);
    [left; by exists latches|right; split; [done|eexists; split; [left; exact Hrun|done]]
    |right; split; [done|eexists; split; [right; exact Hrun|done]]
    |left; by exists latches|right; split; [done|eexists; split; [left; exact Hrun|done]]
    |right; split; [done|eexists; split; [right; exact Hrun|done]]
    |left; by exists latches|right; split; [done|eexists; split; [left; exact Hrun|done]]
    |right; split; [done|eexists; split; [right; exact Hrun|done]]].
Qed.

Lemma insert_never_pauses query ks tn (p : CQLProxy PQ) :
  let r := handleInsertQuery query ks tn p in
  tablePaused (state_of r) = tablePaused p /\
  queueLocks (state_of r) = queueLocks p /\
  exists l, log (state_of r) = log p ++ l /\ Forall is_enqueue l.
Proof.
  intros r. subst r. unfold handleInsertQuery.
  assert (Hnil : exists l : list Effect, log p = log p ++ l /\ Forall is_enqueue l).
  { exists []. by rewrite app_nil_r. }
  destruct (migrationStatus p) as [tables|]; [|done].
  destruct (at2 tables ks tn) as [table|]; [|done].
  unfold mbind, M_bind, bind.
  set (q := mkQuery (Some table) INSERT query).
  destruct (queueQuery_spec q table p eq_refl) as (Hp & Hlk & (l & Hlog & Hpre) & _).
  assert (Hl : Forall is_enqueue l).
  { destruct Hpre as [k Hk]. destruct l as [|e l]; [done|].
    injection Hk as <- Hk. destruct l; [|done]. by repeat constructor. }
  revert Hp Hlk Hlog.
  destruct (queueQuery q p) as [[] p2|p2|p2]; cbn; intros Hp Hlk Hlog;
    (split; [done|]; split; [done|]; by exists l).
Qed.

End PauseFacts.

(** C3 (pause policy).  Take a mirrored UPDATE, DELETE or TRUNCATE for a
    table of the migration status whose step is not [LoadingDataComplete] and
    whose pause flag is not set, in a proxy that loaded the table's keyspace
    at Start.  Whatever becomes of the call, the flag is set when it ends; the
    effects it adds are, in this order, the pause, the taking of the latch
    and the send on the queue, or the first two, or the pause alone, so that a
    query that was enqueued was enqueued behind a paused table with its latch
    held.  The call does end, having done all three, when the latch is free,
    the queue has room and [p.lock] is free.  A mirrored INSERT changes
    neither a pause flag nor a latch, whatever the step: all it adds is its
    send on the queue. *)
Theorem pause_before_enqueue {PQ : Type} (LoadingDataComplete : migration.Step) :
  (forall qt h query ks tn (p : CQLProxy PQ) tables table inner,
     In (qt, h) (writeClassHandlers LoadingDataComplete) ->
     migrationStatus p = Some tables ->
     at2 tables ks tn = Some table ->
     migration.TStep table <> LoadingDataComplete ->
     paused ks tn p = false ->
     tablePaused p !! ks = Some inner ->
     let r := h query ks tn p in
     let q := mkQuery (Some table) qt query in
     let ks' := migration.Keyspace table in
     let tn' := migration.Name table in
     paused ks tn (state_of r) = true /\
     (exists l, log (state_of r) = log p ++ Pause ks tn :: l /\
        l `prefix_of` [Latch ks tn; Enqueue ks' tn' q] /\
        (In (Latch ks tn) l -> at2 (queueLocks (state_of r)) ks tn = Some true)) /\
     (forall qs, at2 (queueLocks p) ks tn = Some false ->
        at2 (queues p) ks' tn' = Some qs -> len qs < queueSize ->
        lock p = false -> is_Some (queueSizes p !! ks') ->
        exists p', r = Ret None p' /\
          log p' = log p ++ [Pause ks tn; Latch ks tn; Enqueue ks' tn' q] /\
          at2 (queues p') ks' tn' = Some (qs ++ [q]))) /\
  (forall query ks tn (p : CQLProxy PQ),
     let r := handleInsertQuery query ks tn p in
     tablePaused (state_of r) = tablePaused p /\
     queueLocks (state_of r) = queueLocks p /\
     exists l, log (state_of r) = log p ++ l /\ Forall is_enqueue l).
Proof.
  split.
  - intros. by eapply write_class_pauses.
  - intros. apply insert_never_pauses.
Qed.

(** An UPDATE for [ks1.t1], still at step 0, on a freshly started proxy. *)
Lemma pause_before_enqueue_witness :
  let p := sample_proxy 0 in
  let query := QQuery sample_query in
  let r := handleUpdateQuery 5 query "ks1" "t1" p in
  let q := mkQuery (Some (sample_table 0)) UPDATE query in
  In (UPDATE, handleUpdateQuery 5) (writeClassHandlers (PreparedQueries := unit) 5) /\
  migrationStatus p = Some (sample_status 0) /\
  at2 (sample_status 0) "ks1" "t1" = Some (sample_table 0) /\
  migration.TStep (sample_table 0) <> 5 /\
  paused "ks1" "t1" p = false /\
  tablePaused p !! "ks1"%string = Some ∅ /\
  at2 (queueLocks p) "ks1" "t1" = Some false /\
  at2 (queues p) "ks1" "t1" = Some [] /\
  len (@nil Query) < queueSize /\
  lock p = false /\
  is_Some (queueSizes p !! "ks1"%string) /\
  paused "ks1" "t1" (state_of r) = true /\
  exists p', r = Ret None p' /\
    log p' = log p ++ [Pause "ks1" "t1"; Latch "ks1" "t1"; Enqueue "ks1" "t1" q] /\
    at2 (queues p') "ks1" "t1" = Some ([] ++ [q]).
Proof.
  intros p query r q.
  assert (H1 : In (UPDATE, handleUpdateQuery 5) (writeClassHandlers (PreparedQueries := unit) 5))
    by (left; reflexivity).
  assert (H2 : migrationStatus p = Some (sample_status 0)) by reflexivity.
  assert (H3 : at2 (sample_status 0) "ks1" "t1" = Some (sample_table 0))
    by (vm_compute; reflexivity).
  assert (H4 : migration.TStep (sample_table 0) <> 5) by discriminate.
  assert (H5 : paused "ks1" "t1" p = false) by (vm_compute; reflexivity).
  assert (H6 : tablePaused p !! "ks1"%string = Some ∅) by (vm_compute; reflexivity).
  assert (H7 : at2 (queueLocks p) "ks1" "t1" = Some false) by (vm_compute; reflexivity).
  assert (H8 : at2 (queues p) "ks1" "t1" = Some []) by (vm_compute; reflexivity).
  assert (H9 : len (@nil Query) < queueSize) by (vm_compute; reflexivity).
  assert (H10 : lock p = false) by reflexivity.
  assert (H11 : is_Some (queueSizes p !! "ks1"%string)) by (vm_compute; eauto).
  destruct (proj1 (pause_before_enqueue 5) UPDATE (handleUpdateQuery 5) query
              "ks1"%string "t1"%string p (sample_status 0) (sample_table 0) ∅
              H1 H2 H3 H4 H5 H6) as (Hp & _ & Hlive).
  repeat (split; [assumption|]).
  exact (Hlive [] H7 H8 H9 H10 H11).
Defined.

(** ** The redirect signal *)

Section RedirectFacts.

Context {PQ : Type}.
Variable redirectTaken : nat -> bool.

Abbreviation redirects p := (redirects_in (log p)).

Lemma incrementSources_spec (p : CQLProxy PQ) :
  let p' := state_of (incrementSources p) in
  log p' = log p /\ migrationComplete p' = migrationComplete p /\
  (p' = p \/ (lock p = false /\ connectionsToSource p' = connectionsToSource p + 1)).
Proof.
  unfold incrementSources, locked. destruct (lock p); cbn; [by auto|].
  split; [done|]. split; [done|]. right. done.
Qed.

(** [decrementSources] signals exactly when the migration is complete and it
    takes the count from one to zero. *)
Lemma decrementSources_spec (p : CQLProxy PQ) :
  let p' := state_of (decrementSources redirectTaken p) in
  migrationComplete p' = migrationComplete p /\
  ((log p' = log p /\ (busy p' <= busy p)%nat /\
    (p' = p \/ connectionsToSource p' = connectionsToSource p - 1)) \/
   (migrationComplete p = true /\ connectionsToSource p = 1 /\
    connectionsToSource p' = 0 /\ exists taken, log p' = log p ++ [Redirect taken])).
Proof.
  unfold decrementSources, locked, busy. destruct (lock p); cbn.
  { split; [done|]. left. split; [done|]. split; [lia|by left]. }
  destruct (migrationComplete p) eqn:Hc; cbn.
  - destruct (Z.eqb_spec (connectionsToSource p - 1) 0) as [Hz|Hz].
    + destruct (redirectTaken _); cbn; (split; [done|]); right;
        (split; [done|]); (split; [lia|]); (split; [done|]); eauto.
    + cbn. split; [done|]. left. split; [done|]. split; [|by right].
      destruct (Z.ltb_spec 0 (connectionsToSource p - 1));
        destruct (Z.ltb_spec 0 (connectionsToSource p)); lia.
  - split; [done|]. left. split; [done|]. split; [|by right].
    destruct (Z.ltb_spec 0 (connectionsToSource p - 1));
      destruct (Z.ltb_spec 0 (connectionsToSource p)); lia.
Qed.

(** One step: the signal is sent by the return of a forwarder only, when the
    migration is complete and the count goes from one to zero. *)
Lemma step_redirect (s : Sys PQ) e :
  redirects (proxy (step redirectTaken s e)) <> redirects (proxy s) ->
  (exists remote, e = Closed remote) /\
  migrationComplete (proxy s) = true /\
  connectionsToSource (proxy s) = 1 /\
  connectionsToSource (proxy (step redirectTaken s e)) = 0 /\
  redirects (proxy (step redirectTaken s e)) = S (redirects (proxy s)).
Proof.
  destruct e as [|i ok|remote|]; cbn.
  - done.
  - destruct (dialling s !! i) as [hostname|]; [|done].
    destruct ok; [|done]. cbn. unfold dialed, mbind, M_bind, bind, get.
    destruct (String.eqb hostname _); [|done].
    destruct (incrementSources_spec (proxy s)) as (-> & _). done.
  - unfold forwardReturns, mbind, M_bind, bind, get.
    destruct (String.eqb remote _); [|done].
    destruct (decrementSources_spec (proxy s))
      as (_ & [(-> & _)|(Hc & H1 & H0 & taken & ->)]); [done|].
    intros _. split; [eauto|]. rewrite redirects_in_app. cbn.
    repeat split; try done. lia.
  - done.
Qed.

Lemma step_allowance (s : Sys PQ) e :
  (allowance (proxy (step redirectTaken s e))
   <= allowance (proxy s) + (if counts_late s e then 1 else 0))%nat.
Proof.
  unfold allowance, counts_late.
  destruct e as [|i ok|remote|]; cbn.
  - lia.
  - destruct (dialling s !! i) as [hostname|]; [|destruct ok; lia].
    destruct ok; [|cbn; lia]. cbn. unfold dialed, mbind, M_bind, bind, get.
    destruct (String.eqb hostname _); [|cbn; lia].
    destruct (incrementSources_spec (proxy s)) as (-> & -> & [->|[-> Hn]]); [lia|].
    cbn. destruct (migrationComplete (proxy s)); cbn; [|lia].
    unfold busy. rewrite Hn.
    destruct (Z.ltb_spec 0 (connectionsToSource (proxy s) + 1));
      destruct (Z.ltb_spec 0 (connectionsToSource (proxy s))); lia.
  - unfold forwardReturns, mbind, M_bind, bind, get.
    destruct (String.eqb remote _); [|cbn; lia].
    destruct (decrementSources_spec (proxy s))
      as (-> & [(-> & Hb & _)|(Hc & H1 & H0 & taken & ->)]).
    + destruct (migrationComplete (proxy s)); lia.
    + rewrite Hc, redirects_in_app. unfold busy. rewrite H1, H0. cbn. lia.
  - change (length (List.filter is_redirect (log (proxy s)))) with (redirects (proxy s)).
    unfold busy. cbn [connectionsToSource set_migrationComplete].
    destruct (migrationComplete (proxy s));
      destruct (Z.ltb_spec 0 (connectionsToSource (proxy s))); lia.
Qed.

Lemma steps_bound tr : forall s : Sys PQ,
  (redirects (proxy (steps redirectTaken s tr))
   <= allowance (proxy s) + late redirectTaken s tr)%nat.
Proof.
  induction tr as [|e tr IH]; intros s; cbn.
  - unfold allowance. destruct (migrationComplete (proxy s)); lia.
  - etransitivity; [apply IH|].
    pose proof (step_allowance s e). lia.
Qed.

End RedirectFacts.

(** What does hold of the signal.  From a freshly reset proxy, along any
    sequence of connections, dials, disconnections and completion signals:
    [ReadyForRedirect] is sent on by the return of a forwarder only, and only
    when the migration is complete and that return takes the count of origin
    connections from one to zero; the number of sends is at most one more
    than the number of origin connections that were counted after the
    migration was already complete, hence at most one when there is no such
    connection.  Nothing in [decrementSources] remembers an earlier send. *)
Theorem redirect_signal_bound {PQ : Type} (redirectTaken : nat -> bool)
    source astra complete (pq : PQ) (tr : list Event) :
  let s0 := mkSys (reset source astra complete pq) [] in
  let s := steps redirectTaken s0 tr in
  (redirects_in (log (proxy s)) <= 1 + late redirectTaken s0 tr)%nat /\
  (late redirectTaken s0 tr = 0%nat -> (redirects_in (log (proxy s)) <= 1)%nat) /\
  (forall e,
     redirects_in (log (proxy (step redirectTaken s e))) <> redirects_in (log (proxy s)) ->
     (exists remote, e = Closed remote) /\
     migrationComplete (proxy s) = true /\
     connectionsToSource (proxy s) = 1 /\
     connectionsToSource (proxy (step redirectTaken s e)) = 0 /\
     redirects_in (log (proxy (step redirectTaken s e))) = S (redirects_in (log (proxy s)))).
Proof.
  intros s0 s.
  assert (Hb : (redirects_in (log (proxy s)) <= 1 + late redirectTaken s0 tr)%nat).
  { subst s. etransitivity; [apply steps_bound|].
    subst s0. unfold allowance, busy. cbn. destruct complete; cbn; lia. }
  split; [exact Hb|]. split; [lia|].
  intros e. apply step_redirect.
Qed.

(** One client connects, the migration completes, the client disconnects:
    that return sends the one signal. *)
Lemma redirect_signal_bound_witness :
  let tr := [Accepted; Dialed 0 true; Completed] in
  let s := steps (fun _ => true) sample_sys tr in
  let e := Closed "origin:9042" in
  late (fun _ => true) sample_sys tr = 0%nat /\
  redirects_in (log (proxy (step (fun _ => true) s e))) <> redirects_in (log (proxy s)) /\
  (redirects_in (log (proxy s)) <= 1)%nat /\
  migrationComplete (proxy s) = true /\
  connectionsToSource (proxy s) = 1 /\
  connectionsToSource (proxy (step (fun _ => true) s e)) = 0 /\
  redirects_in (log (proxy (step (fun _ => true) s e))) = 1%nat.
Proof.
  intros tr s e.
  assert (H1 : late (fun _ => true) sample_sys tr = 0%nat) by (vm_compute; reflexivity).
  assert (H2 : redirects_in (log (proxy (step (fun _ => true) s e)))
               <> redirects_in (log (proxy s))) by (vm_compute; discriminate).
  destruct (redirect_signal_bound (fun _ => true) "origin:9042" "astra:9042" false tt tr)
    as (_ & Hone & Hstep).
  destruct (Hstep e H2) as (_ & Hc & Hn & Hz & Hs).
  split; [exact H1|]. split; [exact H2|]. split; [exact (Hone H1)|].
  split; [exact Hc|]. split; [exact Hn|]. split; [exact Hz|].
  etransitivity; [exact Hs|]. vm_compute. reflexivity.
Defined.

(** In [late_dial_trace] the second client's connection is counted after
    the first return has already signalled, and its own return signals
    again. *)
Lemma redirect_signalled_twice :
  let s := steps (fun _ => true) sample_sys late_dial_trace in
  log (proxy s) = [Redirect true; Redirect true] /\
  redirects_in (log (proxy s)) = 2%nat /\
  ~ (redirects_in (log (proxy s)) <= 1)%nat.
Proof. vm_compute. repeat split. lia. Qed.

(** C4, on the code.  [handleDatabaseConnection] picks its host before
    [net.Dial] and counts the connection after it, and [decrementSources]
    keeps no record of an earlier send.  So a connection to the origin that
    was accepted before the migration completed and is counted after the
    count of origin connections has fallen to zero brings the count back to
    one, and its return takes it to zero again and sends on
    [ReadyForRedirect] once more, however many sends there have been; when
    nobody receives that send, the goroutine stays blocked in it with
    [p.lock] held. *)
Theorem redirect_signalled_again {PQ : Type} (redirectTaken : nat -> bool)
    (s : Sys PQ) (i : nat) :
  migrationComplete (proxy s) = true ->
  connectionsToSource (proxy s) = 0 ->
  lock (proxy s) = false ->
  dialling s !! i = Some (sourceHostString (proxy s)) ->
  let origin := sourceHostString (proxy s) in
  let s' := steps redirectTaken s [Dialed i true; Closed origin] in
  let taken := redirectTaken (redirects_in (log (proxy s))) in
  log (proxy s') = log (proxy s) ++ [Redirect taken] /\
  redirects_in (log (proxy s')) = S (redirects_in (log (proxy s))) /\
  connectionsToSource (proxy s') = 0 /\
  lock (proxy s') = negb taken.
Proof.
  intros Hc Hn Hl Hd origin s' taken. subst s' origin taken.
  unfold steps. cbn [foldl step]. rewrite Hd. cbn [proxy dialling].
  unfold dialed, mbind, M_bind, bind, get. rewrite String.eqb_refl.
  unfold incrementSources, locked. rewrite Hl. cbn [state_of].
  unfold forwardReturns, mbind, M_bind, bind, get.
  cbn [sourceHostString set_connectionsToSource]. rewrite String.eqb_refl.
  unfold decrementSources, locked.
  cbn [lock set_connectionsToSource connectionsToSource migrationComplete].
  rewrite Hl, Hc, Hn. cbn [Z.add Z.sub Z.opp Z.pos_sub Z.eqb andb].
  change (0 + 1 - 1 =? 0) with true. cbn [andb].
  cbn [log set_connectionsToSource].
  destruct (redirectTaken (redirects_in (log (proxy s))));
    cbn [state_of log emit set_lock set_connectionsToSource connectionsToSource
         lock negb proxy];
    rewrite redirects_in_app; (split; [done|]); (split; [cbn; lia|]); done.
Qed.

(** Two clients connect while the migration runs; the second is still inside
    [net.Dial] when the migration completes and the first disconnects, which
    sends the signal; the coordinator receives it, and receives only once.
    The second dial then ends and the second client disconnects: a second
    send, which blocks with [p.lock] held. *)
Lemma redirect_signalled_again_witness :
  let once := fun n : nat => Nat.eqb n 0 in
  let s := steps once sample_sys
             [Accepted; Dialed 0 true; Accepted; Completed; Closed "origin:9042"] in
  let s' := steps once s [Dialed 0 true; Closed "origin:9042"] in
  migrationComplete (proxy s) = true /\
  connectionsToSource (proxy s) = 0 /\
  lock (proxy s) = false /\
  dialling s !! 0%nat = Some (sourceHostString (proxy s)) /\
  log (proxy s) = [Redirect true] /\
  log (proxy s') = [Redirect true; Redirect false] /\
  redirects_in (log (proxy s')) = 2%nat /\
  lock (proxy s') = true.
Proof.
  intros once s s'.
  assert (H1 : migrationComplete (proxy s) = true) by reflexivity.
  assert (H2 : connectionsToSource (proxy s) = 0) by reflexivity.
  assert (H3 : lock (proxy s) = false) by reflexivity.
  assert (H4 : dialling s !! 0%nat = Some (sourceHostString (proxy s))) by reflexivity.
  assert (H5 : log (proxy s) = [Redirect true]) by reflexivity.
  destruct (redirect_signalled_again once s 0 H1 H2 H3 H4) as (A & B & _ & D).
  split; [exact H1|]. split; [exact H2|]. split; [exact H3|]. split; [exact H4|].
  split; [exact H5|]. split; [exact A|]. split; [exact B|exact D].
Defined.

(** ** The mirror classifier *)

Section ClassifierFacts.

Context {PQ : Type}.
Variable CassandraParseReply : PQ -> list byte -> PQ.
Variable CassandraParseRequest : PQ -> list byte -> PQ * list string * error.
Variable UnknownPreparedQueryPath : string.
Variable ToLower : string -> string.
Variable LoadingDataComplete : migration.Step.
Variable astraWrite : nat -> bool.

#[local] Existing Instance M_bind.

Lemma adds_bind {A B} P (m : M PQ A) (k : A -> M PQ B) :
  adds P m -> (forall a, adds P (k a)) -> adds P (bind m k).
Proof.
  intros Hm Hk p. unfold bind. destruct (Hm p) as (l & Hl & HP).
  destruct (m p) as [a p'|p'|p']; cbn in *; [|by exists l..].
  destruct (Hk a p') as (l' & Hl' & HP').
  exists (l ++ l'). rewrite Hl', Hl, app_assoc. split; [done|by apply Forall_app].
Qed.

Lemma adds_ret {A} P (a : A) : adds (PQ := PQ) P (ret a).
Proof. intros p. exists []. by rewrite app_nil_r. Qed.

Lemma adds_modify P (f : CQLProxy PQ -> CQLProxy PQ) :
  (forall p, log (f p) = log p) -> adds P (modify f).
Proof. intros Hf p. exists []. cbn. by rewrite Hf, app_nil_r. Qed.

(** Closes a goal [adds P m] for an [m] that is a case analysis ending in
    updates of the state and at most a few effects. *)
Ltac adds_cases :=
  intros p; cbv beta delta [locked]; 
  repeat case_match; cbn [state_of log emit set_queues set_queueLocks
    set_queueSizes set_tablePaused set_lock set_migrationComplete
    set_migrationStatus set_connectionsToSource set_Keyspace set_metrics
    set_preparedQueries];
  first [ by (exists []; split; [by rewrite app_nil_r|constructor])
        | by (rewrite <- ?app_assoc; eexists; split; [reflexivity|by repeat constructor]) ].

Lemma attempts_quiet n b : forall p : CQLProxy PQ,
  exists l, log (attempts astraWrite n b p) = log p ++ l /\ Forall quiet l.
Proof.
  induction n as [|n IH]; intros p; cbn.
  - exists []. by rewrite app_nil_r.
  - destruct (astraWrite _).
    + eexists. split; [reflexivity|by repeat constructor].
    + destruct (IH (emit (Sleep 500) (emit (TargetWrite b false) p))) as (l & -> & Hl).
      cbn. rewrite <- !app_assoc. eexists. split; [reflexivity|].
      by repeat constructor.
Qed.

Lemma execute_quiet q : adds (PQ := PQ) quiet (execute astraWrite q).
Proof. intros p. apply attempts_quiet. Qed.

Lemma lockLatch_quiet ks tn : adds (PQ := PQ) quiet (lockLatch ks tn).
Proof. unfold lockLatch. adds_cases. Qed.

Lemma addQueueSize_quiet ks tn d : adds (PQ := PQ) quiet (addQueueSize ks tn d).
Proof. unfold addQueueSize. adds_cases. Qed.

Lemma tableStatus_quiet ks tn : adds (PQ := PQ) quiet (tableStatus ks tn).
Proof. unfold tableStatus. adds_cases. Qed.

Lemma stopTable_quiet ks tn : adds (PQ := PQ) quiet (stopTable ks tn).
Proof. unfold stopTable, lockLatch. adds_cases. Qed.

Lemma queueQuery_quiet q : adds (PQ := PQ) quiet (queueQuery q).
Proof. unfold queueQuery, addQueueSize. adds_cases. Qed.

Lemma incrementReads_quiet : adds (PQ := PQ) quiet incrementReads.
Proof. by apply adds_modify. Qed.

Lemma adds_get P : adds (PQ := PQ) P get.
Proof. intros p. exists []. by rewrite app_nil_r. Qed.

Lemma adds_panic {A} P : adds (PQ := PQ) (A := A) P panic.
Proof. intros p. exists []. by rewrite app_nil_r. Qed.

Lemma adds_stay {A} P (o : Outcome PQ A) p :
  state_of o = p -> exists l, log (state_of o) = log p ++ l /\ Forall P l.
Proof. intros ->. exists []. by rewrite app_nil_r. Qed.

Lemma handleInsertQuery_quiet query ks tn :
  adds (PQ := PQ) quiet (handleInsertQuery query ks tn).
Proof.
  intros p. unfold handleInsertQuery.
  destruct (migrationStatus p); [|by apply adds_stay].
  destruct (at2 _ ks tn); [|by apply adds_stay].
  refine (adds_bind quiet _ _ _ _ p); [apply queueQuery_quiet|].
  intros _. apply adds_ret.
Qed.

(** The body the three write-class handlers share. *)
Lemma write_class_quiet qt table query ks tn (p : CQLProxy PQ) :
  exists l,
    log (state_of
           (((if negb (paused ks tn p) then
                step ← tableStatus ks tn;
                if negb (step =? LoadingDataComplete) then stopTable ks tn else ret tt
              else ret tt);;
             queueQuery (mkQuery (Some table) qt query);;
             ret (None : error)) p)) = log p ++ l /\ Forall quiet l.
Proof.
  refine (adds_bind quiet _ _ _ _ p).
  - destruct (negb (paused ks tn p)); [|apply adds_ret].
    apply adds_bind; [apply tableStatus_quiet|].
    intros step. destruct (negb (step =? LoadingDataComplete));
      [apply stopTable_quiet|apply adds_ret].
  - intros _. apply adds_bind; [apply queueQuery_quiet|].
    intros _. apply adds_ret.
Qed.

Lemma handleUpdateQuery_quiet query ks tn :
  adds (PQ := PQ) quiet (handleUpdateQuery LoadingDataComplete query ks tn).
Proof.
  intros p. unfold handleUpdateQuery.
  destruct (migrationStatus p); [|by apply adds_stay].
  destruct (at2 _ ks tn); [|by apply adds_stay].
  apply write_class_quiet.
Qed.

Lemma handleDeleteQuery_quiet query ks tn :
  adds (PQ := PQ) quiet (handleDeleteQuery LoadingDataComplete query ks tn).
Proof.
  intros p. unfold handleDeleteQuery.
  destruct (migrationStatus p); [|by apply adds_stay].
  destruct (at2 _ ks tn); [|by apply adds_stay].
  apply write_class_quiet.
Qed.

Lemma handleTruncateQuery_quiet query ks tn :
  adds (PQ := PQ) quiet (handleTruncateQuery LoadingDataComplete query ks tn).
Proof.
  intros p. unfold handleTruncateQuery.
  destruct (migrationStatus p); [|by apply adds_stay].
  destruct (at2 _ ks tn); [|by apply adds_stay].
  apply write_class_quiet.
Qed.

Lemma handleUseQuery_quiet query keyspace :
  adds (PQ := PQ) quiet (handleUseQuery ToLower astraWrite query keyspace).
Proof.
  intros p. unfold handleUseQuery.
  destruct (useKeyspace ToLower keyspace); [|by apply adds_stay].
  destruct (migrationStatus p) as [tables|]; [|by apply adds_stay].
  destruct (tables !! _); [|by apply adds_stay].
  refine (adds_bind quiet _ _ _ _ p); [by apply adds_modify|].
  intros _. apply execute_quiet.
Qed.

Lemma mirrorPath_quiet data path :
  adds (PQ := PQ) quiet
    (mirrorPath UnknownPreparedQueryPath ToLower LoadingDataComplete astraWrite data path).
Proof.
  unfold mirrorPath.
  destruct (String.eqb path UnknownPreparedQueryPath); [apply adds_ret|].
  cbv zeta. destruct (len (Split path "/") >? 2); [|apply execute_quiet].
  destruct (Split path "/") as [|f0 [|opcode [|action rest]]]; try apply adds_ret.
  destruct (String.eqb opcode "prepare"); [apply execute_quiet|].
  destruct (_ || _); [|apply adds_ret].
  destruct rest as [|ref rest]; [apply adds_panic|].
  destruct (extractTableInfo ref) as [keyspace table].
  apply adds_bind; [apply adds_get|]. intros p'.
  destruct (String.eqb action "use"); [apply handleUseQuery_quiet|].
  destruct (String.eqb action "insert"); [apply handleInsertQuery_quiet|].
  destruct (String.eqb action "update"); [apply handleUpdateQuery_quiet|].
  destruct (String.eqb action "delete"); [apply handleDeleteQuery_quiet|].
  destruct (String.eqb action "truncate"); [apply handleTruncateQuery_quiet|].
  destruct (String.eqb action "select"); [|apply adds_ret].
  apply adds_bind; [apply incrementReads_quiet|]. intros _. apply adds_ret.
Qed.

End ClassifierFacts.

(** C7, on the code.  [mirrorData] looks at the compression flag first and
    gives up on a flagged frame, reply or not.  An unflagged frame goes to the
    reply parser, and to nothing else, exactly when its first byte is greater
    than 0x80; every other unflagged frame, first byte 0x80 included, goes to
    the request parser and is never shown to the reply parser. *)
Theorem mirrorData_direction {PQ : Type}
    (CassandraParseReply : PQ -> list byte -> PQ)
    (CassandraParseRequest : PQ -> list byte -> PQ * list string * error)
    (UnknownPreparedQueryPath : string) (ToLower : string -> string)
    (LoadingDataComplete : migration.Step) (astraWrite : nat -> bool)
    (b0 b1 : byte) (rest : list byte) (p : CQLProxy PQ) :
  let data := b0 :: b1 :: rest in
  let r := mirrorData CassandraParseReply CassandraParseRequest
             UnknownPreparedQueryPath ToLower LoadingDataComplete astraWrite data p in
  (Z.land (byte_val b1) 1 = 1 -> r = Ret compression_error p) /\
  (Z.land (byte_val b1) 1 <> 1 -> byte_val b0 > 128 ->
   r = Ret None (emit (ParseReply data)
                   (set_preparedQueries (CassandraParseReply (preparedQueries p) data) p))) /\
  (Z.land (byte_val b1) 1 <> 1 -> byte_val b0 <= 128 ->
   exists l, log (state_of r) = log p ++ ParseRequest data :: l /\ Forall quiet l).
Proof.
  intros data r. subst r data. unfold mirrorData. cbv beta iota zeta.
  set (data := b0 :: b1 :: rest).
  destruct (Z.eqb_spec (Z.land (byte_val b1) 1) 1) as [Hc|Hc].
  { split; [done|]. split; intros; done. }
  split; [done|].
  destruct (Z.gtb_spec (byte_val b0) 128) as [Hr|Hr].
  { split; [done|]. intros; lia. }
  split; [intros; lia|]. intros _ _.
  unfold mbind, M_bind, bind, get.
  destruct (CassandraParseRequest (preparedQueries p) data) as [[pq paths] err].
  cbn [modify].
  set (p1 := emit (ParseRequest data) (set_preparedQueries pq p)).
  assert (Hp1 : log p1 = log p ++ [ParseRequest data]) by reflexivity.
  assert (Hhere : forall o : Outcome PQ error,
            (exists l, log (state_of o) = log p1 ++ l /\ Forall quiet l) ->
            exists l, log (state_of o) = log p ++ ParseRequest data :: l /\ Forall quiet l).
  { intros o (l & Hl & HP). exists l. rewrite Hl, Hp1, <- app_assoc. done. }
  apply Hhere.
  destruct err as [e|]; [by apply adds_stay|].
  destruct paths as [|path [|path' paths]]; [by apply adds_stay| |by apply adds_stay].
  apply mirrorPath_quiet.
Qed.

(** The frame [frame_0x80] has its compression flag clear and its first byte
    equal to 0x80: it is handed to the request parser, whose error comes
    back; the reply parser is not called. *)
Lemma mirrorData_direction_witness :
  let p := sample_proxy 0 in
  let r := mirrorData deaf_reply deaf_request "unknown" asciiLower 5 (fun _ => true)
             frame_0x80 p in
  Z.land (byte_val x00) 1 <> 1 /\ byte_val x80 <= 128 /\
  r = Ret (Some "not a request"%string) (emit (ParseRequest frame_0x80) p) /\
  exists l, log (state_of r) = log p ++ ParseRequest frame_0x80 :: l /\ Forall quiet l.
Proof.
  intros p r.
  assert (H1 : Z.land (byte_val x00) 1 <> 1) by discriminate.
  assert (H2 : byte_val x80 <= 128) by discriminate.
  split; [exact H1|]. split; [exact H2|]. split; [reflexivity|].
  exact (proj2 (proj2 (mirrorData_direction deaf_reply deaf_request "unknown" asciiLower 5
                         (fun _ => true) x80 x00 [x00; x01; x07; x00; x00; x00; x00] p))
           H1 H2).
Defined.

(** ** USE *)

Lemma attempts_first {PQ : Type} (astraWrite : nat -> bool) n b (p : CQLProxy PQ) :
  exists l,
    log (attempts astraWrite (S n) b p)
    = log p ++ TargetWrite b (astraWrite (writes_in (log p))) :: l.
Proof.
  cbn. destruct (astraWrite (writes_in (log p))).
  - by exists [].
  - destruct (attempts_spec astraWrite n b
                (emit (Sleep 500) (emit (TargetWrite b false) p))) as (l & -> & _).
    cbn. rewrite <- !app_assoc. by eexists.
Qed.

Lemma attempts_Keyspace {PQ : Type} (astraWrite : nat -> bool) n b (p : CQLProxy PQ) :
  Keyspace (attempts astraWrite n b p) = Keyspace p.
Proof. by destruct (attempts_spec astraWrite n b p) as (l & -> & _). Qed.

(** C10.  Let the token of a USE statement normalise to a keyspace [ks] (it
    does unless it is a lone double quote) in a proxy that holds a migration
    status.  If [ks] is not a key of the status' tables, [handleUseQuery]
    returns an error and leaves the proxy exactly as it was: same [Keyspace],
    nothing written to the target.  If it is, [Keyspace] becomes [ks] and the
    query is executed against the target, the first new effect being the
    write of its bytes.  And the proxy changes only in that second case. *)
Theorem handleUseQuery_known_keyspace {PQ : Type}
    (ToLower : string -> string) (astraWrite : nat -> bool)
    (query : list byte) (keyspace : string) (p : CQLProxy PQ) :
  let r := handleUseQuery ToLower astraWrite query keyspace p in
  (forall ks tables,
     useKeyspace ToLower keyspace = Some ks ->
     migrationStatus p = Some tables ->
     (tables !! ks = None -> r = Ret (Some "invalid keyspace"%string) p) /\
     (is_Some (tables !! ks) ->
      exists p' l,
        r = Ret None p' /\
        p' = state_of (execute astraWrite (mkQuery None USE query) (set_Keyspace ks p)) /\
        Keyspace p' = ks /\
        log p' = log p ++ TargetWrite query (astraWrite (writes_in (log p))) :: l)) /\
  (state_of r <> p ->
   exists ks tables,
     useKeyspace ToLower keyspace = Some ks /\
     migrationStatus p = Some tables /\ is_Some (tables !! ks)).
Proof.
  intros r. subst r. unfold handleUseQuery. split.
  - intros ks tables -> ->. split.
    + by intros ->.
    + intros [t ->]. unfold mbind, M_bind, bind, modify. rewrite execute_spec.
      destruct (attempts_first astraWrite 4 query (set_Keyspace ks p)) as (l & Hl).
      eexists _, l. split; [reflexivity|]. split; [reflexivity|].
      split; [by rewrite attempts_Keyspace|exact Hl].
  - destruct (useKeyspace ToLower keyspace) as [ks|]; [|done].
    destruct (migrationStatus p) as [tables|]; [|done].
    destruct (tables !! ks) as [t|] eqn:Hks; [|done].
    intros _. exists ks, tables. rewrite Hks. eauto.
Qed.

(** USE of the unknown keyspace [ks2], then of [KS1], on the sample proxy. *)
Lemma handleUseQuery_known_keyspace_witness :
  let p := sample_proxy 0 in
  let query := QQuery sample_query in
  useKeyspace asciiLower "ks2" = Some "ks2"%string /\
  useKeyspace asciiLower "KS1" = Some "ks1"%string /\
  migrationStatus p = Some (sample_status 0) /\
  sample_status 0 !! "ks2"%string = None /\
  is_Some (sample_status 0 !! "ks1"%string) /\
  handleUseQuery asciiLower (fun _ => true) query "ks2" p
  = Ret (Some "invalid keyspace"%string) p /\
  exists p' l,
    handleUseQuery asciiLower (fun _ => true) query "KS1" p = Ret None p' /\
    Keyspace p' = "ks1"%string /\
    log p' = log p ++ TargetWrite query true :: l.
Proof.
  intros p query.
  assert (H1 : useKeyspace asciiLower "ks2" = Some "ks2"%string) by reflexivity.
  assert (H2 : useKeyspace asciiLower "KS1" = Some "ks1"%string) by reflexivity.
  assert (H3 : migrationStatus p = Some (sample_status 0)) by reflexivity.
  assert (H4 : sample_status 0 !! "ks2"%string = None) by (vm_compute; reflexivity).
  assert (H5 : is_Some (sample_status 0 !! "ks1"%string)) by (vm_compute; eauto).
  split; [exact H1|]. split; [exact H2|]. split; [exact H3|].
  split; [exact H4|]. split; [exact H5|]. split.
  - exact (proj1 (proj1 (handleUseQuery_known_keyspace asciiLower (fun _ => true)
                           query "ks2" p) "ks2"%string (sample_status 0) H1 H3) H4).
  - destruct (proj2 (proj1 (handleUseQuery_known_keyspace asciiLower (fun _ => true)
                              query "KS1" p) "ks1"%string (sample_status 0) H2 H3) H5)
      as (p' & l & Hr & _ & Hk & Hl).
    exists p', l. split; [exact Hr|]. split; [exact Hk|exact Hl].
Defined.

(** * Part III: more of the code *)

(** ** What the mirror path leaves alone *)

Lemma both2_refl {V} (R : V -> V -> Prop) m : (forall v, R v v) -> both2 R m m.
Proof.
  intros HR ks tn. destruct (m !! ks) as [inner|]; [|done].
  destruct (inner !! tn); [apply HR|done].
Qed.

Lemma both2_trans {V} (R : V -> V -> Prop) m1 m2 m3 :
  (forall a b c, R a b -> R b c -> R a c) ->
  both2 R m1 m2 -> both2 R m2 m3 -> both2 R m1 m3.
Proof.
  intros HR H12 H23 ks tn. specialize (H12 ks tn). specialize (H23 ks tn).
  destruct (m1 !! ks) as [i1|], (m2 !! ks) as [i2|], (m3 !! ks) as [i3|]; try done.
  destruct (i1 !! tn), (i2 !! tn), (i3 !! tn); try done. eauto.
Qed.

Lemma both2_insert {V} (R : V -> V -> Prop) m ks tn inner v v' :
  (forall x, R x x) -> m !! ks = Some inner -> inner !! tn = Some v -> R v v' ->
  both2 R m (<[ks := <[tn := v']> inner]> m).
Proof.
  intros HR Hks Htn Hv ks' tn'.
  destruct (decide (ks' = ks)) as [->|Hne].
  - rewrite Hks, lookup_insert_eq. destruct (decide (tn' = tn)) as [->|Hne'].
    + by rewrite Htn, lookup_insert_eq.
    + rewrite lookup_insert_ne by done. destruct (inner !! tn'); [apply HR|done].
  - rewrite lookup_insert_ne by done. destruct (m !! ks') as [i|]; [|done].
    destruct (i !! tn'); [apply HR|done].
Qed.

Lemma both2_at2 {V} (R : V -> V -> Prop) m m' ks tn v :
  both2 R m m' -> at2 m ks tn = Some v -> exists v', at2 m' ks tn = Some v' /\ R v v'.
Proof.
  intros H Hv. specialize (H ks tn). unfold at2 in *.
  destruct (m !! ks) as [i|], (m' !! ks) as [i'|]; try done.
  rewrite Hv in H. destruct (i' !! tn) as [v'|]; [|done]. by exists v'.
Qed.

Lemma both2_at2_back {V} (R : V -> V -> Prop) m m' ks tn v' :
  both2 R m m' -> at2 m' ks tn = Some v' -> exists v, at2 m ks tn = Some v /\ R v v'.
Proof.
  intros H Hv. specialize (H ks tn). unfold at2 in *.
  destruct (m !! ks) as [i|], (m' !! ks) as [i'|]; try done.
  rewrite Hv in H. destruct (i !! tn) as [v|]; [|done]. by exists v.
Qed.

Section MirrorFrame.

Context {PQ : Type}.
Variable CassandraParseReply : PQ -> list byte -> PQ.
Variable CassandraParseRequest : PQ -> list byte -> PQ * list string * error.
Variable UnknownPreparedQueryPath : string.
Variable ToLower : string -> string.
Variable LoadingDataComplete : migration.Step.
Variable astraWrite : nat -> bool.

#[local] Existing Instance M_bind.

Let grows (q q' : list Query) : Prop :=
  q `prefix_of` q' /\ (len q <= queueSize -> len q' <= queueSize).
Let keeps (held held' : bool) : Prop := held = true -> held' = true.

Lemma grows_refl q : grows q q.
Proof. split; done. Qed.

Lemma grows_trans a b c : grows a b -> grows b c -> grows a c.
Proof. intros [H1 H2] [H3 H4]. split; [by etransitivity|auto]. Qed.

Lemma mirror_only_refl (p : CQLProxy PQ) : mirror_only p p.
Proof.
  unfold mirror_only. split_and!; try done.
  - by apply both2_refl.
  - by apply both2_refl.
Qed.

Lemma mirror_only_trans (p1 p2 p3 : CQLProxy PQ) :
  mirror_only p1 p2 -> mirror_only p2 p3 -> mirror_only p1 p3.
Proof.
  intros (A1 & A2 & A3 & A4 & A5 & A6 & (A7 & A8 & A9 & A10 & A11) & A12 & A13 & A14 & A15 & A16)
         (B1 & B2 & B3 & B4 & B5 & B6 & (B7 & B8 & B9 & B10 & B11) & B12 & B13 & B14 & B15 & B16).
  unfold mirror_only. split_and!; try congruence.
  - lia.
  - eapply both2_trans; [|exact A12|exact B12]. apply grows_trans.
  - eapply both2_trans; [|exact A13|exact B13]. unfold keeps. auto.
  - auto.
  - auto.
  - by etransitivity.
Qed.

Lemma evolves_bind {A B} (m : M PQ A) (k : A -> M PQ B) :
  evolves mirror_only m -> (forall a, evolves mirror_only (k a)) ->
  evolves mirror_only (bind m k).
Proof.
  intros Hm Hk p. specialize (Hm p). unfold bind.
  destruct (m p) as [a p'|p'|p']; try exact Hm.
  eapply mirror_only_trans; [exact Hm|apply Hk].
Qed.

Lemma evolves_ret {A} (a : A) : evolves (PQ := PQ) mirror_only (ret a).
Proof. intros p. apply mirror_only_refl. Qed.

Lemma evolves_get : evolves (PQ := PQ) mirror_only get.
Proof. intros p. apply mirror_only_refl. Qed.

Lemma evolves_panic {A} : evolves (PQ := PQ) (A := A) mirror_only panic.
Proof. intros p. apply mirror_only_refl. Qed.

Lemma evolves_stay {A} (o : Outcome PQ A) p : state_of o = p -> mirror_only p (state_of o).
Proof. intros ->. apply mirror_only_refl. Qed.

(** A change of the log, the keyspace in use and the registry of prepared
    statements alone. *)
Lemma mirror_only_log (p : CQLProxy PQ) ks pq l :
  mirror_only p
    (mkProxy (sourceHostString p) (astraHostString p) (queues p) (queueLocks p)
       (queueSizes p) (tablePaused p) (lock p) (migrationComplete p)
       (migrationStatus p) (connectionsToSource p) ks (metrics p) pq (log p ++ l)).
Proof.
  unfold mirror_only, paused. cbn. split_and!; try done.
  - by apply both2_refl.
  - by apply both2_refl.
  - by apply prefix_app_r.
Qed.

Lemma attempts_evolves n b (p : CQLProxy PQ) : mirror_only p (attempts astraWrite n b p).
Proof.
  destruct (attempts_spec astraWrite n b p) as (l & -> & _). apply mirror_only_log.
Qed.

Lemma execute_evolves q : evolves (PQ := PQ) mirror_only (execute astraWrite q).
Proof. intros p. apply attempts_evolves. Qed.

Lemma lockLatch_evolves ks tn : evolves (PQ := PQ) mirror_only (lockLatch ks tn).
Proof.
  intros p. unfold lockLatch.
  destruct (queueLocks p !! ks) as [inner|] eqn:Hks; [|apply mirror_only_refl].
  destruct (inner !! tn) as [[|]|] eqn:Htn; try apply mirror_only_refl.
  unfold mirror_only, paused. cbn. split_and!; try done.
  - by apply both2_refl.
  - eapply both2_insert; [done|exact Hks|exact Htn|done].
  - by apply prefix_app_r.
Qed.

Lemma addQueueSize_evolves ks tn d : evolves (PQ := PQ) mirror_only (addQueueSize ks tn d).
Proof.
  intros p. unfold addQueueSize, locked.
  destruct (lock p); [apply mirror_only_refl|].
  destruct (put2 _ _ _ _) as [m|] eqn:Hput; [|apply mirror_only_refl].
  unfold mirror_only, paused. cbn. split_and!; try done.
  - by apply both2_refl.
  - by apply both2_refl.
  - intros ks' Hs. unfold put2 in Hput.
    destruct (queueSizes p !! ks) as [sizes|]; [|done]. injection Hput as <-.
    destruct (decide (ks' = ks)) as [->|Hne];
      [by rewrite lookup_insert_eq|by rewrite lookup_insert_ne].
Qed.

Lemma tableStatus_evolves ks tn : evolves (PQ := PQ) mirror_only (tableStatus ks tn).
Proof.
  intros p. unfold tableStatus. repeat case_match; apply mirror_only_refl.
Qed.

Lemma paused_put2 (p : CQLProxy PQ) ks tn m ks' tn' :
  put2 (tablePaused p) ks tn true = Some m ->
  default false (at2 (tablePaused p) ks' tn') = true ->
  default false (at2 m ks' tn') = true.
Proof.
  unfold put2, at2. destruct (tablePaused p !! ks) as [inner|] eqn:Hks; [|done].
  intros [= <-].
  destruct (decide (ks' = ks)) as [->|Hne].
  - rewrite Hks, lookup_insert_eq. destruct (decide (tn' = tn)) as [->|Hne'].
    + by rewrite lookup_insert_eq.
    + by rewrite lookup_insert_ne.
  - by rewrite lookup_insert_ne.
Qed.

Lemma stopTable_evolves ks tn : evolves (PQ := PQ) mirror_only (stopTable ks tn).
Proof.
  intros p. unfold stopTable.
  destruct (put2 (tablePaused p) ks tn true) as [m|] eqn:Hput; [|apply mirror_only_refl].
  eapply mirror_only_trans; [|apply lockLatch_evolves].
  unfold mirror_only, paused. cbn. split_and!; try done.
  - by apply both2_refl.
  - by apply both2_refl.
  - intros ks' tn'. by apply (paused_put2 p ks tn).
  - by apply prefix_app_r.
Qed.

Lemma queueQuery_evolves q : evolves (PQ := PQ) mirror_only (queueQuery q).
Proof.
  intros p. unfold queueQuery.
  destruct (QTable q) as [table|]; [|apply mirror_only_refl].
  cbv zeta.
  destruct (queues p !! _) as [inner|] eqn:Hks; [|apply mirror_only_refl].
  destruct (inner !! _) as [qs|] eqn:Htn; [|apply mirror_only_refl].
  destruct (Z.ltb_spec (len qs) queueSize) as [Hroom|Hfull]; [|apply mirror_only_refl].
  eapply mirror_only_trans; [|apply addQueueSize_evolves].
  unfold mirror_only, paused. cbn. split_and!; try done.
  - eapply both2_insert; [apply grows_refl|exact Hks|exact Htn|].
    split; [by apply prefix_app_r|]. intros _. unfold len in *.
    rewrite length_app. cbn. lia.
  - by apply both2_refl.
  - by apply prefix_app_r.
Qed.

Lemma incrementReads_evolves : evolves (PQ := PQ) mirror_only incrementReads.
Proof.
  intros p. unfold mirror_only, paused. cbn. split_and!; try done.
  - lia.
  - by apply both2_refl.
  - by apply both2_refl.
Qed.

Lemma handleInsertQuery_evolves query ks tn :
  evolves (PQ := PQ) mirror_only (handleInsertQuery query ks tn).
Proof.
  intros p. unfold handleInsertQuery.
  destruct (migrationStatus p); [|by apply evolves_stay].
  destruct (at2 _ ks tn); [|by apply evolves_stay].
  refine (evolves_bind _ _ _ _ p); [apply queueQuery_evolves|].
  intros _. apply evolves_ret.
Qed.

Lemma write_class_evolves qt table query ks tn (p : CQLProxy PQ) :
  mirror_only p
    (state_of
       (((if negb (paused ks tn p) then
            step ← tableStatus ks tn;
            if negb (step =? LoadingDataComplete) then stopTable ks tn else ret tt
          else ret tt);;
         queueQuery (mkQuery (Some table) qt query);;
         ret (None : error)) p)).
Proof.
  refine (evolves_bind _ _ _ _ p).
  - destruct (negb (paused ks tn p)); [|apply evolves_ret].
    apply evolves_bind; [apply tableStatus_evolves|].
    intros step. destruct (negb (step =? LoadingDataComplete));
      [apply stopTable_evolves|apply evolves_ret].
  - intros _. apply evolves_bind; [apply queueQuery_evolves|].
    intros _. apply evolves_ret.
Qed.

Lemma handleUpdateQuery_evolves query ks tn :
  evolves (PQ := PQ) mirror_only (handleUpdateQuery LoadingDataComplete query ks tn).
Proof.
  intros p. unfold handleUpdateQuery.
  destruct (migrationStatus p); [|by apply evolves_stay].
  destruct (at2 _ ks tn); [|by apply evolves_stay].
  apply write_class_evolves.
Qed.

Lemma handleDeleteQuery_evolves query ks tn :
  evolves (PQ := PQ) mirror_only (handleDeleteQuery LoadingDataComplete query ks tn).
Proof.
  intros p. unfold handleDeleteQuery.
  destruct (migrationStatus p); [|by apply evolves_stay].
  destruct (at2 _ ks tn); [|by apply evolves_stay].
  apply write_class_evolves.
Qed.

Lemma handleTruncateQuery_evolves query ks tn :
  evolves (PQ := PQ) mirror_only (handleTruncateQuery LoadingDataComplete query ks tn).
Proof.
  intros p. unfold handleTruncateQuery.
  destruct (migrationStatus p); [|by apply evolves_stay].
  destruct (at2 _ ks tn); [|by apply evolves_stay].
  apply write_class_evolves.
Qed.

Lemma handleUseQuery_evolves query keyspace :
  evolves (PQ := PQ) mirror_only (handleUseQuery ToLower astraWrite query keyspace).
Proof.
  intros p. unfold handleUseQuery.
  destruct (useKeyspace ToLower keyspace) as [ks|]; [|by apply evolves_stay].
  destruct (migrationStatus p) as [tables|]; [|by apply evolves_stay].
  destruct (tables !! _); [|by apply evolves_stay].
  refine (evolves_bind _ _ _ _ p); [|intros _; apply execute_evolves].
  intros p0. cbn. pose proof (mirror_only_log p0 ks (preparedQueries p0) []) as H.
  by rewrite app_nil_r in H.
Qed.

Lemma mirrorPath_evolves data path :
  evolves (PQ := PQ) mirror_only
    (mirrorPath UnknownPreparedQueryPath ToLower LoadingDataComplete astraWrite data path).
Proof.
  unfold mirrorPath.
  destruct (String.eqb path UnknownPreparedQueryPath); [apply evolves_ret|].
  cbv zeta. destruct (len (Split path "/") >? 2); [|apply execute_evolves].
  destruct (Split path "/") as [|f0 [|opcode [|action rest]]]; try apply evolves_ret.
  destruct (String.eqb opcode "prepare"); [apply execute_evolves|].
  destruct (_ || _); [|apply evolves_ret].
  destruct rest as [|ref rest]; [apply evolves_panic|].
  destruct (extractTableInfo ref) as [keyspace table].
  apply evolves_bind; [apply evolves_get|]. intros p0. cbv zeta.
  destruct (String.eqb action "use"); [apply handleUseQuery_evolves|].
  destruct (String.eqb action "insert"); [apply handleInsertQuery_evolves|].
  destruct (String.eqb action "update"); [apply handleUpdateQuery_evolves|].
  destruct (String.eqb action "delete"); [apply handleDeleteQuery_evolves|].
  destruct (String.eqb action "truncate"); [apply handleTruncateQuery_evolves|].
  destruct (String.eqb action "select"); [|apply evolves_ret].
  apply evolves_bind; [apply incrementReads_evolves|intros _; apply evolves_ret].
Qed.

(** Whatever the frame and whatever the parser answers, [mirrorData] changes
    the proxy within [mirror_only]. *)
Lemma mirrorData_evolves data :
  evolves (PQ := PQ) mirror_only
    (mirrorData CassandraParseReply CassandraParseRequest UnknownPreparedQueryPath
       ToLower LoadingDataComplete astraWrite data).
Proof.
  unfold mirrorData. destruct data as [|b0 [|b1 rest]]; try apply evolves_panic.
  cbv zeta. destruct (_ =? 1); [apply evolves_ret|].
  destruct (_ >? 128).
  - apply evolves_bind; [|intros _; apply evolves_ret].
    intros p. exact (mirror_only_log p (Keyspace p) _ [ParseReply _]).
  - apply evolves_bind; [apply evolves_get|]. intros p0.
    destruct (CassandraParseRequest _ _) as [[pq paths] err].
    apply evolves_bind.
    { intros p. exact (mirror_only_log p (Keyspace p) _ [ParseRequest _]). }
    intros _. destruct err; [apply evolves_ret|].
    destruct paths as [|path [|]]; try apply evolves_ret.
    apply mirrorPath_evolves.
Qed.

End MirrorFrame.

(** ** A forwarder from start to return *)

Section PumpFacts.

Context {P : Type}.
Variable dstWrite : nat -> bool.
Variable afterWrite : list byte -> P -> P * bool.
Variable atReturn : P -> P.

(** A preorder that the work after a write and the deferred work stay in is
    kept by the whole run. *)
Variable R : P -> P -> Prop.
Hypothesis R_refl : forall p, R p p.
Hypothesis R_trans : forall a b c, R a b -> R b c -> R a c.
Hypothesis afterWrite_R : forall q p, R p (afterWrite q p).1.
Hypothesis atReturn_R : forall p, R p (atReturn p).

Lemma drain_rel fuel : forall s p, R p (drain dstWrite afterWrite fuel s p).2.
Proof.
  induction fuel as [|fuel IH]; intros s p; simpl; [done|].
  destruct (peel (data s)) as [[q r]|]; [|done].
  destruct (dstWrite (nwrites s)); [|apply IH].
  pose proof (afterWrite_R q p) as Hq.
  destruct (afterWrite q p) as [p1 [|]]; simpl in *; [|done].
  eapply R_trans; [exact Hq|apply IH].
Qed.

Lemma pump_rel fuel reads : forall s p,
  R p (pump dstWrite afterWrite atReturn fuel reads s p).2.
Proof.
  induction reads as [|[chunk|] reads IH]; intros s p; simpl; [done| |done].
  pose proof (drain_rel fuel (mkFwd (data s ++ chunk) (out s) (nwrites s)) p) as Hd.
  destruct (drain _ _ fuel _ p) as [[st1 s1] p1]. simpl in Hd.
  destruct st1; try done. eapply R_trans; [exact Hd|apply IH].
Qed.

(** A counter that the work after a write steps by one when it comes back,
    and that nothing else moves, counts the frames written. *)
Variable c : P -> Z.
Hypothesis afterWrite_c : forall q p,
  c (afterWrite q p).1 = c p + (if (afterWrite q p).2 then 1 else 0).
Hypothesis atReturn_c : forall p, c (atReturn p) = c p.

Lemma drain_count fuel : forall s p,
  let r := drain dstWrite afterWrite fuel s p in
  c r.2 = c p + len (out r.1.2) - len (out s) - Demarshal.short r.1.1.
Proof.
  induction fuel as [|fuel IH]; intros s p; simpl; [lia|].
  destruct (peel (data s)) as [[q r]|]; [|simpl; lia].
  destruct (dstWrite (nwrites s)).
  - pose proof (afterWrite_c q p) as Hq.
    destruct (afterWrite q p) as [p1 [|]]; simpl in *.
    + rewrite IH. simpl. rewrite Hq. unfold len. rewrite length_app. simpl. lia.
    + rewrite Hq. unfold len. rewrite length_app. simpl. lia.
  - rewrite IH. simpl. lia.
Qed.

Lemma pump_count fuel reads : forall s p,
  let r := pump dstWrite afterWrite atReturn fuel reads s p in
  c r.2 = c p + len (out r.1.2) - len (out s) - Demarshal.short r.1.1.
Proof.
  induction reads as [|[chunk|] reads IH]; intros s p; simpl;
    [lia| |rewrite atReturn_c; lia].
  pose proof (drain_count fuel (mkFwd (data s ++ chunk) (out s) (nwrites s)) p) as Hd.
  destruct (drain _ _ fuel _ p) as [[st1 s1] p1]. simpl in Hd.
  destruct st1; try (cbn in *; lia).
  rewrite IH. cbn in *. lia.
Qed.

End PumpFacts.

Section ForwardFrame.

Context {PQ : Type}.
Variable CassandraParseReply : PQ -> list byte -> PQ.
Variable CassandraParseRequest : PQ -> list byte -> PQ * list string * error.
Variable UnknownPreparedQueryPath : string.
Variable ToLower : string -> string.
Variable LoadingDataComplete : migration.Step.
Variable astraWrite : nat -> bool.
Variable redirectTaken : nat -> bool.

Let mirror :=
  mirrorData CassandraParseReply CassandraParseRequest UnknownPreparedQueryPath
    ToLower LoadingDataComplete astraWrite.
Let after :=
  forwarded CassandraParseReply CassandraParseRequest UnknownPreparedQueryPath
    ToLower LoadingDataComplete astraWrite.
Let afterW :=
  afterWrite CassandraParseReply CassandraParseRequest UnknownPreparedQueryPath
    ToLower LoadingDataComplete astraWrite.

Lemma forward_only_refl (p : CQLProxy PQ) : forward_only p p.
Proof.
  unfold forward_only. split_and!; try done; by apply both2_refl.
Qed.

Lemma forward_only_trans (p1 p2 p3 : CQLProxy PQ) :
  forward_only p1 p2 -> forward_only p2 p3 -> forward_only p1 p3.
Proof.
  intros (A1 & A2 & A4 & A5 & (A8 & A9 & A10) & A12 & A13 & A14)
         (B1 & B2 & B4 & B5 & (B8 & B9 & B10) & B12 & B13 & B14).
  unfold forward_only. split_and!; try congruence.
  - eapply both2_trans; [|exact A12|exact B12].
    intros a b c [H1 H2] [H3 H4]. split; [by etransitivity|auto].
  - eapply both2_trans; [|exact A13|exact B13]. auto.
  - auto.
Qed.

Lemma mirror_forward_only (p p' : CQLProxy PQ) : mirror_only p p' -> forward_only p p'.
Proof.
  intros (A1 & A2 & A3 & A4 & A5 & A6 & (A7 & A8 & A9 & A10 & A11) & A12 & A13 & A14 & A15).
  unfold forward_only. done.
Qed.

(** Changes of [p.lock], the connection count, the packet count and the log
    are within [forward_only]. *)
Ltac forward_only_same :=
  unfold forward_only, paused; cbn; split_and!; try done; by apply both2_refl.

Lemma incrementPackets_forward_only (p : CQLProxy PQ) :
  forward_only p (state_of (incrementPackets p)).
Proof. forward_only_same. Qed.

Lemma decrementSources_forward_only (p : CQLProxy PQ) :
  forward_only p (state_of (decrementSources redirectTaken p)).
Proof.
  unfold decrementSources, locked.
  destruct (lock p) eqn:Hl; [apply forward_only_refl|].
  cbv zeta. cbn [migrationComplete connectionsToSource set_connectionsToSource].
  destruct (migrationComplete p && _); [destruct (redirectTaken _)|];
    forward_only_same.
Qed.

Lemma forwardReturns_forward_only remote (p : CQLProxy PQ) :
  forward_only p (state_of (forwardReturns redirectTaken remote p)).
Proof.
  unfold forwardReturns, mbind, M_bind, bind, get.
  destruct (String.eqb remote (sourceHostString p));
    [apply decrementSources_forward_only|apply forward_only_refl].
Qed.

Lemma forwarded_forward_only remote query (p : CQLProxy PQ) :
  forward_only p (state_of (after remote query p)).
Proof.
  unfold after, forwarded, mbind, M_bind, bind, get.
  destruct (String.eqb remote (sourceHostString p)).
  - pose proof (mirrorData_evolves CassandraParseReply CassandraParseRequest
                  UnknownPreparedQueryPath ToLower LoadingDataComplete astraWrite
                  query p) as Hm.
    fold mirror in Hm |- *. apply mirror_forward_only in Hm.
    destruct (mirror query p) as [e p'|p'|p']; cbn [state_of ret] in *;
      [|exact Hm..].
    eapply forward_only_trans; [exact Hm|apply incrementPackets_forward_only].
  - apply incrementPackets_forward_only.
Qed.

Lemma afterWrite_forward_only remote query (p : CQLProxy PQ) :
  forward_only p (afterW remote query p).1.
Proof.
  pose proof (forwarded_forward_only remote query p) as H.
  unfold afterW, afterWrite. fold after.
  by destruct (after remote query p).
Qed.

(** [PacketCount] moves by one when the work after a write comes back, and
    not at all when it does not. *)
Lemma forwarded_PacketCount remote query (p : CQLProxy PQ) :
  PacketCount (metrics (afterW remote query p).1)
  = PacketCount (metrics p) + (if (afterW remote query p).2 then 1 else 0).
Proof.
  unfold afterW, afterWrite, forwarded, mbind, M_bind, bind, get.
  destruct (String.eqb remote (sourceHostString p)); [|cbn; lia].
  pose proof (mirrorData_evolves CassandraParseReply CassandraParseRequest
                UnknownPreparedQueryPath ToLower LoadingDataComplete astraWrite
                query p) as (_ & _ & _ & _ & _ & _ & (Hm & _) & _).
  fold mirror in Hm |- *.
  destruct (mirror query p) as [e p'|p'|p']; cbn in *; lia.
Qed.

Lemma forwardReturns_PacketCount remote (p : CQLProxy PQ) :
  PacketCount (metrics (state_of (forwardReturns redirectTaken remote p)))
  = PacketCount (metrics p).
Proof.
  unfold forwardReturns, mbind, M_bind, bind, get, decrementSources, locked.
  repeat case_match; done.
Qed.

End ForwardFrame.

(** X1.  Mirroring a frame never touches the accounting of connections:
    whatever the frame and whatever the parser answers, [mirrorData] leaves
    the two host strings, [p.lock], the completion flag, the migration
    status and the count of origin connections as they are, and of the
    metrics it can only raise [Reads]. *)
Theorem mirrorData_keeps_accounting {PQ : Type}
    (CassandraParseReply : PQ -> list byte -> PQ)
    (CassandraParseRequest : PQ -> list byte -> PQ * list string * error)
    (UnknownPreparedQueryPath : string) (ToLower : string -> string)
    (LoadingDataComplete : migration.Step) (astraWrite : nat -> bool)
    (data : list byte) (p : CQLProxy PQ) :
  let p' := state_of (mirrorData CassandraParseReply CassandraParseRequest
                        UnknownPreparedQueryPath ToLower LoadingDataComplete
                        astraWrite data p) in
  sourceHostString p' = sourceHostString p /\
  astraHostString p' = astraHostString p /\
  lock p' = lock p /\
  migrationComplete p' = migrationComplete p /\
  migrationStatus p' = migrationStatus p /\
  connectionsToSource p' = connectionsToSource p /\
  PacketCount (metrics p') = PacketCount (metrics p) /\
  Writes (metrics p') = Writes (metrics p) /\
  WriteFails (metrics p') = WriteFails (metrics p) /\
  ReadFails (metrics p') = ReadFails (metrics p) /\
  Reads (metrics p) <= Reads (metrics p').
Proof.
  intros p'.
  destruct (mirrorData_evolves CassandraParseReply CassandraParseRequest
              UnknownPreparedQueryPath ToLower LoadingDataComplete astraWrite data p)
    as (A1 & A2 & A3 & A4 & A5 & A6 & (A7 & A8 & A9 & A10 & A11) & _).
  done.
Qed.

(** X2.  A forwarder never takes anything back.  Over a whole run of
    [forward], whatever is read, written and parsed and wherever the run
    stops: a table that is paused stays paused, a latch that is held stays
    held, every queue keeps what it holds in the same order and only grows
    at its tail, staying within [queueSize]; the migration status, the
    completion flag, [Writes] and [WriteFails] do not change. *)
Theorem forward_never_dequeues {PQ : Type}
    (CassandraParseReply : PQ -> list byte -> PQ)
    (CassandraParseRequest : PQ -> list byte -> PQ * list string * error)
    (UnknownPreparedQueryPath : string) (ToLower : string -> string)
    (LoadingDataComplete : migration.Step) (astraWrite redirectTaken : nat -> bool)
    (remote : string) (dstWrite : nat -> bool) (fuel : nat)
    (reads : list ReadResult) (s : Fwd) (p : CQLProxy PQ) :
  let p' := (forward CassandraParseReply CassandraParseRequest UnknownPreparedQueryPath
               ToLower LoadingDataComplete astraWrite redirectTaken
               remote dstWrite fuel reads s p).2 in
  (forall ks tn, paused ks tn p = true -> paused ks tn p' = true) /\
  (forall ks tn, at2 (queueLocks p) ks tn = Some true ->
                 at2 (queueLocks p') ks tn = Some true) /\
  (forall ks tn q, at2 (queues p) ks tn = Some q ->
     exists q', at2 (queues p') ks tn = Some q' /\ q `prefix_of` q' /\
                (len q <= queueSize -> len q' <= queueSize)) /\
  (forall ks tn q', at2 (queues p') ks tn = Some q' -> is_Some (at2 (queues p) ks tn)) /\
  migrationStatus p' = migrationStatus p /\
  migrationComplete p' = migrationComplete p /\
  Writes (metrics p') = Writes (metrics p) /\
  WriteFails (metrics p') = WriteFails (metrics p).
Proof.
  intros p'.
  assert (H : forward_only p p').
  { apply (pump_rel dstWrite _ _ forward_only).
    - apply forward_only_refl.
    - apply forward_only_trans.
    - intros q p0. apply afterWrite_forward_only.
    - intros p0. apply forwardReturns_forward_only. }
  destruct H as (A1 & A2 & A4 & A5 & (A8 & A9 & A10) & A12 & A13 & A14).
  split; [exact A14|]. split.
  { intros ks tn Hh. destruct (both2_at2 _ _ _ _ _ _ A13 Hh) as (v' & -> & Hv).
    by rewrite Hv. }
  split.
  { intros ks tn q Hq. destruct (both2_at2 _ _ _ _ _ _ A12 Hq) as (q' & Hq' & Hp & Hb).
    by exists q'. }
  split.
  { intros ks tn q' Hq'. destruct (both2_at2_back _ _ _ _ _ _ A12 Hq') as (q & -> & _).
    by eexists. }
  done.
Qed.

(** X3.  [PacketCount] counts the frames forwarded.  Over a whole run of
    [forward] it rises by the number of frames the destination accepted,
    less the one whose mirroring did not come back if the run stopped
    there; failed writes and the deferred work of a return add nothing. *)
Theorem forward_counts_packets {PQ : Type}
    (CassandraParseReply : PQ -> list byte -> PQ)
    (CassandraParseRequest : PQ -> list byte -> PQ * list string * error)
    (UnknownPreparedQueryPath : string) (ToLower : string -> string)
    (LoadingDataComplete : migration.Step) (astraWrite redirectTaken : nat -> bool)
    (remote : string) (dstWrite : nat -> bool) (fuel : nat)
    (reads : list ReadResult) (s : Fwd) (p : CQLProxy PQ) :
  let r := forward CassandraParseReply CassandraParseRequest UnknownPreparedQueryPath
             ToLower LoadingDataComplete astraWrite redirectTaken
             remote dstWrite fuel reads s p in
  PacketCount (metrics r.2)
  = PacketCount (metrics p) + (len (out r.1.2) - len (out s))
    - short r.1.1.
Proof.
  intros r. subst r. unfold forward.
  rewrite (pump_count dstWrite _ _ (fun p => PacketCount (metrics p))).
  - lia.
  - intros q p0. apply forwarded_PacketCount.
  - intros p0. apply forwardReturns_PacketCount.
Qed.

(** ** The consumer of a table *)

Lemma payloads_app l1 l2 : payloads (l1 ++ l2) = payloads l1 ++ payloads l2.
Proof.
  induction l1 as [|e l1 IH]; [done|]. destruct e; cbn; by rewrite ?IH.
Qed.

Section ConsumerFacts.

Context {PQ : Type}.
Variable astraWrite : nat -> bool.

(** The retry loop writes its payload and nothing else, at least once and at
    most [n] times. *)
Lemma attempts_payloads n b : forall p : CQLProxy PQ,
  exists l k,
    attempts astraWrite n b p =
      mkProxy (sourceHostString p) (astraHostString p) (queues p) (queueLocks p)
        (queueSizes p) (tablePaused p) (lock p) (migrationComplete p)
        (migrationStatus p) (connectionsToSource p) (Keyspace p) (metrics p)
        (preparedQueries p) (log p ++ l) /\
    payloads l = replicate k b /\ (k <= n)%nat /\ ((0 < n)%nat -> (0 < k)%nat).
Proof.
  induction n as [|n IH]; intros p; simpl.
  - exists [], 0%nat. rewrite app_nil_r. split; [by destruct p|]. split; [done|lia].
  - destruct (astraWrite (writes_in (log p))).
    + exists [TargetWrite b true], 1%nat. split; [by destruct p|]. split; [done|lia].
    + destruct (IH (emit (Sleep 500) (emit (TargetWrite b false) p)))
        as (l & k & -> & Hl & Hk & _).
      exists (TargetWrite b false :: Sleep 500 :: l), (S k).
      cbn [log emit]. rewrite <- !app_assoc. split; [done|].
      split; [cbn; by rewrite Hl|lia].
Qed.

(** One turn of the consumer on a queue that is not empty, with the latch of
    the table and [p.lock] free. *)
Lemma consumeQueue_turn ks tn (p : CQLProxy PQ) query rest :
  at2 (queues p) ks tn = Some (query :: rest) ->
  at2 (queueLocks p) ks tn = Some false ->
  lock p = false ->
  is_Some (queueSizes p !! ks) ->
  exists p' l k,
    consumeQueue astraWrite ks tn p = Ret tt p' /\
    at2 (queues p') ks tn = Some rest /\
    at2 (queueLocks p') ks tn = Some false /\
    lock p' = false /\
    is_Some (queueSizes p' !! ks) /\
    at2 (queueSizes p') ks tn = Some (default 0 (at2 (queueSizes p) ks tn) - 1) /\
    log p' = log p ++ Latch ks tn :: l /\
    payloads l = replicate k (QQuery query) /\ (1 <= k <= 5)%nat /\
    Writes (metrics p') = Writes (metrics p) + 1 /\
    WriteFails (metrics p') = WriteFails (metrics p) /\
    tablePaused p' = tablePaused p.
Proof.
  unfold at2. intros Hq Hl Hlock [sizes Hs].
  destruct (queues p !! ks) as [inner|] eqn:Hks; [|done].
  destruct (queueLocks p !! ks) as [latches|] eqn:Hlk; [|done].
  unfold consumeQueue. rewrite Hks, Hq.
  unfold mbind, M_bind, bind, modify, lockLatch. cbn [queueLocks set_queues].
  rewrite Hlk, Hl. rewrite execute_spec.
  destruct (attempts_payloads 5 (QQuery query)
              (emit (Latch ks tn)
                 (set_queueLocks (<[ks:=<[tn:=true]> latches]> (queueLocks p))
                    (set_queues (<[ks:=<[tn:=rest]> inner]> (queues p)) p))))
    as (l & k & -> & Hpay & Hk5 & Hk1).
  unfold incrementWrites, modify, addQueueSize, locked, unlockLatch, put2, at2.
  cbn [lock set_metrics metrics queueSizes set_queueSizes queueLocks
       set_queueLocks emit log set_queues].
  rewrite Hlock, Hs.
  cbn [lock set_metrics metrics queueSizes set_queueSizes queueLocks
       set_queueLocks emit log set_queues].
  rewrite !lookup_insert_eq.
  eexists _, l, k. split; [reflexivity|]. cbn.
  rewrite !lookup_insert_eq, <- app_assoc.
  split_and!; try done. lia.
Qed.

(** On an empty queue the consumer waits and nothing changes. *)
Lemma consumeQueue_empty ks tn (p : CQLProxy PQ) :
  at2 (queues p) ks tn = Some [] -> consumeQueue astraWrite ks tn p = Park p.
Proof.
  unfold at2, consumeQueue. destruct (queues p !! ks); [|done]. by intros ->.
Qed.

(** The consumer works a backlog off in order. *)
Lemma consumeTurns_backlog ks tn qs : forall p : CQLProxy PQ,
  at2 (queues p) ks tn = Some qs ->
  at2 (queueLocks p) ks tn = Some false ->
  lock p = false ->
  is_Some (queueSizes p !! ks) ->
  exists p' l counts,
    consumeTurns astraWrite (length qs) ks tn p = Ret tt p' /\
    at2 (queues p') ks tn = Some [] /\
    at2 (queueLocks p') ks tn = Some false /\
    lock p' = false /\
    log p' = log p ++ l /\
    length counts = length qs /\
    Forall (fun k => 1 <= k <= 5)%nat counts /\
    payloads l = concat (zip_with replicate counts (map QQuery qs)) /\
    Writes (metrics p') = Writes (metrics p) + len qs /\
    WriteFails (metrics p') = WriteFails (metrics p).
Proof.
  induction qs as [|q qs IH]; intros p Hq Hl Hlock Hs.
  - exists p, [], []. cbn. rewrite app_nil_r. unfold len. cbn.
    split_and!; try done. lia.
  - destruct (consumeQueue_turn ks tn p q qs Hq Hl Hlock Hs)
      as (p1 & l1 & k & Hrun & Hq1 & Hl1 & Hlock1 & Hs1 & _ & Hlog1 & Hpay & Hk & Hw & Hf & _).
    destruct (IH p1 Hq1 Hl1 Hlock1 Hs1)
      as (p' & l & counts & Hrun' & Hq' & Hl' & Hlock' & Hlog' & Hlen & Hall & Hpay' & Hw' & Hf').
    exists p', (Latch ks tn :: l1 ++ l), (k :: counts).
    cbn [consumeTurns length]. unfold bind. rewrite Hrun.
    split_and!; try done.
    + rewrite Hlog', Hlog1, <- app_assoc. done.
    + cbn. by rewrite Hlen.
    + by constructor.
    + cbn. by rewrite payloads_app, Hpay, Hpay'.
    + rewrite Hw', Hw. unfold len. cbn [length]. lia.
    + congruence.
Qed.

(** While the latch of its table is held, a turn of the consumer blocks:
    it may have taken the head of the queue, and has written nothing. *)
Lemma consumeQueue_held ks tn (p : CQLProxy PQ) :
  at2 (queueLocks p) ks tn = Some true ->
  exists p',
    consumeQueue astraWrite ks tn p = Park p' /\
    log p' = log p /\ metrics p' = metrics p /\
    queueLocks p' = queueLocks p /\ tablePaused p' = tablePaused p /\
    (forall q, at2 (queues p) ks tn = Some q ->
               at2 (queues p') ks tn = Some (tail q)).
Proof.
  unfold at2. intros Hl.
  destruct (queueLocks p !! ks) as [latches|] eqn:Hlk; [|done].
  unfold consumeQueue.
  destruct (queues p !! ks) as [inner|] eqn:Hks.
  2:{ exists p. split_and!; done. }
  destruct (inner !! tn) as [[|query rest]|] eqn:Hq.
  - exists p. rewrite Hks. split_and!; try done; try (by intros q [= <-]).
  - unfold mbind, M_bind, bind, modify, lockLatch. cbn [queueLocks set_queues].
    rewrite Hlk, Hl. eexists. split; [reflexivity|]. cbn.
    rewrite !lookup_insert_eq. split_and!; try done; try (by intros q [= <-]).
  - exists p. rewrite Hks. split_and!; try done; try (by intros q [=]).
Qed.

End ConsumerFacts.

(** X4.  The consumer of a table works its backlog off in order.  With the
    latch of the table and [p.lock] free, as many turns of [consumeQueue] as
    there are queued queries all come back and leave the queue empty; what
    they hand to the target is, query by query in queue order, the bytes of
    that query between one and five times, and nothing else; [Writes] rises
    by one per query and [WriteFails] not at all; the next turn finds nothing
    to receive and waits. *)
Theorem consumer_drains_backlog_in_order {PQ : Type} (astraWrite : nat -> bool)
    ks tn qs (p : CQLProxy PQ) :
  at2 (queues p) ks tn = Some qs ->
  at2 (queueLocks p) ks tn = Some false ->
  lock p = false ->
  is_Some (queueSizes p !! ks) ->
  exists p' l counts,
    consumeTurns astraWrite (length qs) ks tn p = Ret tt p' /\
    at2 (queues p') ks tn = Some [] /\
    log p' = log p ++ l /\
    length counts = length qs /\
    Forall (fun k => 1 <= k <= 5)%nat counts /\
    payloads l = concat (zip_with replicate counts (map QQuery qs)) /\
    Writes (metrics p') = Writes (metrics p) + len qs /\
    WriteFails (metrics p') = WriteFails (metrics p) /\
    consumeQueue astraWrite ks tn p' = Park p'.
Proof.
  intros Hq Hl Hlock Hs.
  destruct (consumeTurns_backlog astraWrite ks tn qs p Hq Hl Hlock Hs)
    as (p' & l & counts & Hrun & Hq' & _ & _ & Hlog & Hlen & Hall & Hpay & Hw & Hf).
  exists p', l, counts. split_and!; try done. by apply consumeQueue_empty.
Qed.

(** An INSERT and an UPDATE wait for [ks1.t1] and the target refuses the
    first three writes: the INSERT is written four times, then the UPDATE
    once. *)
Lemma consumer_drains_backlog_in_order_witness :
  let p := sample_backlog2 in
  at2 (queues p) "ks1" "t1" = Some [sample_query; sample_update] /\
  at2 (queueLocks p) "ks1" "t1" = Some false /\
  lock p = false /\
  is_Some (queueSizes p !! "ks1"%string) /\
  (exists p' l counts,
     consumeTurns flaky 2 "ks1" "t1" p = Ret tt p' /\
     at2 (queues p') "ks1" "t1" = Some [] /\
     log p' = log p ++ l /\
     length counts = 2%nat /\
     Forall (fun k => 1 <= k <= 5)%nat counts /\
     payloads l = concat (zip_with replicate counts
                            [QQuery sample_query; QQuery sample_update]) /\
     Writes (metrics p') = Writes (metrics p) + 2 /\
     WriteFails (metrics p') = WriteFails (metrics p) /\
     consumeQueue flaky "ks1" "t1" p' = Park p') /\
  payloads (log (state_of (consumeTurns flaky 2 "ks1" "t1" p)))
  = replicate 4 (QQuery sample_query) ++ [QQuery sample_update].
Proof.
  intros p.
  assert (H1 : at2 (queues p) "ks1" "t1" = Some [sample_query; sample_update])
    by (vm_compute; reflexivity).
  assert (H2 : at2 (queueLocks p) "ks1" "t1" = Some false) by (vm_compute; reflexivity).
  assert (H3 : lock p = false) by reflexivity.
  assert (H4 : is_Some (queueSizes p !! "ks1"%string)) by (vm_compute; eauto).
  split; [exact H1|]. split; [exact H2|]. split; [exact H3|]. split; [exact H4|].
  split; [|vm_compute; reflexivity].
  exact (consumer_drains_backlog_in_order flaky "ks1" "t1"
           [sample_query; sample_update] p H1 H2 H3 H4).
Defined.

(** X5.  A paused table is not written to.  While the latch of a table is
    held (as it is from [stopTable] to [startTable]), a turn of its consumer
    does not come back: it blocks on the latch, having at most taken the
    head of the queue out of the channel, and hands nothing to the target;
    metrics, latches and pause flags are as before. *)
Theorem paused_consumer_writes_nothing {PQ : Type} (astraWrite : nat -> bool)
    ks tn (p : CQLProxy PQ) :
  at2 (queueLocks p) ks tn = Some true ->
  exists p',
    consumeQueue astraWrite ks tn p = Park p' /\
    log p' = log p /\ metrics p' = metrics p /\
    queueLocks p' = queueLocks p /\ tablePaused p' = tablePaused p /\
    (forall q, at2 (queues p) ks tn = Some q ->
               at2 (queues p') ks tn = Some (tail q)).
Proof. apply consumeQueue_held. Qed.

(** The sample proxy once an UPDATE for [ks1.t1] has been mirrored: the
    table is paused, the UPDATE is queued, and the consumer blocks with the
    UPDATE in hand. *)
Lemma paused_consumer_writes_nothing_witness :
  let p := state_of (handleUpdateQuery 5 (QQuery sample_update) "ks1" "t1"
                       (sample_proxy 0)) in
  at2 (queueLocks p) "ks1" "t1" = Some true /\
  paused "ks1" "t1" p = true /\
  exists p',
    consumeQueue (fun _ => true) "ks1" "t1" p = Park p' /\
    log p' = log p /\ metrics p' = metrics p /\
    queueLocks p' = queueLocks p /\ tablePaused p' = tablePaused p /\
    (forall q, at2 (queues p) "ks1" "t1" = Some q ->
               at2 (queues p') "ks1" "t1" = Some (tail q)).
Proof.
  intros p.
  assert (H1 : at2 (queueLocks p) "ks1" "t1" = Some true) by (vm_compute; reflexivity).
  split; [exact H1|]. split; [vm_compute; reflexivity|].
  exact (paused_consumer_writes_nothing (fun _ => true) "ks1" "t1" p H1).
Defined.

(** ** Pausing and resuming a table *)

Section ResumeFacts.

Context {PQ : Type}.
Variable LoadingDataComplete : migration.Step.

#[local] Existing Instance M_bind.

(** The three write-class handlers on a table of the status. *)
Lemma write_class_unfold qt h query ks tn (p : CQLProxy PQ) tables table :
  In (qt, h) (writeClassHandlers LoadingDataComplete) ->
  migrationStatus p = Some tables ->
  at2 tables ks tn = Some table ->
  h query ks tn p =
    ((if negb (paused ks tn p) then
        step ← tableStatus ks tn;
        if negb (step =? LoadingDataComplete) then stopTable ks tn else ret tt
      else ret tt);;
     queueQuery (mkQuery (Some table) qt query);;
     ret (None : error)) p.
Proof.
  intros [[= <- <-]|[[= <- <-]|[[= <- <-]|[]]]] Hm Ht;
    unfold handleUpdateQuery, handleDeleteQuery, handleTruncateQuery;
    by rewrite Hm, Ht.
Qed.

Lemma tableStatus_spec ks tn (p : CQLProxy PQ) tables table :
  migrationStatus p = Some tables -> at2 tables ks tn = Some table ->
  tableStatus ks tn p = Ret (migration.TStep table) p.
Proof. intros Hm Ht. unfold tableStatus. by rewrite Hm, Ht. Qed.

(** A write-class statement for a table that needs no pause goes straight to
    the queue. *)
Lemma write_class_no_pause qt h query ks tn (p : CQLProxy PQ) tables table :
  In (qt, h) (writeClassHandlers LoadingDataComplete) ->
  migrationStatus p = Some tables ->
  at2 tables ks tn = Some table ->
  paused ks tn p = true \/ migration.TStep table = LoadingDataComplete ->
  h query ks tn p = (queueQuery (mkQuery (Some table) qt query);; ret (None : error)) p.
Proof.
  intros Hin Hm Ht Hno. rewrite (write_class_unfold _ _ _ _ _ _ _ _ Hin Hm Ht).
  unfold mbind, M_bind, bind.
  destruct (paused ks tn p) eqn:Hp; cbn [negb]; [done|].
  destruct Hno as [|Hstep]; [done|].
  rewrite (tableStatus_spec _ _ _ _ _ Hm Ht), Hstep, Z.eqb_refl. done.
Qed.

(** [startTable] clears the flag and frees the latch, if the latch is held. *)
Lemma startTable_spec ks tn (p : CQLProxy PQ) inner latches :
  tablePaused p !! ks = Some inner ->
  queueLocks p !! ks = Some latches ->
  latches !! tn = Some true ->
  startTable ks tn p
  = Ret tt (set_queueLocks (<[ks := <[tn := false]> latches]> (queueLocks p))
              (set_tablePaused (<[ks := <[tn := false]> inner]> (tablePaused p)) p)).
Proof.
  intros Hp Hl Ht. unfold startTable, put2, unlockLatch. rewrite Hp.
  cbn [queueLocks set_tablePaused]. by rewrite Hl, Ht.
Qed.

Lemma startTable_panics ks tn (p : CQLProxy PQ) :
  at2 (queueLocks p) ks tn <> Some true \/ tablePaused p !! ks = None ->
  exists p', startTable ks tn p = Panic p' /\ queueLocks p' = queueLocks p /\
             queues p' = queues p /\ log p' = log p.
Proof.
  unfold startTable, put2, unlockLatch, at2. intros Hno.
  destruct (tablePaused p !! ks) as [inner|]; [|by exists p].
  destruct Hno as [Hno|]; [|done]. cbn [queueLocks set_tablePaused].
  destruct (queueLocks p !! ks) as [latches|]; [|by eexists].
  destruct (latches !! tn) as [[|]|]; [done|by eexists..].
Qed.

End ResumeFacts.

(** X6.  [startTable] needs a paused table.  If the latch of the table is
    held and its keyspace was loaded, [startTable] comes back with the pause
    flag cleared and the latch free, queues, log and metrics untouched.  In
    every other case, in particular for a table that was never paused, it
    panics (Go: unlock of unlocked mutex, or a nil mutex or map) and the
    process goes down. *)
Theorem startTable_needs_held_latch {PQ : Type} ks tn (p : CQLProxy PQ) :
  (at2 (queueLocks p) ks tn = Some true /\ is_Some (tablePaused p !! ks) ->
   exists p', startTable ks tn p = Ret tt p' /\
     paused ks tn p' = false /\ at2 (queueLocks p') ks tn = Some false /\
     queues p' = queues p /\ log p' = log p /\ metrics p' = metrics p) /\
  (at2 (queueLocks p) ks tn <> Some true \/ tablePaused p !! ks = None ->
   exists p', startTable ks tn p = Panic p' /\ queueLocks p' = queueLocks p /\
     queues p' = queues p /\ log p' = log p).
Proof.
  split; [|apply startTable_panics].
  intros [Hl [inner Hp]]. unfold at2 in Hl.
  destruct (queueLocks p !! ks) as [latches|] eqn:Hlk; [|done].
  rewrite (startTable_spec ks tn p inner latches Hp Hlk Hl).
  eexists. split; [reflexivity|]. unfold paused, at2. cbn.
  by rewrite !lookup_insert_eq.
Qed.



(** X8.  A write-class statement for a table that is already paused, or
    whose data is loaded, goes straight to the queue: the handler sets no
    flag and asks for no latch (it would wait for the latch its own earlier
    call took), and adds at most the one send to the log; with room in the
    queue and [p.lock] free it comes back with the statement at the tail of
    the queue. *)
Theorem paused_table_write_only_enqueues {PQ : Type} (LoadingDataComplete : migration.Step)
    qt h query ks tn (p : CQLProxy PQ) tables table :
  In (qt, h) (writeClassHandlers LoadingDataComplete) ->
  migrationStatus p = Some tables ->
  at2 tables ks tn = Some table ->
  paused ks tn p = true \/ migration.TStep table = LoadingDataComplete ->
  let r := h query ks tn p in
  let q := mkQuery (Some table) qt query in
  let ks' := migration.Keyspace table in
  let tn' := migration.Name table in
  tablePaused (state_of r) = tablePaused p /\
  queueLocks (state_of r) = queueLocks p /\
  (exists l, log (state_of r) = log p ++ l /\ l `prefix_of` [Enqueue ks' tn' q]) /\
  (forall qs, at2 (queues p) ks' tn' = Some qs -> len qs < queueSize ->
     lock p = false -> is_Some (queueSizes p !! ks') ->
     exists p', r = Ret None p' /\
       log p' = log p ++ [Enqueue ks' tn' q] /\
       at2 (queues p') ks' tn' = Some (qs ++ [q])).
Proof.
  intros Hin Hm Ht Hno r q ks' tn'. subst r.
  rewrite (write_class_no_pause LoadingDataComplete qt h query ks tn p tables table
             Hin Hm Ht Hno).
  destruct (queueQuery_spec q table p eq_refl) as (A & B & C & D).
  fold q. unfold mbind, M_bind, bind.
  assert (E : state_of match queueQuery q p with
                       | Ret _ p' => ret (None : error) p'
                       | Park p' => Park p'
                       | Panic p' => Panic p'
                       end = state_of (queueQuery q p))
    by (by destruct (queueQuery q p)).
  rewrite E. split; [exact A|]. split; [exact B|]. split; [exact C|].
  intros qs H1 H2 H3 H4. destruct (D qs H1 H2 H3 H4) as (p' & -> & Hl & Hq & _).
  by exists p'.
Qed.

(** A second UPDATE for [ks1.t1], mirrored while the table is paused by the
    first. *)
Lemma paused_table_write_only_enqueues_witness :
  let p := state_of (handleUpdateQuery 5 (QQuery sample_update) "ks1" "t1"
                       (sample_proxy 0)) in
  let q := mkQuery (Some (sample_table 0)) UPDATE (QQuery sample_query) in
  paused "ks1" "t1" p = true /\
  tablePaused (state_of (handleUpdateQuery 5 (QQuery sample_query) "ks1" "t1" p))
  = tablePaused p /\
  queueLocks (state_of (handleUpdateQuery 5 (QQuery sample_query) "ks1" "t1" p))
  = queueLocks p /\
  exists p', handleUpdateQuery 5 (QQuery sample_query) "ks1" "t1" p = Ret None p' /\
    log p' = log p ++ [Enqueue "ks1" "t1" q].
Proof.
  intros p q.
  assert (H1 : In (UPDATE, handleUpdateQuery 5)
                 (writeClassHandlers (PreparedQueries := unit) 5)) by (left; reflexivity).
  assert (H2 : migrationStatus p = Some (sample_status 0)) by reflexivity.
  assert (H3 : at2 (sample_status 0) "ks1" "t1" = Some (sample_table 0))
    by (vm_compute; reflexivity).
  assert (H4 : paused "ks1" "t1" p = true) by (vm_compute; reflexivity).
  destruct (paused_table_write_only_enqueues 5 UPDATE (handleUpdateQuery 5)
              (QQuery sample_query) "ks1" "t1" p (sample_status 0) (sample_table 0)
              H1 H2 H3 (or_introl H4)) as (A & B & _ & D).
  split; [exact H4|]. split; [exact A|]. split; [exact B|].
  destruct (D [mkQuery (Some (sample_table 0)) UPDATE (QQuery sample_update)])
    as (p' & Hr & Hl & _).
  - vm_compute; reflexivity.
  - reflexivity.
  - reflexivity.
  - vm_compute; eauto.
  - exists p'. split; [exact Hr|exact Hl].
Defined.

(** ** Table updates from the migration service *)

(** X9.  A table update is what [tableStatus] reads back.  On a proxy that
    holds a status with the keyspace of the table, the TableUpdate case of
    [handleUpdate] comes back without error, [tableStatus] then returns the
    step the update carried, every other table of the status is as before,
    and queues, latches, pause flags, the log and the metrics are untouched:
    an update that reports the data of a paused table loaded does not resume
    it.  Without a status, or for a keyspace the status does not have, the
    update panics. *)
Theorem handleUpdate_TableUpdate_round_trip {PQ : Type} (table : migration.Table)
    (p : CQLProxy PQ) :
  let ks := migration.Keyspace table in
  let tn := migration.Name table in
  (forall tables, migrationStatus p = Some tables -> is_Some (tables !! ks) ->
     exists p' tables',
       handleUpdate_TableUpdate table p = Ret None p' /\
       migrationStatus p' = Some tables' /\
       tableStatus ks tn p' = Ret (migration.TStep table) p' /\
       (forall ks0 tn0, (ks0, tn0) <> (ks, tn) -> at2 tables' ks0 tn0 = at2 tables ks0 tn0) /\
       queues p' = queues p /\ queueLocks p' = queueLocks p /\
       tablePaused p' = tablePaused p /\ log p' = log p /\ metrics p' = metrics p) /\
  ((migrationStatus p = None \/
    exists tables, migrationStatus p = Some tables /\ tables !! ks = None) ->
   handleUpdate_TableUpdate table p = Panic p).
Proof.
  intros ks tn. unfold handleUpdate_TableUpdate, put2. fold ks tn. split.
  - intros tables Hm [inner Hin]. rewrite Hm, Hin.
    eexists _, _. split; [reflexivity|]. split; [reflexivity|].
    unfold tableStatus, at2. cbn. rewrite !lookup_insert_eq.
    split_and!; try done.
    intros ks0 tn0 Hne. destruct (decide (ks0 = ks)) as [->|Hk].
    + rewrite lookup_insert_eq, Hin. rewrite lookup_insert_ne; [done|congruence].
    + by rewrite lookup_insert_ne.
  - intros [->|(tables & -> & ->)]; done.
Qed.

Section LateTable.

Context {PQ : Type}.
Variable LoadingDataComplete : migration.Step.

(** A table the Start update did not name has neither queue nor latch. *)
Lemma loadMigrationInfo_unlisted (status : migration.Tables) (p : CQLProxy PQ) ks tables tn :
  status !! ks = Some tables -> tables !! tn = None ->
  let p' := loadMigrationInfo status p in
  (exists chans, queues p' !! ks = Some chans /\ chans !! tn = None) /\
  (exists latches, queueLocks p' !! ks = Some latches /\ latches !! tn = None) /\
  tablePaused p' !! ks = Some ∅.
Proof.
  intros Hks Htn p'. subst p'. unfold loadMigrationInfo. cbn.
  rewrite !lookup_union, !lookup_fmap, Hks. cbn.
  split_and!.
  - destruct (queues p !! ks); cbn; eexists; (split; [reflexivity|]);
      by rewrite lookup_fmap, Htn.
  - destruct (queueLocks p !! ks); cbn; eexists; (split; [reflexivity|]);
      by rewrite lookup_fmap, Htn.
  - by destruct (tablePaused p !! ks).
Qed.

End LateTable.

(** X10.  A table that a TableUpdate adds after the Start update can be
    looked up but has no queue and no latch: [loadMigrationInfo] alone makes
    those.  The mirror of an INSERT for it then blocks for ever on the send
    to a nil channel, and the mirror of an UPDATE, DELETE or TRUNCATE sets
    the pause flag and panics on the nil mutex (unless the update said the
    data is loaded, when it blocks like the INSERT). *)
Theorem table_added_by_update_has_no_queue {PQ : Type}
    (LoadingDataComplete : migration.Step) (status : migration.Tables)
    (p0 : CQLProxy PQ) ks tables tn step :
  status !! ks = Some tables ->
  tables !! tn = None ->
  let p := loadMigrationInfo status p0 in
  let table := migration.mkTable ks tn step in
  exists p1,
    handleUpdate_TableUpdate table p = Ret None p1 /\
    tableStatus ks tn p1 = Ret step p1 /\
    (forall query, handleInsertQuery query ks tn p1 = Park p1) /\
    (forall qt h query, In (qt, h) (writeClassHandlers LoadingDataComplete) ->
       if step =? LoadingDataComplete then h query ks tn p1 = Park p1
       else exists p2, h query ks tn p1 = Panic p2 /\ paused ks tn p2 = true /\
                       log p2 = log p1 ++ [Pause ks tn]).
Proof.
  intros Hks Htn p table.
  destruct (loadMigrationInfo_unlisted status p0 ks tables tn Hks Htn)
    as ((chans & Hq & Hqt) & (latches & Hl & Hlt) & Hp).
  fold p in Hq, Hl, Hp.
  assert (Hm : migrationStatus p = Some status) by reflexivity.
  unfold handleUpdate_TableUpdate, put2. rewrite Hm. cbn [migration.Keyspace migration.Name table].
  rewrite Hks. eexists. split; [reflexivity|].
  set (p1 := set_migrationStatus _ p).
  assert (Hm1 : migrationStatus p1 = Some (<[ks := <[tn := table]> tables]> status))
    by reflexivity.
  assert (Ht1 : at2 (<[ks := <[tn := table]> tables]> status) ks tn = Some table)
    by apply at2_insert.
  assert (Hins : forall qt query,
            bind (queueQuery (mkQuery (Some table) qt query))
              (fun _ => ret (None : error)) p1 = Park p1).
  { intros qt query. unfold bind, queueQuery. cbn [QTable].
    cbv zeta. cbn [migration.Keyspace migration.Name table].
    change (queues p1) with (queues p). by rewrite Hq, Hqt. }
  split; [exact (tableStatus_spec ks tn p1 _ table Hm1 Ht1)|]. split.
  - intros query. unfold handleInsertQuery. rewrite Hm1, Ht1. apply Hins.
  - intros qt h query Hin.
    destruct (Z.eqb_spec step LoadingDataComplete) as [Heq|Hne].
    + rewrite (write_class_no_pause LoadingDataComplete qt h query ks tn p1 _ table
                 Hin Hm1 Ht1 (or_intror Heq)). apply Hins.
    + rewrite (write_class_unfold LoadingDataComplete qt h query ks tn p1 _ table
                 Hin Hm1 Ht1).
      assert (Hnp : paused ks tn p1 = false).
      { unfold paused, at2. change (tablePaused p1) with (tablePaused p).
        by rewrite Hp, lookup_empty. }
      unfold mbind, M_bind, bind. rewrite Hnp. cbn [negb].
      rewrite (tableStatus_spec ks tn p1 _ table Hm1 Ht1).
      cbn [migration.TStep table].
      destruct (Z.eqb_spec step LoadingDataComplete) as [|_]; [done|]. cbn [negb].
      unfold stopTable, put2, lockLatch. change (tablePaused p1) with (tablePaused p).
      rewrite Hp. cbn [queueLocks set_tablePaused emit].
      change (queueLocks p1) with (queueLocks p). rewrite Hl, Hlt.
      eexists. split; [reflexivity|]. unfold paused, at2. cbn.
      by rewrite !lookup_insert_eq.
Qed.

(** The table [ks1.t2] is reported by a TableUpdate to the sample proxy,
    whose Start update named [ks1.t1] only. *)
Lemma table_added_by_update_has_no_queue_witness :
  let p0 := reset "origin:9042" "astra:9042" false tt in
  let p := loadMigrationInfo (sample_status 0) p0 in
  let table := migration.mkTable "ks1" "t2" 2 in
  sample_status 0 !! "ks1"%string = Some {["t1"%string := sample_table 0]} /\
  ({["t1"%string := sample_table 0]} : gmap string migration.Table) !! "t2"%string = None /\
  exists p1,
    handleUpdate_TableUpdate table p = Ret None p1 /\
    tableStatus "ks1" "t2" p1 = Ret 2 p1 /\
    handleInsertQuery (QQuery sample_query) "ks1" "t2" p1 = Park p1 /\
    exists p2, handleUpdateQuery 5 (QQuery sample_update) "ks1" "t2" p1 = Panic p2 /\
               paused "ks1" "t2" p2 = true.
Proof.
  intros p0 p table.
  assert (H1 : sample_status 0 !! "ks1"%string = Some {["t1"%string := sample_table 0]})
    by (vm_compute; reflexivity).
  assert (H2 : ({["t1"%string := sample_table 0]} : gmap string migration.Table)
               !! "t2"%string = None) by (vm_compute; reflexivity).
  split; [exact H1|]. split; [exact H2|].
  destruct (table_added_by_update_has_no_queue 5 (sample_status 0) p0 "ks1"
              {["t1"%string := sample_table 0]} "t2" 2 H1 H2) as (p1 & A & B & C & D).
  exists p1. split; [exact A|]. split; [exact B|]. split; [exact (C _)|].
  destruct (D UPDATE (handleUpdateQuery 5) (QQuery sample_update) (or_introl eq_refl))
    as (p2 & E & F & _).
  exists p2. split; [exact E|exact F].
Defined.

(** ** Where the mirror of a statement goes *)

Local Open Scope string_scope.

Lemma Split_miss c s : IndexRune s c = -1 -> Split s c = [s].
Proof.
  induction s as [|x s IH]; intros Hs; [done|].
  apply IndexRune_cons_miss in Hs as [Hne Hs]. apply Ascii.eqb_neq in Hne.
  simpl. by rewrite Hne, IH.
Qed.

Lemma Split_app c a b :
  IndexRune a c = -1 -> Split (a +:+ String c b) c = a :: Split b c.
Proof.
  induction a as [|x a IH]; intros Ha.
  - simpl. by rewrite Ascii.eqb_refl.
  - apply IndexRune_cons_miss in Ha as [Hne Ha]. apply Ascii.eqb_neq in Hne.
    rewrite append_cons. simpl. by rewrite Hne, IH.
Qed.

(** [strings.Split] undoes [strings.Join] on fields free of the separator. *)
Lemma Split_Join c fields :
  fields <> [] -> Forall (fun f => IndexRune f c = -1) fields ->
  Split (Join fields c) c = fields.
Proof.
  induction fields as [|f [|g fields] IH]; intros Hne Hall; [done| |].
  - apply Split_miss. by inversion Hall.
  - inversion Hall as [|? ? Hf Hrest]; subst.
    change (Join (f :: g :: fields) c) with (f +:+ String c (Join (g :: fields) c)).
    rewrite Split_app by done. by rewrite IH.
Qed.

Local Close Scope string_scope.

Section Routing.

Context {PQ : Type}.
Variable UnknownPreparedQueryPath : string.
Variable ToLower : string -> string.
Variable LoadingDataComplete : migration.Step.
Variable astraWrite : nat -> bool.

Let route :=
  mirrorPath (PreparedQueries := PQ) UnknownPreparedQueryPath ToLower
    LoadingDataComplete astraWrite.

Ltac eqb_strings := cbn [String.eqb Ascii.eqb Bool.eqb andb orb negb].

(** A path of four fields whose opcode is [query] or [execute]. *)
Lemma mirrorPath_four data f0 opcode action ref (p : CQLProxy PQ) :
  opcode = "query"%string \/ opcode = "execute"%string ->
  IndexRune f0 "/" = -1 -> IndexRune action "/" = -1 -> IndexRune ref "/" = -1 ->
  String.eqb (Join [f0; opcode; action; ref] "/") UnknownPreparedQueryPath = false ->
  route data (Join [f0; opcode; action; ref] "/") p =
    (let '(keyspace, table) := extractTableInfo ref in
     let keyspace := if String.eqb keyspace "" then Keyspace p else keyspace in
     if String.eqb action "use" then handleUseQuery ToLower astraWrite data ref
     else if String.eqb action "insert" then handleInsertQuery data keyspace table
     else if String.eqb action "update"
       then handleUpdateQuery LoadingDataComplete data keyspace table
     else if String.eqb action "delete"
       then handleDeleteQuery LoadingDataComplete data keyspace table
     else if String.eqb action "truncate"
       then handleTruncateQuery LoadingDataComplete data keyspace table
     else if String.eqb action "select" then bind incrementReads (fun _ => ret None)
     else ret None) p.
Proof.
  intros Hop H0 Ha Hr Hunk. unfold route, mirrorPath. rewrite Hunk. cbv zeta.
  rewrite Split_Join; [|done|].
  2:{ repeat constructor; try done. by destruct Hop as [->| ->]. }
  change (len [f0; opcode; action; ref] >? 2) with true. cbv iota.
  destruct Hop as [->| ->]; eqb_strings;
    destruct (extractTableInfo ref) as [keyspace table]; reflexivity.
Qed.

(** The statements filed under a table go to the handler of their action,
    with the keyspace of the reference or, for a bare table, the keyspace in
    use. *)
Lemma mirrorPath_dml action h data f0 opcode ref ks0 tb (p : CQLProxy PQ) :
  In (action, h) (actionHandlers LoadingDataComplete) ->
  opcode = "query"%string \/ opcode = "execute"%string ->
  IndexRune f0 "/" = -1 -> IndexRune ref "/" = -1 ->
  String.eqb (Join [f0; opcode; action; ref] "/") UnknownPreparedQueryPath = false ->
  extractTableInfo ref = (ks0, tb) ->
  route data (Join [f0; opcode; action; ref] "/") p
  = h data (if String.eqb ks0 "" then Keyspace p else ks0) tb p.
Proof.
  intros Hin Hop H0 Hr Hunk Hext.
  assert (Ha : IndexRune action "/" = -1).
  { destruct Hin as [[= <- _]|[[= <- _]|[[= <- _]|[[= <- _]|[]]]]]; reflexivity. }
  rewrite (mirrorPath_four data f0 opcode action ref p Hop H0 Ha Hr Hunk), Hext.
  destruct Hin as [[= <- <-]|[[= <- <-]|[[= <- <-]|[[= <- <-]|[]]]]]; reflexivity.
Qed.

(** With an opcode [query] or [execute] and no fourth field, [fields[3]] is
    out of range. *)
Lemma mirrorPath_three data f0 opcode action (p : CQLProxy PQ) :
  opcode = "query"%string \/ opcode = "execute"%string ->
  IndexRune f0 "/" = -1 -> IndexRune action "/" = -1 ->
  String.eqb (Join [f0; opcode; action] "/") UnknownPreparedQueryPath = false ->
  route data (Join [f0; opcode; action] "/") p = Panic p.
Proof.
  intros Hop H0 Ha Hunk. unfold route, mirrorPath. rewrite Hunk. cbv zeta.
  rewrite Split_Join; [|done|].
  2:{ repeat constructor; try done. by destruct Hop as [->| ->]. }
  change (len [f0; opcode; action] >? 2) with true. cbv iota.
  destruct Hop as [->| ->]; reflexivity.
Qed.



End Routing.

(** X11.  Where a mirrored statement is filed.  For a path
    [f0/opcode/action/ref] with opcode [query] or [execute] and action
    [insert], [update], [delete] or [truncate], [mirrorData]'s dispatch
    calls the handler of the action on the table name [extractTableInfo]
    cuts from the reference, under the keyspace it cuts from it or, when
    the reference names none, under the keyspace in use. *)
Theorem mirrorPath_files_under_table {PQ : Type}
    (UnknownPreparedQueryPath : string) (ToLower : string -> string)
    (LoadingDataComplete : migration.Step) (astraWrite : nat -> bool)
    action h data f0 opcode ref ks0 tb (p : CQLProxy PQ) :
  In (action, h) (actionHandlers LoadingDataComplete) ->
  opcode = "query"%string \/ opcode = "execute"%string ->
  IndexRune f0 "/" = -1 -> IndexRune ref "/" = -1 ->
  String.eqb (Join [f0; opcode; action; ref] "/") UnknownPreparedQueryPath = false ->
  extractTableInfo ref = (ks0, tb) ->
  mirrorPath UnknownPreparedQueryPath ToLower LoadingDataComplete astraWrite data
    (Join [f0; opcode; action; ref] "/") p
  = h data (if String.eqb ks0 "" then Keyspace p else ks0) tb p.
Proof. apply mirrorPath_dml. Qed.

(** A DELETE on [ks1.t1;] and an UPDATE on the bare [t1(] while the
    keyspace in use is [ks1]. *)
Lemma mirrorPath_files_under_table_witness :
  let p := sample_proxy 0 in
  let p1 := set_Keyspace "ks1"%string p in
  let data := QQuery sample_update in
  In ("delete"%string, handleDeleteQuery 5) (actionHandlers (PQ := unit) 5) /\
  In ("update"%string, handleUpdateQuery 5) (actionHandlers (PQ := unit) 5) /\
  extractTableInfo "ks1.t1;" = ("ks1"%string, "t1"%string) /\
  extractTableInfo "t1(" = (""%string, "t1"%string) /\
  mirrorPath "unknown" asciiLower 5 (fun _ => true) data "/query/delete/ks1.t1;" p
  = handleDeleteQuery 5 data "ks1" "t1" p /\
  mirrorPath "unknown" asciiLower 5 (fun _ => true) data "/execute/update/t1(" p1
  = handleUpdateQuery 5 data "ks1" "t1" p1.
Proof.
  intros p p1 data.
  assert (H1 : In ("delete"%string, handleDeleteQuery 5) (actionHandlers (PQ := unit) 5))
    by (right; right; left; reflexivity).
  assert (H2 : In ("update"%string, handleUpdateQuery 5) (actionHandlers (PQ := unit) 5))
    by (right; left; reflexivity).
  assert (H3 : extractTableInfo "ks1.t1;" = ("ks1"%string, "t1"%string)) by reflexivity.
  assert (H4 : extractTableInfo "t1(" = (""%string, "t1"%string)) by reflexivity.
  split; [exact H1|]. split; [exact H2|]. split; [exact H3|]. split; [exact H4|]. split.
  - exact (mirrorPath_files_under_table "unknown" asciiLower 5 (fun _ => true)
             "delete" (handleDeleteQuery 5) data "" "query" "ks1.t1;" "ks1" "t1" p
             H1 (or_introl eq_refl) eq_refl eq_refl eq_refl H3).
  - exact (mirrorPath_files_under_table "unknown" asciiLower 5 (fun _ => true)
             "update" (handleUpdateQuery 5) data "" "execute" "t1(" "" "t1" p1
             H2 (or_intror eq_refl) eq_refl eq_refl eq_refl H4).
Defined.

(** X12.  A path of three fields takes the proxy down.  [mirrorData] reads
    [fields[3]] for every path with opcode [query] or [execute] once it has
    seen more than two fields, so a path [f0/opcode/action] without a table
    reference panics (index out of range), whatever the action. *)
Theorem mirrorPath_three_fields_panics {PQ : Type}
    (UnknownPreparedQueryPath : string) (ToLower : string -> string)
    (LoadingDataComplete : migration.Step) (astraWrite : nat -> bool)
    data f0 opcode action (p : CQLProxy PQ) :
  opcode = "query"%string \/ opcode = "execute"%string ->
  IndexRune f0 "/" = -1 -> IndexRune action "/" = -1 ->
  String.eqb (Join [f0; opcode; action] "/") UnknownPreparedQueryPath = false ->
  mirrorPath UnknownPreparedQueryPath ToLower LoadingDataComplete astraWrite data
    (Join [f0; opcode; action] "/") p = Panic p.
Proof. apply mirrorPath_three. Qed.

(** The path [/query/select]. *)
Lemma mirrorPath_three_fields_panics_witness :
  mirrorPath "unknown" asciiLower 5 (fun _ => true) (QQuery sample_query)
    "/query/select" (sample_proxy 0) = Panic (sample_proxy 0).
Proof.
  exact (mirrorPath_three_fields_panics "unknown" asciiLower 5 (fun _ => true)
           (QQuery sample_query) "" "query" "select" (sample_proxy 0)
           (or_introl eq_refl) eq_refl eq_refl eq_refl).
Defined.



(** ** The environment *)

(** [strconv.ParseBool] accepts exactly its twelve spellings. *)
Lemma ParseBool_literals v b : In v (literals b) <-> ParseBool v = (b, true).
Proof.
  split.
  - destruct b; cbn; intros H;
      repeat (destruct H as [<-|H]; [reflexivity|]); destruct H.
  - unfold ParseBool.
    repeat match goal with
           | |- context [String.eqb v ?x] => destruct (String.eqb_spec v x) as [->|?]
           end; cbn; intros [= <-]; cbn; auto 10.
Qed.

Lemma ParseBool_rejects v b : ParseBool v = (b, false) -> b = false.
Proof.
  unfold ParseBool.
  repeat match goal with
         | |- context [String.eqb v ?x] => destruct (String.eqb_spec v x) as [->|?]
         end; cbn; by intros [= <-].
Qed.

(** X14.  A boolean setting departs from its default only when told to in
    so many words: [getEnvironmentVariableBoolOrDefault] returns the
    opposite of the default exactly when the variable is set to one of the
    six spellings [strconv.ParseBool] accepts for that opposite value; unset,
    empty or misspelt variables give the default. *)
Theorem getEnvironmentVariableBoolOrDefault_departs (e : env.Environ) key defaultValue :
  env.getEnvironmentVariableBoolOrDefault e key defaultValue = negb defaultValue <->
  exists value, e !! key = Some value /\ In value (literals (negb defaultValue)).
Proof.
  unfold env.getEnvironmentVariableBoolOrDefault, env.LookupEnv.
  destruct (e !! key) as [value|] eqn:He.
  - destruct (ParseBool value) as [result ok] eqn:Hp. split.
    + intros H. exists value. split; [done|]. apply ParseBool_literals.
      destruct ok; cbn in H; [by rewrite Hp, H|by destruct defaultValue].
    + intros (v & [= <-] & Hin). apply ParseBool_literals in Hin.
      rewrite Hp in Hin. by injection Hin as -> ->.
  - split; [by destruct defaultValue|]. by intros (v & [=] & _).
Qed.

(** X15.  Where a fresh proxy sends its clients.  After [reset] and the
    head of [migrationLoop], [handleDatabaseConnection] picks the target
    exactly when the variable [migration_complete] is set to one of the six
    spellings of true that [strconv.ParseBool] accepts; with the variable
    unset, empty or spelt any other way it picks the origin. *)
Theorem fresh_proxy_picks_host {PQ : Type} (e : env.Environ) source astra complete (pq : PQ) :
  let p := state_of (migrationLoop_init e (reset source astra complete pq)) in
  (migrationComplete p = true <->
   exists value, e !! "migration_complete"%string = Some value /\ In value (literals true)) /\
  pickHost p = (if migrationComplete p then astra else source).
Proof.
  intros p. subst p. unfold migrationLoop_init, env.Getenv. split; [|].
  - destruct (e !! "migration_complete"%string) as [value|] eqn:He.
    + change (default EmptyString (Some value)) with value.
      destruct (ParseBool value) as [status ok] eqn:Hp. cbn. split.
      * intros H. apply andb_true_iff in H as [-> ->].
        exists value. split; [done|]. exact (proj2 (ParseBool_literals value true) Hp).
      * intros (v & [= <-] & Hin). apply (ParseBool_literals value true) in Hin.
        rewrite Hp in Hin. by injection Hin as -> ->.
    + cbn. split; [done|]. by intros (v & [=] & _).
  - by destruct (ParseBool _) as [status ok].
Qed.
